(** * Settings model of the terminal: profile graph, resolution, validation

    A shallow embedding of [CascadiaSettings.cpp] (cloning of a settings
    object, creation and duplication of profiles, profile resolution for a
    launch request including the command line matcher, and the validation
    passes), together with the properties stated about it.

    Profiles are reference counted objects that the two profile lists, the
    parent edges and the command line cache all point to; they are modelled by
    a store of profile objects indexed by addresses, and every list holds
    addresses. *)

From Stdlib Require Import ZArith NArith Ascii.
From stdpp Require Import gmap strings list fin_maps pretty sorting.

Set Warnings "-register-all".

Open Scope string_scope.
Open Scope nat_scope.
Open Scope list_scope.

(** ** Exceptions *)

(** The exceptions the modelled code raises: [gsl::narrow] on a lossy
    conversion, the [THROW_*] macros of WIL on a failed system call,
    [std::filesystem] errors, and [E_INVALIDARG]. *)
Inductive exn :=
  | narrowing_error
  | hresult_error
  | filesystem_error
  | invalid_argument.

Inductive outcome (A : Type) :=
  | Returned (a : A)
  | Thrown (e : exn).
Arguments Returned {A} a.
Arguments Thrown {A} e.

Definition obind {A B} (m : outcome A) (k : A → outcome B) : outcome B :=
  match m with
  | Returned a => k a
  | Thrown e => Thrown e
  end.

Notation "x <-! m ; k" := (obind m (fun x => k))
  (at level 100, m at next level, right associativity,
   format "'[v' x  <-!  m ; '/' k ']'").

(** ** Data model *)

Abbreviation addr := positive.
Abbreviation guid := N.

Inductive OriginTag :=
  | OriginNone
  | Generated
  | InBox
  | User
  | Fragment
  | ProfilesDefaults.

Global Instance OriginTag_eq_dec : EqDecision OriginTag.
Proof. solve_decision. Defined.

Inductive SettingsLoadWarnings :=
  | UnknownColorScheme
  | InvalidBackgroundImage
  | InvalidIcon
  | AtLeastOneKeybindingWarning
  | InvalidColorSchemeInCmd
  | OtherWarning (code : nat).

Global Instance SettingsLoadWarnings_eq_dec : EqDecision SettingsLoadWarnings.
Proof. solve_decision. Defined.

(** A profile object.  [_Guid], [_Name] and [_Hidden] are the explicitly set
    values of the three settings [CreateChild] writes; every other setting is
    kept by name in [settings] (profile level), [FontInfo] and
    [DefaultAppearance] (the two sub-objects every profile owns), in its
    serialised form.  A key that is absent means "inherit".
    [UnfocusedAppearance] is itself one inheritable setting whose value is an
    appearance object. *)
Record Profile := mkProfile {
  Origin : OriginTag;
  _Guid : option guid;
  _Name : option string;
  _Hidden : option bool;
  settings : gmap string string;
  FontInfo : gmap string string;
  DefaultAppearance : gmap string string;
  UnfocusedAppearance : option (gmap string string);
  parents : list addr
}.

(** Which of the objects of a profile a named setting lives in. *)
Inductive Part := OfProfile | OfFont | OfAppearance.

Global Instance Part_eq_dec : EqDecision Part.
Proof. solve_decision. Defined.

Definition part_map (pt : Part) (p : Profile) : gmap string string :=
  match pt with
  | OfProfile => settings p
  | OfFont => FontInfo p
  | OfAppearance => DefaultAppearance p
  end.

Definition with_part (pt : Part) (f : gmap string string → gmap string string)
    (p : Profile) : Profile :=
  match pt with
  | OfProfile =>
      mkProfile (Origin p) (_Guid p) (_Name p) (_Hidden p) (f (settings p))
        (FontInfo p) (DefaultAppearance p) (UnfocusedAppearance p) (parents p)
  | OfFont =>
      mkProfile (Origin p) (_Guid p) (_Name p) (_Hidden p) (settings p)
        (f (FontInfo p)) (DefaultAppearance p) (UnfocusedAppearance p) (parents p)
  | OfAppearance =>
      mkProfile (Origin p) (_Guid p) (_Name p) (_Hidden p) (settings p)
        (FontInfo p) (f (DefaultAppearance p)) (UnfocusedAppearance p) (parents p)
  end.

Definition with_unfocused (u : option (gmap string string)) (p : Profile) : Profile :=
  mkProfile (Origin p) (_Guid p) (_Name p) (_Hidden p) (settings p)
    (FontInfo p) (DefaultAppearance p) u (parents p).

Definition with_parents (ps : list addr) (p : Profile) : Profile :=
  mkProfile (Origin p) (_Guid p) (_Name p) (_Hidden p) (settings p)
    (FontInfo p) (DefaultAppearance p) (UnfocusedAppearance p) ps.

Definition with_Guid (g : guid) (p : Profile) : Profile :=
  mkProfile (Origin p) (Some g) (_Name p) (_Hidden p) (settings p)
    (FontInfo p) (DefaultAppearance p) (UnfocusedAppearance p) (parents p).

Definition with_Name (n : string) (p : Profile) : Profile :=
  mkProfile (Origin p) (_Guid p) (Some n) (_Hidden p) (settings p)
    (FontInfo p) (DefaultAppearance p) (UnfocusedAppearance p) (parents p).

(** The store of profile objects. *)
Abbreviation heap := (gmap positive Profile).

(** Modelled from the spec: the getters of [Profile] are declared outside the
    source at hand.  A setting resolves to the node's own explicit value, else
    to the first value its parents resolve to, in parent order, depth first
    (section 3 and the design notes of the specification).  The result carries
    the object that provided the value.  The recursion is bounded by the
    number of objects in the store, which no acyclic parent chain exceeds. *)
Definition first_defined {A B} (g : A → option B) (l : list A) : option B :=
  foldr (λ x r, match g x with Some y => Some y | None => r end) None l.

Fixpoint lookup_inherited {T} (sel : Profile → option T) (fuel : nat)
    (h : heap) (a : addr) : option (addr * T) :=
  match fuel with
  | O => None
  | S f =>
      match h !! a with
      | None => None
      | Some p =>
          match sel p with
          | Some v => Some (a, v)
          | None => first_defined (lookup_inherited sel f h) (parents p)
          end
      end
  end.

Definition resolve {T} (sel : Profile → option T) (h : heap) (a : addr)
    : option (addr * T) :=
  lookup_inherited sel (size h) h a.

(** [name##OverrideSource()]: the object among the parents that provides the
    value, the node itself not considered. *)
Definition override_source {T} (sel : Profile → option T) (h : heap) (a : addr)
    : option addr :=
  match h !! a with
  | None => None
  | Some p => fst <$> first_defined (lookup_inherited sel (size h) h) (parents p)
  end.

(** ** What the modelled functions take from outside the source *)

Inductive HRESULT := S_OK | ERROR_FILE_NOT_FOUND | E_FAIL.

Global Instance HRESULT_eq_dec : EqDecision HRESULT.
Proof. solve_decision. Defined.

(** System services, library functions and constants that the functions of
    [CascadiaSettings.cpp] call and that are defined elsewhere.
    [SearchPathW file out] returns the status and the new contents of its
    output buffer, whose previous contents are [out]. *)
Class Env := {
  ExpandEnvironmentStringsW : string → outcome string;
  CommandLineToArgvW : string → list string;
  SearchPathW : string → string → HRESULT * string;
  canonical : string → outcome string;
  Uri_parses : string → bool;
  GuidFromString : string → outcome guid;
  CopySuffix : string;
  Feature_ShowProfileDefaultsInSettings : bool;
  Guid_default : guid;
  Name_default : string;
  Hidden_default : bool;
  setting_default : Part → string → string
}.

(** ** Global settings, commands and the settings object *)

Module ExpandCommandType.
Inductive t := None | Profiles | ColorSchemes.
Global Instance eq_dec : EqDecision t.
Proof. solve_decision. Defined.
End ExpandCommandType.

Inductive ActionArgs :=
  | SetColorSchemeArgs (SchemeName : string)
  | OtherArgs.

Inductive Command :=
  | mkCommand (NestedCommands : list (string * Command))
              (ActionAndArgs : option ActionArgs)
              (IterateOn : ExpandCommandType.t).

Definition NestedCommands (c : Command) : list (string * Command) :=
  match c with mkCommand n _ _ => n end.
Definition ActionAndArgs (c : Command) : option ActionArgs :=
  match c with mkCommand _ a _ => a end.
Definition IterateOn (c : Command) : ExpandCommandType.t :=
  match c with mkCommand _ _ i => i end.

(** Modelled from the spec: [Command::HasNestedCommands] is declared outside
    the source at hand; a command is a group when it has sub-commands. *)
Definition HasNestedCommands (c : Command) : bool :=
  match NestedCommands c with [] => false | _ => true end.

Record GlobalAppSettings := mkGlobals {
  DefaultProfile : guid;
  ColorSchemes : gset string;
  KeybindingsWarnings : list SettingsLoadWarnings;
  NameMap : list (string * Command)
}.

Record CascadiaSettings := mkSettings {
  _globals : GlobalAppSettings;
  _baseLayerProfile : addr;
  _allProfiles : list addr;
  _activeProfiles : list addr;
  _warnings : list SettingsLoadWarnings;
  _loadError : option nat;
  _deserializationErrorMessage : string;
  _currentDefaultTerminal : option nat;
  _commandLinesCacheOnce : bool;
  _commandLinesCache : list (string * addr)
}.

Definition with_profiles (all active : list addr) (s : CascadiaSettings) :=
  mkSettings (_globals s) (_baseLayerProfile s) all active (_warnings s)
    (_loadError s) (_deserializationErrorMessage s) (_currentDefaultTerminal s)
    (_commandLinesCacheOnce s) (_commandLinesCache s).

Definition with_warnings (w : list SettingsLoadWarnings) (s : CascadiaSettings) :=
  mkSettings (_globals s) (_baseLayerProfile s) (_allProfiles s)
    (_activeProfiles s) w (_loadError s) (_deserializationErrorMessage s)
    (_currentDefaultTerminal s) (_commandLinesCacheOnce s) (_commandLinesCache s).

Definition with_cache (once : bool) (c : list (string * addr)) (s : CascadiaSettings) :=
  mkSettings (_globals s) (_baseLayerProfile s) (_allProfiles s)
    (_activeProfiles s) (_warnings s) (_loadError s)
    (_deserializationErrorMessage s) (_currentDefaultTerminal s) once c.

(** [_warnings.Append(w)] *)
Definition Append (w : SettingsLoadWarnings) (s : CascadiaSettings) :=
  with_warnings (_warnings s ++ [w]) s.

(** ** 32-bit sizes *)

Definition UINT32_MAX : N := 4294967295.
Definition wrap32 (n : N) : N := (n mod 4294967296)%N.
Definition Size {A} (l : list A) : N := N.of_nat (length l).

Definition none_of {A} (f : A → bool) (l : list A) : bool := negb (existsb f l).

(** ** Getters and setters of profiles *)

Section Getters.
Context `{Env}.

Definition Guid (h : heap) (a : addr) : guid :=
  match resolve _Guid h a with Some (_, g) => g | None => Guid_default end.

Definition Name (h : heap) (a : addr) : string :=
  match resolve _Name h a with Some (_, n) => n | None => Name_default end.

Definition Hidden (h : heap) (a : addr) : bool :=
  match resolve _Hidden h a with Some (_, b) => b | None => Hidden_default end.

Definition get_setting (pt : Part) (k : string) (h : heap) (a : addr) : string :=
  match resolve (λ p, part_map pt p !! k) h a with
  | Some (_, v) => v
  | None => setting_default pt k
  end.

(** [Has##name()] *)
Definition has_setting (pt : Part) (k : string) (h : heap) (a : addr) : bool :=
  match h !! a with
  | Some p => bool_decide (is_Some (part_map pt p !! k))
  | None => false
  end.

Definition set_setting (pt : Part) (k v : string) (a : addr) (h : heap) : heap :=
  alter (with_part pt (<[k := v]>)) a h.

Definition clear_setting (pt : Part) (k : string) (a : addr) (h : heap) : heap :=
  alter (with_part pt (delete k)) a h.

Definition Commandline : heap → addr → string := get_setting OfProfile "Commandline".
Definition Icon : heap → addr → string := get_setting OfProfile "Icon".
Definition ClearIcon : addr → heap → heap := clear_setting OfProfile "Icon".
End Getters.

(** ** Creating and duplicating profiles *)

Section Creation.
Context `{Env}.

(** [winrt::make_self<Profile>()]: a new object at an unused address. *)
Definition new_address (h : heap) : addr := fresh (dom h).

Definition CreateChild (h : heap) (parent : addr) : heap * addr :=
  let profile :=
    {| Origin := User;
       _Name := Some (Name h parent);
       _Guid := Some (Guid h parent);
       _Hidden := Some (Hidden h parent);
       settings := ∅; FontInfo := ∅; DefaultAppearance := ∅;
       UnfocusedAppearance := None;
       parents := [parent] |} in
  (<[new_address h := profile]> h, new_address h).

(** [guid] is what [CoCreateGuid] hands out. *)
Definition _createNewProfile (h : heap) (s : CascadiaSettings) (name : string)
    (guid : guid) : heap * addr :=
  let '(h, profile) := CreateChild h (_baseLayerProfile s) in
  let h := alter (with_Guid guid) profile h in
  let h := alter (with_Name name) profile h in
  (h, profile).

Definition name_is_free (h : heap) (s : CascadiaSettings) (newName : string) : bool :=
  none_of (λ profile, bool_decide (Name h profile = newName)) (_allProfiles s).

Fixpoint CreateNewProfile_loop (h : heap) (s : CascadiaSettings) (count : N)
    (todo : nat) (candidateIndex : N) (newName : string) : string :=
  match todo with
  | O => newName
  | S todo =>
      let newName := "Profile " +:+ pretty (wrap32 (count + candidateIndex)) in
      if name_is_free h s newName then newName
      else CreateNewProfile_loop h s count todo (wrap32 (candidateIndex + 1)) newName
  end.

Definition CreateNewProfile (h : heap) (s : CascadiaSettings) (guid : guid)
    : heap * CascadiaSettings * option addr :=
  if bool_decide (Size (_allProfiles s) = UINT32_MAX) then (h, s, None)
  else
    let count := wrap32 (Size (_allProfiles s) + 1) in
    let newName := CreateNewProfile_loop h s count (N.to_nat count) 0 "" in
    let '(h, newProfile) := _createNewProfile h s newName guid in
    (h,
     with_profiles (_allProfiles s ++ [newProfile]) (_activeProfiles s ++ [newProfile]) s,
     Some newProfile).

Fixpoint DuplicateProfile_loop (h : heap) (s : CascadiaSettings) (sourceName : string)
    (todo : nat) (candidateIndex : N) (newName : string) : string :=
  match todo with
  | O => newName
  | S todo =>
      if name_is_free h s newName then newName
      else
        DuplicateProfile_loop h s sourceName todo (wrap32 (candidateIndex + 1))
          (sourceName +:+ " (" +:+ CopySuffix +:+ " "
             +:+ pretty (wrap32 (candidateIndex + 2)) +:+ ")")
  end.

(** The lambda of that name: a profile that exists and whose origin is not
    [ProfilesDefaults]. *)
Definition isProfilesDefaultsOrigin (h : heap) (profile : option addr) : bool :=
  match profile with
  | Some a =>
      match h !! a with
      | Some p => bool_decide (Origin p ≠ ProfilesDefaults)
      | None => false
      end
  | None => false
  end.

Definition NEEDS_DUPLICATION (pt : Part) (settingName : string) (h : heap)
    (source : addr) : bool :=
  has_setting pt settingName h source
  || isProfilesDefaultsOrigin h
       (override_source (λ p, part_map pt p !! settingName) h source).

Definition DUPLICATE_SETTING_MACRO (pt : Part) (source duplicated : addr)
    (h : heap) (settingName : string) : heap :=
  if NEEDS_DUPLICATION pt settingName h source
  then set_setting pt settingName (get_setting pt settingName h source) duplicated h
  else h.

Definition duplicated_profile_settings : list string :=
  [ "Icon"; "CloseOnExit"; "TabTitle"; "TabColor"; "SuppressApplicationTitle";
    "UseAcrylic"; "ScrollState"; "Padding"; "Commandline"; "StartingDirectory";
    "AntialiasingMode"; "ForceFullRepaintRendering"; "SoftwareRendering";
    "HistorySize"; "SnapOnInput"; "AltGrAliasing"; "BellStyle" ].

Definition duplicated_font_settings : list string :=
  [ "FontFace"; "FontSize"; "FontWeight"; "FontFeatures"; "FontAxes" ].

Definition duplicated_appearance_settings : list string :=
  [ "ColorSchemeName"; "Foreground"; "Background"; "SelectionBackground";
    "CursorColor"; "PixelShaderPath"; "IntenseTextStyle"; "BackgroundImagePath";
    "BackgroundImageOpacity"; "BackgroundImageStretchMode";
    "BackgroundImageAlignment"; "RetroTerminalEffect"; "CursorShape";
    "CursorHeight"; "Opacity" ].

(** [UnfocusedAppearance] is duplicated as one setting: the appearance object
    the source resolves to is copied into the duplicate, whose own default
    appearance becomes the parent of the copy. *)
Definition duplicate_UnfocusedAppearance (source duplicated : addr) (h : heap) : heap :=
  if (match h !! source with
      | Some p => bool_decide (is_Some (UnfocusedAppearance p))
      | None => false
      end)
     || isProfilesDefaultsOrigin h (override_source UnfocusedAppearance h source)
  then
    match resolve UnfocusedAppearance h source with
    | Some (_, unfocusedAppearance) =>
        alter (with_unfocused (Some unfocusedAppearance)) duplicated h
    | None => h
    end
  else h.

Definition DuplicateProfile (h : heap) (s : CascadiaSettings) (source : option addr)
    (guid : guid) : outcome (heap * CascadiaSettings * addr) :=
  match source with
  | None => Thrown invalid_argument
  | Some source =>
      let count := wrap32 (Size (_allProfiles s) + 1) in
      let newName :=
        DuplicateProfile_loop h s (Name h source) (N.to_nat count) 0
          (Name h source +:+ " (" +:+ CopySuffix +:+ ")") in
      let '(h, duplicated) := _createNewProfile h s newName guid in
      let h := foldl (DUPLICATE_SETTING_MACRO OfProfile source duplicated) h
                 duplicated_profile_settings in
      let h := foldl (DUPLICATE_SETTING_MACRO OfFont source duplicated) h
                 duplicated_font_settings in
      let h := foldl (DUPLICATE_SETTING_MACRO OfAppearance source duplicated) h
                 duplicated_appearance_settings in
      let h := duplicate_UnfocusedAppearance source duplicated h in
      let h :=
        if has_setting OfProfile "ConnectionType" h source
        then set_setting OfProfile "ConnectionType"
               (get_setting OfProfile "ConnectionType" h source) duplicated h
        else h in
      Returned
        (h,
         with_profiles (_allProfiles s ++ [duplicated]) (_activeProfiles s ++ [duplicated]) s,
         duplicated)
  end.
End Creation.

(** A store that extends [h] by the object [d], whose hidden flag is set to
    [b]. *)
Definition extended_by (h : heap) (d : addr) (b : bool) (h' : heap) : Prop :=
  h ⊆ h' ∧ ∃ q, h' !! d = Some q ∧ _Hidden q = Some b.

(** The store [h'] is [h] with the object [d] added, as [_createNewProfile]
    makes it: a user profile with the GUID [g] and the name [n] whose only
    parent is [base]. *)
Definition created_in (h : heap) (d : addr) (g : guid) (n : string) (base : addr)
    (h' : heap) : Prop :=
  h ⊆ h' ∧ h !! d = None
  ∧ ∃ q, h' !! d = Some q ∧ Origin q = User ∧ _Guid q = Some g ∧ _Name q = Some n
         ∧ parents q = [base].


Section DuplicationDetails.
Context `{Env}.

(** The names [DuplicateProfile] tries, by candidate index: the name of the
    source with the suffix, then with the suffix and the numbers from 2 on. *)
Definition DuplicateProfile_candidate (sourceName : string) (i : nat) : string :=
  match i with
  | O => sourceName +:+ " (" +:+ CopySuffix +:+ ")"
  | S k =>
      sourceName +:+ " (" +:+ CopySuffix +:+ " "
        +:+ pretty (wrap32 (N.of_nat k + 2)) +:+ ")"
  end.


(** What [DUPLICATE_SETTING_MACRO] does to the map of the duplicate that
    holds the setting, the values being read from the store [h]. *)
Definition duplicate_into (pt : Part) (source : addr) (h : heap)
    (m : gmap string string) (settingName : string) : gmap string string :=
  if NEEDS_DUPLICATION pt settingName h source
  then <[settingName := get_setting pt settingName h source]> m
  else m.

(** The settings that are duplicated, by the object that holds them. *)
Definition duplicated_settings (pt : Part) : list string :=
  match pt with
  | OfProfile => duplicated_profile_settings
  | OfFont => duplicated_font_settings
  | OfAppearance => duplicated_appearance_settings
  end.


(** The store [DuplicateProfile] leaves, given the store [_createNewProfile]
    made. *)
Definition DuplicateProfile_settings (source duplicated : addr) (h : heap) : heap :=
  let h := foldl (DUPLICATE_SETTING_MACRO OfProfile source duplicated) h
             duplicated_profile_settings in
  let h := foldl (DUPLICATE_SETTING_MACRO OfFont source duplicated) h
             duplicated_font_settings in
  let h := foldl (DUPLICATE_SETTING_MACRO OfAppearance source duplicated) h
             duplicated_appearance_settings in
  let h := duplicate_UnfocusedAppearance source duplicated h in
  if has_setting OfProfile "ConnectionType" h source
  then set_setting OfProfile "ConnectionType"
         (get_setting OfProfile "ConnectionType" h source) duplicated h
  else h.

End DuplicationDetails.

(** ** Cloning the inheritance graph, and [Copy] *)

(** The state of one cloning pass: the store, and the [visited] map from
    source object to its clone. *)
Abbreviation clone_state := (gmap positive Profile * gmap positive positive)%type.

Section CloneList.
Variable clone_one : addr → clone_state → option (addr * clone_state).

(** [Profile::CopyInheritanceGraphs(visited, source, target)] *)
Fixpoint clone_each (source : list addr) (st : clone_state)
    : option (list addr * clone_state) :=
  match source with
  | [] => Some ([], st)
  | sourceProfile :: source =>
      match clone_one sourceProfile st with
      | None => None
      | Some (c, st) =>
          match clone_each source st with
          | None => None
          | Some (target, st) => Some (c :: target, st)
          end
      end
  end.
End CloneList.

(** Modelled from the spec: [Profile::CopySettings] and
    [Profile::CopyInheritanceGraph] are defined outside the source at hand.
    Per section 4.1 of the specification: keep a map from source node to its
    clone; for a node not yet in the map, copy its own settings into a new
    node, enter it into the map, make sure all of its parents are cloned
    (memoized), and attach the cloned parents in the original order.  The
    result is [None] when a parent edge leads outside the store or when the
    recursion bound, the number of objects in the store at the start, is
    exhausted, which happens on a cyclic graph only. *)
Definition CopySettings (p : Profile) : Profile := with_parents [] p.

Fixpoint CopyInheritanceGraph (fuel : nat) (this : addr) (st : clone_state)
    : option (addr * clone_state) :=
  match fuel with
  | O => None
  | S fuel =>
      match st.2 !! this with
      | Some clone => Some (clone, st)
      | None =>
          match st.1 !! this with
          | None => None
          | Some p =>
              let clone := fresh (dom st.1) in
              let st := (<[clone := CopySettings p]> st.1, <[this := clone]> st.2) in
              match clone_each (CopyInheritanceGraph fuel) (parents p) st with
              | None => None
              | Some (target, st) =>
                  Some (clone, (alter (with_parents target) clone st.1, st.2))
              end
          end
      end
  end.

Definition CopyInheritanceGraphs (fuel : nat) : list addr → clone_state
    → option (list addr * clone_state) :=
  clone_each (CopyInheritanceGraph fuel).

Section Copying.
Context `{Env}.

(** [visited] is the map the clone was made with; it is local to the call in
    the source and returned here for the statements about it. *)
Definition Copy_with_map (h : heap) (s : CascadiaSettings)
    : option (heap * CascadiaSettings * gmap positive positive) :=
  match CopyInheritanceGraph (size h) (_baseLayerProfile s) (h, ∅) with
  | None => None
  | Some (baseLayerProfile, st) =>
      match CopyInheritanceGraphs (size h) (_allProfiles s) st with
      | None => None
      | Some (targetProfiles, (h', visited)) =>
          Some (h',
                {| _globals := _globals s;
                   _baseLayerProfile := baseLayerProfile;
                   _allProfiles := targetProfiles;
                   _activeProfiles :=
                     List.filter (λ profile, negb (Hidden h' profile)) targetProfiles;
                   _warnings := _warnings s;
                   _loadError := _loadError s;
                   _deserializationErrorMessage := _deserializationErrorMessage s;
                   _currentDefaultTerminal := _currentDefaultTerminal s;
                   _commandLinesCacheOnce := false;
                   _commandLinesCache := [] |},
                visited)
      end
  end.

(** The active profiles are the profiles that are not hidden, in order. *)
Definition active_invariant (h : heap) (s : CascadiaSettings) : Prop :=
  _activeProfiles s = List.filter (λ profile, negb (Hidden h profile)) (_allProfiles s).

Definition Copy (h : heap) (s : CascadiaSettings) : option (heap * CascadiaSettings) :=
  fst <$> Copy_with_map h s.
End Copying.

(** ** The shape of a profile graph and of its clone *)

(** [q] is a parent of [a] in the store [h0]; [reach h0 a x] when [x] is [a]
    or an ancestor of it. *)
Definition parent_edge (h0 : heap) (a q : addr) : Prop :=
  ∃ p, h0 !! a = Some p ∧ q ∈ parents p.

Definition reach (h0 : heap) : addr → addr → Prop := rtc (parent_edge h0).

(** A store is a well formed profile graph when every parent edge leads to an
    object of the store and goes down in [rank], which stays below the number
    of objects: the graph is acyclic. *)
Definition well_formed_graph (h0 : heap) (rank : addr → nat) : Prop :=
  map_Forall (λ a p, rank a < size h0
                     ∧ Forall (λ q, is_Some (h0 !! q) ∧ rank q < rank a) (parents p)) h0.

(** [a] has been cloned in the state [st]: its clone carries its own settings
    and, as parents, the clones of its parents, in order. *)
Definition cloned (h0 : heap) (st : clone_state) (a : addr) : Prop :=
  ∃ c p cs,
    st.2 !! a = Some c ∧ h0 !! a = Some p
    ∧ st.1 !! c = Some (with_parents cs p)
    ∧ Forall2 (λ x y, st.2 !! x = Some y) (parents p) cs.

(** What every state of a cloning pass over the store [h0] satisfies: the
    objects of [h0] are as they were; the clones are new objects, one per
    visited source, each carrying the settings of its source; and nothing
    else has been allocated. *)
Record clone_inv (h0 : heap) (st : clone_state) : Prop := mk_clone_inv {
  inv_orig : h0 ⊆ st.1;
  inv_fresh : ∀ a c, st.2 !! a = Some c → is_Some (h0 !! a) ∧ h0 !! c = None;
  inv_inj : ∀ a a' c, st.2 !! a = Some c → st.2 !! a' = Some c → a = a';
  inv_dom : ∀ c, is_Some (st.1 !! c) → is_Some (h0 !! c) ∨ ∃ a, st.2 !! a = Some c;
  inv_copy : ∀ a c, st.2 !! a = Some c →
             ∃ p cs, h0 !! a = Some p ∧ st.1 !! c = Some (with_parents cs p);
  inv_size : size st.1 = size h0 + size st.2
}.

(** What a call that clones [this] from the state [st] guarantees about its
    result [c] and the state [st'] it leaves. *)
Definition clone_post (h0 : heap) (this : addr) (st : clone_state) (c : addr)
    (st' : clone_state) : Prop :=
  clone_inv h0 st' ∧ st.1 ⊆ st'.1 ∧ st.2 ⊆ st'.2
  ∧ st'.2 !! this = Some c
  ∧ (∀ x, is_Some (st'.2 !! x) → st.2 !! x = None → cloned h0 st' x ∧ reach h0 this x)
  ∧ cloned h0 st' this.

(** What one call of the function [f] on [x] guarantees when the visited nodes
    that are not above [x] are fully cloned. *)
Definition clones (h0 : heap) (rank : addr → nat)
    (f : addr → clone_state → option (addr * clone_state)) (x : addr) : Prop :=
  ∀ st, clone_inv h0 st →
        (∀ y, is_Some (st.2 !! y) → rank y ≤ rank x → cloned h0 st y) →
        ∃ c st', f x st = Some (c, st') ∧ clone_post h0 x st c st'.

(** ** Profile resolution *)

Module NewTerminalArgs.
Record t := mk {
  Profile : string;
  ProfileIndex : option Z;
  Commandline : string
}.
End NewTerminalArgs.

(** [gsl::narrow<uint32_t>] of a 32-bit signed value. *)
Definition narrow_uint32 (z : Z) : outcome N :=
  if bool_decide (0 ≤ z < 4294967296)%Z then Returned (Z.to_N z)
  else Thrown narrowing_error.

Definition NUL : string := String Ascii.zero "".

(** [std::stable_sort] with the comparator of the cache, longer first:
    [comp lhs rhs] is [lhs.first.size() > rhs.first.size()]. *)
Definition cache_comp (lhs rhs : string * addr) : bool :=
  bool_decide (String.length rhs.1 < String.length lhs.1).

Fixpoint stable_insert (x : string * addr) (l : list (string * addr))
    : list (string * addr) :=
  match l with
  | [] => [x]
  | y :: l' => if cache_comp y x then y :: stable_insert x l' else x :: l
  end.

Definition stable_sort (l : list (string * addr)) : list (string * addr) :=
  foldr stable_insert [] l.

(** [std::lower_bound] over the cache, by bisection, with the comparator
    [lhs.first.size() > rhs.size()]: the first position whose entry is
    not longer than the needle. *)
Fixpoint lower_bound_loop (fuel : nat) (cache : list (string * addr))
    (needle : string) (first count : nat) : nat :=
  match fuel with
  | O => first
  | S fuel =>
      if bool_decide (count = 0) then first
      else
        let step := count `div` 2 in
        let it := first + step in
        match cache !! it with
        | Some lhs =>
            if bool_decide (String.length needle < String.length lhs.1)
            then lower_bound_loop fuel cache needle (it + 1) (count - (step + 1))
            else lower_bound_loop fuel cache needle first step
        | None => first
        end
  end.

Definition lower_bound (cache : list (string * addr)) (needle : string) : nat :=
  lower_bound_loop (length cache) cache needle 0 (length cache).

(** [til::starts_with(str, prefix)] *)
Definition starts_with (str prefix : string) : bool := String.prefix prefix str.

Section Resolution.
Context `{Env}.

Definition FindProfile (h : heap) (s : CascadiaSettings) (guid : guid) : option addr :=
  List.find (λ profile, bool_decide (Guid h profile = guid)) (_allProfiles s).

Definition ProfileDefaults (s : CascadiaSettings) : addr := _baseLayerProfile s.

Definition GetProfileByIndex (s : CascadiaSettings) (index : N) : option addr :=
  if bool_decide (index < Size (_activeProfiles s))%N
  then _activeProfiles s !! N.to_nat index
  else None.

Definition GetProfileByName (h : heap) (s : CascadiaSettings) (name : string)
    : outcome (option addr) :=
  if bool_decide (name ≠ "") then
    byGuid <-!
      (if bool_decide (String.length name = 38)
          && bool_decide (String.get 0 name = Some "{"%char)
       then newGUID <-! GuidFromString name; Returned (FindProfile h s newGUID)
       else Returned None);
    match byGuid with
    | Some profile => Returned (Some profile)
    | None =>
        Returned (List.find (λ profile, bool_decide (Name h profile = name))
                    (_allProfiles s))
    end
  else Returned None.

(** The loop that resolves the executable.  [arg0] and [arg1] are the first
    two arguments as [CommandLineToArgvW] returned them, laid out back to back;
    once the separator between them has been overwritten by a space [merged],
    [argv[0]] reads as both joined.  [argv[1]] keeps pointing at [arg1]. *)
Fixpoint resolve_executable (arg0 arg1 : string) (argc : nat) (merged : bool)
    (normalized : string) : outcome (string * nat * bool) :=
  let argv0 := if merged then arg0 +:+ " " +:+ arg1 else arg0 in
  match SearchPathW argv0 normalized with
  | (S_OK, normalized) =>
      path <-! canonical normalized; Returned (path, argc, merged)
  | (status, normalized) =>
      match argc with
      | S (S _ as argc') =>
          if bool_decide (status = ERROR_FILE_NOT_FOUND)
          then resolve_executable arg0 arg1 argc' true normalized
          else Returned (normalized, argc, merged)
      | _ => Returned (normalized, argc, merged)
      end
  end.

Fixpoint join_with (sep : string) (l : list string) : string :=
  match l with
  | [] => ""
  | [x] => x
  | x :: l => x +:+ sep +:+ join_with sep l
  end.

Definition _normalizeCommandLine (commandLine : string) : outcome string :=
  normalized <-! ExpandEnvironmentStringsW commandLine;
  match CommandLineToArgvW normalized with
  | [] => Thrown hresult_error
  | arg0 :: rest =>
      let argc := S (length rest) in
      r <-! resolve_executable arg0 (hd "" rest) argc false normalized;
      let '(normalized, argc, merged) := r in
      if bool_decide (1 < argc)
      then
        Returned (normalized +:+ (if merged then " " else NUL)
                    +:+ join_with NUL (take (argc - 1) rest))
      else Returned normalized
  end.

(** The body run under [std::call_once], up to the sort: one entry per profile
    with a non-empty command line.  An exception leaves the entries made so
    far in place. *)
Fixpoint fill_cache (h : heap) (profiles : list addr) (cache : list (string * addr))
    : list (string * addr) * option exn :=
  match profiles with
  | [] => (cache, None)
  | profile :: profiles =>
      let cmd := Commandline h profile in
      if bool_decide (cmd ≠ "") then
        match _normalizeCommandLine cmd with
        | Returned n => fill_cache h profiles (cache ++ [(n, profile)])
        | Thrown e => (cache, Some e)
        end
      else fill_cache h profiles cache
  end.

(** What the cache holds for one profile once it is built, and whether a
    command line normalises without an exception. *)
Definition cache_entry (h : heap) (profile : addr) : option (string * addr) :=
  if bool_decide (Commandline h profile ≠ "") then
    match _normalizeCommandLine (Commandline h profile) with
    | Returned n => Some (n, profile)
    | Thrown _ => None
    end
  else None.

(** [profile] declares a non-empty command line whose normal form is [n]. *)
Definition declares (h : heap) (profile : addr) (n : string) : Prop :=
  Commandline h profile ≠ ""
  ∧ _normalizeCommandLine (Commandline h profile) = Returned n.

(** The cache is as a settings object starts out with, or it is the one built
    from the profiles as they are. *)
Definition cache_current (h : heap) (s : CascadiaSettings) : Prop :=
  (_commandLinesCacheOnce s = false ∧ _commandLinesCache s = [])
  ∨ (_commandLinesCacheOnce s = true
     ∧ _commandLinesCache s = stable_sort (omap (cache_entry h) (_allProfiles s))).

Definition normalizes (commandLine : string) : bool :=
  match _normalizeCommandLine commandLine with
  | Returned _ => true
  | Thrown _ => false
  end.

(** [std::call_once(_commandLinesCacheOnce, ...)]: the flag is set only when
    the body returns normally. *)
Definition build_cache_once (h : heap) (s : CascadiaSettings)
    : CascadiaSettings * option exn :=
  if _commandLinesCacheOnce s then (s, None)
  else
    match fill_cache h (_allProfiles s) (_commandLinesCache s) with
    | (cache, Some e) => (with_cache false cache s, Some e)
    | (cache, None) => (with_cache true (stable_sort cache) s, None)
    end.

Definition search_cache (cache : list (string * addr)) (needle : string) : option addr :=
  snd <$> List.find (λ it, starts_with needle it.1)
            (drop (lower_bound cache needle) cache).

Definition _getProfileForCommandLine (h : heap) (s : CascadiaSettings)
    (commandLine : string) : outcome (option addr) * CascadiaSettings :=
  match build_cache_once h s with
  | (s, Some e) => (Thrown e, s)
  | (s, None) =>
      (needle <-! _normalizeCommandLine commandLine;
       Returned (search_cache (_commandLinesCache s) needle), s)
  end.

Definition default_branch (h : heap) (s : CascadiaSettings)
    (newTerminalArgs : option NewTerminalArgs.t) : option addr :=
  if Feature_ShowProfileDefaultsInSettings then
    if (match newTerminalArgs with
        | None => true
        | Some args => bool_decide (NewTerminalArgs.Commandline args = "")
        end)
    then FindProfile h s (DefaultProfile (_globals s))
    else Some (ProfileDefaults s)
  else FindProfile h s (DefaultProfile (_globals s)).

Definition by_commandline (h : heap) (s : CascadiaSettings) (args : NewTerminalArgs.t)
    : outcome (option addr) * CascadiaSettings :=
  if bool_decide (NewTerminalArgs.Commandline args ≠ "")
  then _getProfileForCommandLine h s (NewTerminalArgs.Commandline args)
  else (Returned None, s).

Definition by_index (s : CascadiaSettings) (args : NewTerminalArgs.t)
    : outcome (option addr) :=
  match NewTerminalArgs.ProfileIndex args with
  | Some index => i <-! narrow_uint32 index; Returned (GetProfileByIndex s i)
  | None => Returned None
  end.

Definition by_name (h : heap) (s : CascadiaSettings) (args : NewTerminalArgs.t)
    : outcome (option addr) :=
  if bool_decide (NewTerminalArgs.Profile args ≠ "")
  then GetProfileByName h s (NewTerminalArgs.Profile args)
  else Returned None.

Definition GetProfileForArgs (h : heap) (s : CascadiaSettings)
    (newTerminalArgs : option NewTerminalArgs.t)
    : outcome (option addr) * CascadiaSettings :=
  match newTerminalArgs with
  | Some args =>
      match by_name h s args with
      | Thrown e => (Thrown e, s)
      | Returned (Some profile) => (Returned (Some profile), s)
      | Returned None =>
          match by_index s args with
          | Thrown e => (Thrown e, s)
          | Returned (Some profile) => (Returned (Some profile), s)
          | Returned None =>
              match by_commandline h s args with
              | (Thrown e, s) => (Thrown e, s)
              | (Returned (Some profile), s) => (Returned (Some profile), s)
              | (Returned None, s) => (Returned (default_branch h s newTerminalArgs), s)
              end
          end
      end
  | None => (Returned (default_branch h s newTerminalArgs), s)
  end.
End Resolution.

(** The arguments as [_normalizeCommandLine] appends them after the path. *)
Definition appended_arguments (separator : string) (arguments : list string) : string :=
  match arguments with
  | [] => ""
  | _ => separator +:+ join_with NUL arguments
  end.


(** ** The callers in [TerminalPage.cpp] *)

(** [gsl::narrow_cast<int>] of a 32-bit unsigned value: the conversion is not
    checked, and a value from 2^31 on comes out negative. *)
Definition narrow_cast_int (n : N) : Z :=
  if bool_decide (n < 2147483648)%N then Z.of_N n else (Z.of_N n - 4294967296)%Z.

(** The conversion of an [int] to [uint32_t] at a call. *)
Definition to_uint32 (z : Z) : N := Z.to_N (z mod 4294967296).

(** [IVector::GetAt], which raises [E_BOUNDS] out of range. *)
Definition GetAt (l : list addr) (index : N) : outcome addr :=
  match l !! N.to_nat index with
  | Some x => Returned x
  | None => Thrown hresult_error
  end.

(** [NewTerminalArgs{ profileIndex }]: a request that carries an index and
    nothing else. *)
Definition NewTerminalArgs_of_index (profileIndex : Z) : NewTerminalArgs.t :=
  NewTerminalArgs.mk "" (Some profileIndex) "".

(** The loop of [_CreateNewTabFlyout] over the active profiles: for each menu
    item, the profile whose name it shows and the request that a click on it
    opens. *)
Fixpoint _CreateNewTabFlyout_loop (s : CascadiaSettings) (todo : nat)
    (profileIndex profileCount : Z) : outcome (list (addr * NewTerminalArgs.t)) :=
  match todo with
  | O => Returned []
  | S todo =>
      if bool_decide (profileIndex < profileCount)%Z then
        profile <-! GetAt (_activeProfiles s) (to_uint32 profileIndex);
        items <-! _CreateNewTabFlyout_loop s todo (profileIndex + 1) profileCount;
        Returned ((profile, NewTerminalArgs_of_index profileIndex) :: items)
      else Returned []
  end.

Definition _CreateNewTabFlyout (s : CascadiaSettings)
    : outcome (list (addr * NewTerminalArgs.t)) :=
  let profileCount := narrow_cast_int (Size (_activeProfiles s)) in
  _CreateNewTabFlyout_loop s (Z.to_nat profileCount) 0 profileCount.

Section Callers.
Context `{Env}.

(** [profile == _settings.ProfileDefaults()] compares the objects. *)
Definition GetClosestProfileForDuplicationOfProfile (h : heap) (s : CascadiaSettings)
    (profile : option addr) : option addr :=
  if bool_decide (profile = Some (ProfileDefaults s))
  then FindProfile h s (DefaultProfile (_globals s))
  else profile.

(** The map from GUID to profile that [_RefreshUIForSettingsReload] builds
    with [insert_or_assign]: the base layer first, then the profiles. *)
Definition profileGuidSettingsMap (h : heap) (s : CascadiaSettings) : gmap N addr :=
  foldl (λ m newProfile, <[Guid h newProfile := newProfile]> m)
    {[ Guid h (ProfileDefaults s) := ProfileDefaults s ]}
    (_allProfiles s).
End Callers.


(** ** Validation *)

(** The appearance objects reachable from a profile: its own default
    appearance, and the unfocused appearance it resolves to, which belongs to
    the profile [owner] that defines it and has the default appearance of
    [owner] as its parent. *)
Inductive AppearanceRef :=
  | DefaultOf (profile : addr)
  | UnfocusedOf (owner : addr).

Section Validation.
Context `{Env}.

Definition DefaultAppearance_ref (profile : addr) : option AppearanceRef :=
  Some (DefaultOf profile).

Definition UnfocusedAppearance_ref (h : heap) (profile : addr) : option AppearanceRef :=
  match resolve UnfocusedAppearance h profile with
  | Some (owner, _) => Some (UnfocusedOf owner)
  | None => None
  end.

Definition appearance_get (k : string) (h : heap) (appearance : AppearanceRef) : string :=
  match appearance with
  | DefaultOf profile => get_setting OfAppearance k h profile
  | UnfocusedOf owner =>
      match h !! owner with
      | Some p =>
          match UnfocusedAppearance p with
          | Some u =>
              match u !! k with
              | Some v => v
              | None => get_setting OfAppearance k h owner
              end
          | None => setting_default OfAppearance k
          end
      | None => setting_default OfAppearance k
      end
  end.

Definition appearance_clear (k : string) (appearance : AppearanceRef) (h : heap) : heap :=
  match appearance with
  | DefaultOf profile => clear_setting OfAppearance k profile h
  | UnfocusedOf owner =>
      alter (λ p, with_unfocused (delete k <$> UnfocusedAppearance p) p) owner h
  end.

Definition ColorSchemeName := appearance_get "ColorSchemeName".
Definition ClearColorSchemeName := appearance_clear "ColorSchemeName".
Definition BackgroundImagePath := appearance_get "BackgroundImagePath".
Definition ClearBackgroundImagePath := appearance_clear "BackgroundImagePath".

Definition HasKey (colorSchemes : gset string) (name : string) : bool :=
  bool_decide (name ∈ colorSchemes).

(** The body of the inner loop of [_validateAllSchemesExist]. *)
Definition check_scheme (colorSchemes : gset string)
    (acc : heap * bool) (appearance : option AppearanceRef) : heap * bool :=
  match appearance with
  | Some appearance =>
      if negb (HasKey colorSchemes (ColorSchemeName acc.1 appearance))
      then (ClearColorSchemeName appearance acc.1, true)
      else acc
  | None => acc
  end.

Definition check_profile_schemes (colorSchemes : gset string)
    (acc : heap * bool) (profile : addr) : heap * bool :=
  foldl (check_scheme colorSchemes) acc
    [DefaultAppearance_ref profile; UnfocusedAppearance_ref acc.1 profile].

Definition _validateAllSchemesExist (h : heap) (s : CascadiaSettings)
    : heap * CascadiaSettings :=
  let colorSchemes := ColorSchemes (_globals s) in
  let '(h, foundInvalidScheme) :=
    foldl (check_profile_schemes colorSchemes) (h, false) (_allProfiles s) in
  (h, if foundInvalidScheme then Append UnknownColorScheme s else s).

(** Modelled from the spec: [ExpandedBackgroundImagePath] is declared outside
    the source at hand; it is the background image path of the appearance with
    environment variables expanded, and empty when the path is (section 4.5). *)
Definition ExpandedBackgroundImagePath (h : heap) (appearance : AppearanceRef)
    : outcome string :=
  let path := BackgroundImagePath h appearance in
  if bool_decide (path = "") then Returned path
  else ExpandEnvironmentStringsW path.

Definition check_background (acc : heap * bool) (appearance : AppearanceRef)
    : outcome (heap * bool) :=
  path <-! ExpandedBackgroundImagePath acc.1 appearance;
  if bool_decide (path ≠ "") && negb (Uri_parses path)
  then Returned (ClearBackgroundImagePath appearance acc.1, true)
  else Returned acc.

(** The check of the icon of a profile: anything longer than two characters
    must be a resource locator. *)
Definition check_icon (acc : heap * bool) (profile : addr) : outcome (heap * bool) :=
  let icon := Icon acc.1 profile in
  if bool_decide (2 < String.length icon) then
    iconPath <-! ExpandEnvironmentStringsW icon;
    if Uri_parses iconPath then Returned acc
    else Returned (ClearIcon profile acc.1, true)
  else Returned acc.

(** The body of the loop of [_validateMediaResources]; the state is the store
    and the flags [invalidBackground] and [invalidIcon]. *)
Definition check_profile_media (acc : heap * bool * bool) (profile : addr)
    : outcome (heap * bool * bool) :=
  let '(h, invalidBackground, invalidIcon) := acc in
  r <-! check_background (h, invalidBackground) (DefaultOf profile);
  r <-! (match UnfocusedAppearance_ref r.1 profile with
         | Some unfocused => check_background r unfocused
         | None => Returned r
         end);
  i <-! check_icon (r.1, invalidIcon) profile;
  Returned (i.1, r.2, i.2).

Fixpoint for_each {A S} (body : S → A → outcome S) (acc : S) (l : list A) : outcome S :=
  match l with
  | [] => Returned acc
  | x :: l => acc <-! body acc x; for_each body acc l
  end.

Definition _validateMediaResources (h : heap) (s : CascadiaSettings)
    : outcome (heap * CascadiaSettings) :=
  r <-! for_each check_profile_media (h, false, false) (_allProfiles s);
  let '(h, invalidBackground, invalidIcon) := r in
  let s := if invalidBackground then Append InvalidBackgroundImage s else s in
  let s := if invalidIcon then Append InvalidIcon s else s in
  Returned (h, s).

Definition _validateKeybindings (s : CascadiaSettings) : CascadiaSettings :=
  let keybindingWarnings := KeybindingsWarnings (_globals s) in
  match keybindingWarnings with
  | [] => s
  | _ => foldl (λ s warning, Append warning s)
           (Append AtLeastOneKeybindingWarning s) keybindingWarnings
  end.

Fixpoint _hasInvalidColorScheme (colorSchemes : gset string) (command : Command) : bool :=
  match command with
  | mkCommand nested actionAndArgs iterateOn =>
      match nested with
      | _ :: _ =>
          existsb (λ nameAndCmd, _hasInvalidColorScheme colorSchemes nameAndCmd.2) nested
      | [] =>
          match actionAndArgs with
          | Some (SetColorSchemeArgs schemeName) =>
              bool_decide (iterateOn ≠ ExpandCommandType.ColorSchemes)
              && negb (HasKey colorSchemes schemeName)
          | _ => false
          end
      end
  end.

Definition _validateColorSchemesInCommands (s : CascadiaSettings) : CascadiaSettings :=
  let foundInvalidScheme :=
    existsb (λ nameAndCmd, _hasInvalidColorScheme (ColorSchemes (_globals s)) nameAndCmd.2)
      (NameMap (_globals s)) in
  if foundInvalidScheme then Append InvalidColorSchemeInCmd s else s.

Definition _validateSettings (h : heap) (s : CascadiaSettings)
    : outcome (heap * CascadiaSettings) :=
  let '(h, s) := _validateAllSchemesExist h s in
  r <-! _validateMediaResources h s;
  let '(h, s) := r in
  let s := _validateKeybindings s in
  let s := _validateColorSchemesInCommands s in
  Returned (h, s).
End Validation.

(** ** Slots: the settings the validation passes inspect and clear *)

(** Each check of the validation passes reads one setting of one object
    through its getter and clears the explicitly set value when the value is
    bad.  A slot names such a setting: a setting of an appearance, or a
    setting of the profile itself. *)
Inductive Slot :=
  | AppearanceSlot (appearance : AppearanceRef) (k : string)
  | ProfileSlot (profile : addr) (k : string).

Section Slots.
Context `{Env}.

(** The explicitly set value. *)
Definition slot_own (h : heap) (sl : Slot) : option string :=
  match sl with
  | AppearanceSlot (DefaultOf a) k => h !! a ≫= λ p, DefaultAppearance p !! k
  | AppearanceSlot (UnfocusedOf b) k =>
      h !! b ≫= λ p, UnfocusedAppearance p ≫= λ u, u !! k
  | ProfileSlot a k => h !! a ≫= λ p, settings p !! k
  end.

Definition slot_get (h : heap) (sl : Slot) : string :=
  match sl with
  | AppearanceSlot appearance k => appearance_get k h appearance
  | ProfileSlot a k => get_setting OfProfile k h a
  end.

Definition slot_clear (sl : Slot) (h : heap) : heap :=
  match sl with
  | AppearanceSlot appearance k => appearance_clear k appearance h
  | ProfileSlot a k => clear_setting OfProfile k a h
  end.

(** A check: the slot and the test that makes the pass clear it. *)
Definition apply_check (h : heap) (c : Slot * (string → bool)) : heap :=
  if c.2 (slot_get h c.1) then slot_clear c.1 h else h.

Definition run_checks (cs : list (Slot * (string → bool))) (h : heap) : heap :=
  foldl apply_check h cs.

(** The explicitly set value of the slot, if any, passes the test. *)
Definition settled (h : heap) (c : Slot * (string → bool)) : Prop :=
  ∀ v, slot_own h c.1 = Some v → c.2 v = false.

(** What the passes never change: the parent edges, and which objects define
    an unfocused appearance. *)
Definition skeleton (p : Profile) : list addr * bool :=
  (parents p, bool_decide (is_Some (UnfocusedAppearance p))).

Definition same_skeleton (h h' : heap) : Prop :=
  ∀ a, skeleton <$> h !! a = skeleton <$> h' !! a.

(** [h'] is [h] with some explicitly set values cleared. *)
Definition cleared (h h' : heap) : Prop :=
  same_skeleton h h'
  ∧ ∀ sl, slot_own h' sl = None ∨ slot_own h' sl = slot_own h sl.

(** The appearances of a profile, in the order the passes visit them. *)
Definition appearances_of (h : heap) (profile : addr) : list AppearanceRef :=
  DefaultOf profile :: option_list (UnfocusedAppearance_ref h profile).

Definition invalid_scheme (colorSchemes : gset string) (h : heap)
    (appearance : AppearanceRef) : bool :=
  negb (HasKey colorSchemes (ColorSchemeName h appearance)).

Definition bad_scheme (colorSchemes : gset string) (name : string) : bool :=
  negb (HasKey colorSchemes name).

Definition scheme_checks (colorSchemes : gset string) (h : heap) (profile : addr)
    : list (Slot * (string → bool)) :=
  (λ appearance, (AppearanceSlot appearance "ColorSchemeName", bad_scheme colorSchemes))
    <$> appearances_of h profile.

Definition expanded (x : string) : string :=
  match ExpandEnvironmentStringsW x with
  | Returned y => y
  | Thrown _ => ""
  end.

Definition bad_background (path : string) : bool :=
  let path := if bool_decide (path = "") then path else expanded path in
  bool_decide (path ≠ "") && negb (Uri_parses path).

Definition bad_icon (icon : string) : bool :=
  bool_decide (2 < String.length icon) && negb (Uri_parses (expanded icon)).

Definition media_checks (h : heap) (profile : addr) : list (Slot * (string → bool)) :=
  ((λ appearance, (AppearanceSlot appearance "BackgroundImagePath", bad_background))
     <$> appearances_of h profile)
  ++ [(ProfileSlot profile "Icon", bad_icon)].

(** The warnings the two passes over the global settings append. *)
Definition keybinding_block (g : GlobalAppSettings) : list SettingsLoadWarnings :=
  match KeybindingsWarnings g with
  | [] => []
  | ws => AtLeastOneKeybindingWarning :: ws
  end.

Definition command_block (g : GlobalAppSettings) : list SettingsLoadWarnings :=
  if existsb (λ nameAndCmd, _hasInvalidColorScheme (ColorSchemes g) nameAndCmd.2)
       (NameMap g)
  then [InvalidColorSchemeInCmd] else [].

(** The warnings a run of the passes over the profiles appends. *)
Definition profile_block (unknownScheme invalidBackground invalidIcon : bool)
    : list SettingsLoadWarnings :=
  (if unknownScheme then [UnknownColorScheme] else [])
  ++ (if invalidBackground then [InvalidBackgroundImage] else [])
  ++ (if invalidIcon then [InvalidIcon] else []).
End Slots.

(** ** What the media pass finds wrong *)

Section MediaDefs.
Context `{Env}.

(** The tests of the media pass, on what the getters return. *)
Definition invalid_background (h : heap) (appearance : AppearanceRef) : bool :=
  bad_background (BackgroundImagePath h appearance).

Definition invalid_icon (h : heap) (profile : addr) : bool :=
  bad_icon (Icon h profile).

Definition invalid_backgrounds (h : heap) (l : list addr) : bool :=
  existsb (λ profile, existsb (invalid_background h) (appearances_of h profile)) l.
End MediaDefs.

(** The profile keeps its explicitly set icon. *)
Definition keeps_icon (profile : addr) (icon : string) (h : heap) : Prop :=
  slot_own h (ProfileSlot profile "Icon") = Some icon.

(** ** What the resolution reads of a profile *)

Section Identity.
Context `{Env}.

(** The two stores give every profile the same GUID, name and command
    line. *)
Definition same_identity (h h' : heap) : Prop :=
  ∀ a, Guid h' a = Guid h a ∧ Name h' a = Name h a ∧ Commandline h' a = Commandline h a.
End Identity.

(** ** Commands that name a color scheme *)

(** A command that is no group and sets a color scheme the settings do not
    have, outside an iteration over the schemes; or a group with such a command
    somewhere below it. *)
Inductive invalid_scheme_command (colorSchemes : gset string) : Command → Prop :=
  | invalid_scheme_here schemeName iterateOn :
      iterateOn ≠ ExpandCommandType.ColorSchemes →
      schemeName ∉ colorSchemes →
      invalid_scheme_command colorSchemes
        (mkCommand [] (Some (SetColorSchemeArgs schemeName)) iterateOn)
  | invalid_scheme_below nested actionAndArgs iterateOn name command :
      (name, command) ∈ nested →
      invalid_scheme_command colorSchemes command →
      invalid_scheme_command colorSchemes (mkCommand nested actionAndArgs iterateOn).

(** ** Color schemes of profiles *)

Global Instance AppearanceRef_eq_dec : EqDecision AppearanceRef.
Proof. solve_decision. Defined.

Global Instance Slot_eq_dec : EqDecision Slot.
Proof. solve_decision. Defined.

Section ColorSchemes.
Context `{Env}.

(** [Has##name()] and the setter [name(value)] of an appearance. *)
Definition appearance_has (k : string) (h : heap) (appearance : AppearanceRef) : bool :=
  match appearance with
  | DefaultOf profile => has_setting OfAppearance k h profile
  | UnfocusedOf owner =>
      match h !! owner with
      | Some p =>
          match UnfocusedAppearance p with
          | Some u => bool_decide (is_Some (u !! k))
          | None => false
          end
      | None => false
      end
  end.

Definition appearance_set (k v : string) (appearance : AppearanceRef) (h : heap) : heap :=
  match appearance with
  | DefaultOf profile => set_setting OfAppearance k v profile h
  | UnfocusedOf owner =>
      alter (λ p, with_unfocused (<[k := v]> <$> UnfocusedAppearance p) p) owner h
  end.

Definition HasColorSchemeName := appearance_has "ColorSchemeName".
Definition SetColorSchemeName := appearance_set "ColorSchemeName".

(** [_globals->ColorSchemes().TryLookup(schemeName)]; a scheme is known by
    its name. *)
Definition TryLookup (colorSchemes : gset string) (schemeName : string) : option string :=
  if HasKey colorSchemes schemeName then Some schemeName else None.

Definition GetColorSchemeForProfile (h : heap) (s : CascadiaSettings)
    (profile : option addr) : option string :=
  match profile with
  | None => None
  | Some profile =>
      let schemeName := ColorSchemeName h (DefaultOf profile) in
      TryLookup (ColorSchemes (_globals s)) schemeName
  end.

(** One reference: the name is replaced where it is set explicitly and is
    the old name. *)
Definition update_reference (oldName newName : string) (h : heap)
    (appearance : AppearanceRef) : heap :=
  if HasColorSchemeName h appearance
     && bool_decide (ColorSchemeName h appearance = oldName)
  then SetColorSchemeName newName appearance h
  else h.

(** The base layer is an object of the store here, so the test that it is
    not null has no counterpart. *)
Definition UpdateColorSchemeReferences (h : heap) (s : CascadiaSettings)
    (oldName newName : string) : heap :=
  let h := update_reference oldName newName h (DefaultOf (_baseLayerProfile s)) in
  foldl (λ h profile,
           let h := update_reference oldName newName h (DefaultOf profile) in
           match UnfocusedAppearance_ref h profile with
           | Some unfocused => update_reference oldName newName h unfocused
           | None => h
           end)
    h (_allProfiles s).

(** The appearances [UpdateColorSchemeReferences] visits, and the setting it
    looks at in each. *)
Definition referencing_appearances (h : heap) (s : CascadiaSettings) : list AppearanceRef :=
  DefaultOf (_baseLayerProfile s) :: (_allProfiles s ≫= appearances_of h).

Definition scheme_slots (l : list AppearanceRef) : list Slot :=
  (λ appearance, AppearanceSlot appearance "ColorSchemeName") <$> l.
End ColorSchemes.

(** What a change of color scheme names leaves alone in an object. *)
Definition outside_appearances (p : Profile)
    : OriginTag * option guid * option string * option bool
      * gmap string string * gmap string string * list addr * bool :=
  (Origin p, _Guid p, _Name p, _Hidden p, settings p, FontInfo p, parents p,
   bool_decide (is_Some (UnfocusedAppearance p))).

Definition same_outside_appearances (h h' : heap) : Prop :=
  ∀ a, outside_appearances <$> h !! a = outside_appearances <$> h' !! a.

(** ** Opening a terminal from the new tab menu *)

(** The keys [_OpenNewTerminal] asks the window about: whether each is
    down. *)
Record KeyStates := mkKeyStates {
  LeftMenu : bool;
  RightMenu : bool;
  Shift : bool;
  LeftShift : bool;
  RightShift : bool
}.

(** What [_OpenNewTerminal] goes on to call, and with which arguments. *)
Inductive Opened :=
  | _SplitPane (newTerminalArgs : NewTerminalArgs.t)
  | _OpenNewWindow (newTerminalArgs : NewTerminalArgs.t)
  | _OpenNewTab (newTerminalArgs : NewTerminalArgs.t).

Section OpenNewTerminal.
Context `{Env}.
Variable GuidToString : guid → string.

(** [newTerminalArgs.Profile(value)] *)
Definition set_Profile (value : string) (newTerminalArgs : NewTerminalArgs.t)
    : NewTerminalArgs.t :=
  NewTerminalArgs.mk value (NewTerminalArgs.ProfileIndex newTerminalArgs)
    (NewTerminalArgs.Commandline newTerminalArgs).

Definition _OpenNewTerminal (h : heap) (s : CascadiaSettings) (keys : KeyStates)
    (DebugFeaturesEnabled : bool) (newTerminalArgs : NewTerminalArgs.t)
    : outcome Opened * CascadiaSettings :=
  let rAltState := RightMenu keys in
  let lAltState := LeftMenu keys in
  let altPressed := lAltState || rAltState in
  let shiftPressed := Shift keys || LeftShift keys || RightShift keys in
  let debugTap := DebugFeaturesEnabled && lAltState && rAltState in
  if altPressed && negb debugTap then (Returned (_SplitPane newTerminalArgs), s)
  else if shiftPressed && negb debugTap then
    match NewTerminalArgs.ProfileIndex newTerminalArgs with
    | Some _ =>
        match GetProfileForArgs h s (Some newTerminalArgs) with
        | (Thrown e, s) => (Thrown e, s)
        | (Returned (Some profile), s) =>
            (Returned (_OpenNewWindow
                         (set_Profile (GuidToString (Guid h profile)) newTerminalArgs)), s)
        | (Returned None, s) => (Returned (_OpenNewWindow newTerminalArgs), s)
        end
    | None => (Returned (_OpenNewWindow newTerminalArgs), s)
    end
  else (Returned (_OpenNewTab newTerminalArgs), s).
End OpenNewTerminal.

(** ** A copy and its original *)

(** What a lookup on the copy returns when the lookup on the original returns
    [r]: the clone of the profile, as the map [visited] gives it. *)
Definition clone_of (visited : gmap positive positive) (r : outcome (option addr))
    : outcome (option addr) :=
  match r with
  | Returned (Some profile) => Returned (visited !! profile)
  | Returned None => Returned None
  | Thrown e => Thrown e
  end.

(** Cache entries of a copy: the same command line, for the clone. *)
Definition cloned_entry (visited : gmap positive positive) (e e' : string * addr) : Prop :=
  e'.1 = e.1 ∧ visited !! e.2 = Some e'.2.

Section CacheReady.
Context `{Env}.

(** The command line cache has not been built, or it is the one that the
    profiles as they are give. *)
Definition cache_ready (h : heap) (s : CascadiaSettings) : Prop :=
  (_commandLinesCacheOnce s = false ∧ _commandLinesCache s = [])
  ∨ (_commandLinesCacheOnce s = true
     ∧ ∃ cache, fill_cache h (_allProfiles s) [] = (cache, None)
                ∧ _commandLinesCache s = stable_sort cache).
End CacheReady.

(** [r'] is [r] for the copy, and a profile that [r] holds has a clone. *)
Definition cloned_result (visited : gmap positive positive)
    (r r' : outcome (option addr)) : Prop :=
  r' = clone_of visited r ∧ ∀ a, r = Returned (Some a) → is_Some (visited !! a).

(** ** A concrete environment and concrete settings objects *)

(** A tokenizer in the manner of [CommandLineToArgvW] for command lines
    without quotes: arguments are separated by single spaces. *)
Fixpoint split_on_space (s : string) (cur : string) : list string :=
  match s with
  | EmptyString => [cur]
  | String c s =>
      if Ascii.eqb c " "%char then cur :: split_on_space s ""
      else split_on_space s (cur +:+ String c "")
  end.

Definition example_guid_string : string := "{00000000-0000-0000-0000-000000000001}".

(** Every executable is found as given, nothing fails, and one GUID string is
    known. *)
Definition example_env : Env := {|
  ExpandEnvironmentStringsW := Returned;
  CommandLineToArgvW := λ s, split_on_space s "";
  SearchPathW := λ file _, (S_OK, file);
  canonical := Returned;
  Uri_parses := λ s, negb (String.prefix "::" s);
  GuidFromString := λ s,
    if bool_decide (s = example_guid_string) then Returned 1%N
    else Thrown hresult_error;
  CopySuffix := "Copy";
  Feature_ShowProfileDefaultsInSettings := true;
  Guid_default := 0%N;
  Name_default := "Default";
  Hidden_default := false;
  setting_default := λ _ k,
    if bool_decide (k = "ColorSchemeName") then "Campbell" else ""
|}.

Definition example_profile (origin : OriginTag) (g : guid) (name : string)
    (hidden : option bool) (own : list (string * string))
    (appearance : list (string * string)) (ps : list addr) : Profile :=
  {| Origin := origin; _Guid := Some g; _Name := Some name; _Hidden := hidden;
     settings := list_to_map own; FontInfo := ∅;
     DefaultAppearance := list_to_map appearance;
     UnfocusedAppearance := None; parents := ps |}.

(** The base layer at address 1 and three profiles on top of it; the third is
    hidden and carries a GUID string as its name. *)
Definition example_heap : heap :=
  list_to_map
    [ (1%positive, example_profile ProfilesDefaults 100 "Defaults" None [] [] []);
      (2%positive, example_profile User 1 "cmd" None [("Commandline", "a.exe")] [] [1%positive]);
      (3%positive, example_profile User 2 "ax" None [("Commandline", "a.exe -x")] [] [1%positive]);
      (4%positive, example_profile User 3 example_guid_string (Some true) [] [] [1%positive]) ].

Definition example_globals : GlobalAppSettings :=
  {| DefaultProfile := 2%N; ColorSchemes := {["Campbell"]};
     KeybindingsWarnings := []; NameMap := [] |}.

Definition example_settings : CascadiaSettings :=
  {| _globals := example_globals;
     _baseLayerProfile := 1%positive;
     _allProfiles := [2; 3; 4]%positive;
     _activeProfiles := [2; 3]%positive;
     _warnings := []; _loadError := None;
     _deserializationErrorMessage := "";
     _currentDefaultTerminal := None;
     _commandLinesCacheOnce := false;
     _commandLinesCache := [] |}.

(** A store whose base layer is hidden: the base layer at address 1 and one
    visible profile. *)
Definition hidden_base_heap : heap :=
  list_to_map
    [ (1%positive, example_profile ProfilesDefaults 100 "Defaults" (Some true) [] [] []);
      (2%positive, example_profile User 1 "cmd" (Some false) [("Commandline", "a.exe")] []
                     [1%positive]) ].

(** One profile on the base layer, cache not built. *)
Definition one_profile_settings : CascadiaSettings :=
  {| _globals := example_globals;
     _baseLayerProfile := 1%positive;
     _allProfiles := [2%positive];
     _activeProfiles := [2%positive];
     _warnings := []; _loadError := None;
     _deserializationErrorMessage := "";
     _currentDefaultTerminal := None;
     _commandLinesCacheOnce := false;
     _commandLinesCache := [] |}.

(** A store whose base layer declares the command line "b.exe", which every
    profile created from it inherits. *)
Definition inherited_commandline_heap : heap :=
  list_to_map
    [ (1%positive, example_profile ProfilesDefaults 100 "Defaults" None
                     [("Commandline", "b.exe")] [] []);
      (2%positive, example_profile User 1 "cmd" None [("Commandline", "a.exe")] []
                     [1%positive]) ].

(** A first resolution on that store builds the cache; [CreateNewProfile]
    then adds a profile. *)
Definition stale_after_resolution : CascadiaSettings :=
  (@_getProfileForCommandLine example_env inherited_commandline_heap
     one_profile_settings "zzz").2.

Definition stale_after_creation : heap * CascadiaSettings * option addr :=
  @CreateNewProfile example_env inherited_commandline_heap stale_after_resolution 77%N.

(** A settings object with two keybinding warnings. *)
Definition keybinding_settings : CascadiaSettings :=
  {| _globals :=
       {| DefaultProfile := 2%N; ColorSchemes := {["Campbell"]};
          KeybindingsWarnings := [OtherWarning 1; OtherWarning 2]; NameMap := [] |};
     _baseLayerProfile := 1%positive;
     _allProfiles := [2; 3; 4]%positive;
     _activeProfiles := [2; 3]%positive;
     _warnings := []; _loadError := None;
     _deserializationErrorMessage := "";
     _currentDefaultTerminal := None;
     _commandLinesCacheOnce := false;
     _commandLinesCache := [] |}.

Definition warnings_of (o : outcome (heap * CascadiaSettings))
    : list SettingsLoadWarnings :=
  match o with
  | Returned (_, s) => _warnings s
  | Thrown _ => []
  end.

Definition validate_again `{Env} (o : outcome (heap * CascadiaSettings))
    : outcome (heap * CascadiaSettings) :=
  r <-! o; _validateSettings r.1 r.2.

(** Two profiles whose default appearance names the scheme "Foo", the second
    with an unfocused appearance that names "Bar"; neither scheme exists. *)
Definition unknown_scheme_heap : heap :=
  list_to_map
    [ (1%positive, example_profile ProfilesDefaults 100 "Defaults" None [] [] []);
      (2%positive, example_profile User 1 "one" None [] [("ColorSchemeName", "Foo")]
                     [1%positive]);
      (3%positive, with_unfocused (Some {["ColorSchemeName" := "Bar"]})
                     (example_profile User 2 "two" None []
                        [("ColorSchemeName", "Foo")] [1%positive])) ].

(** The base layer has rank 0, every other profile rank 1. *)
Definition example_rank (a : addr) : nat := if decide (a = 1%positive) then 0 else 1.

Definition example_request (name : string) (index : option Z) (commandLine : string)
    : option NewTerminalArgs.t :=
  Some (NewTerminalArgs.mk name index commandLine).

(** An environment in which expanding the command line "a.exe -x" fails, and
    one in which no file "C:/Program" is found. *)
Definition failing_env : Env := {|
  ExpandEnvironmentStringsW := λ s,
    if bool_decide (s = "a.exe -x") then Thrown hresult_error else Returned s;
  CommandLineToArgvW := λ s, split_on_space s "";
  SearchPathW := λ file _, (S_OK, file);
  canonical := Returned;
  Uri_parses := λ s, negb (String.prefix "::" s);
  GuidFromString := λ s,
    if bool_decide (s = example_guid_string) then Returned 1%N
    else Thrown hresult_error;
  CopySuffix := "Copy";
  Feature_ShowProfileDefaultsInSettings := true;
  Guid_default := 0%N;
  Name_default := "Default";
  Hidden_default := false;
  setting_default := λ _ k,
    if bool_decide (k = "ColorSchemeName") then "Campbell" else ""
|}.

Definition spaces_env : Env := {|
  ExpandEnvironmentStringsW := Returned;
  CommandLineToArgvW := λ s, split_on_space s "";
  SearchPathW := λ file out,
    if bool_decide (file = "C:/Program") then (ERROR_FILE_NOT_FOUND, out)
    else (S_OK, file);
  canonical := Returned;
  Uri_parses := λ s, negb (String.prefix "::" s);
  GuidFromString := λ s,
    if bool_decide (s = example_guid_string) then Returned 1%N
    else Thrown hresult_error;
  CopySuffix := "Copy";
  Feature_ShowProfileDefaultsInSettings := true;
  Guid_default := 0%N;
  Name_default := "Default";
  Hidden_default := false;
  setting_default := λ _ k,
    if bool_decide (k = "ColorSchemeName") then "Campbell" else ""
|}.

Definition failed_once : CascadiaSettings :=
  (@_getProfileForCommandLine failing_env example_heap example_settings "a.exe").2.


(** A profile whose icon and background image are no resource locators, and
    one whose icon is a symbol. *)
Definition bad_media_heap : heap :=
  list_to_map
    [ (1%positive, example_profile ProfilesDefaults 100 "Defaults" None [] [] []);
      (2%positive, example_profile User 1 "one" None [("Icon", "::icon")]
                     [("BackgroundImagePath", "::image")] [1%positive]);
      (3%positive, example_profile User 2 "two" None [("Icon", "ab")] [] [1%positive]) ].

(** A profile whose icon cannot be expanded in [failing_env]. *)
Definition failing_icon_heap : heap :=
  list_to_map
    [ (1%positive, example_profile ProfilesDefaults 100 "Defaults" None [] [] []);
      (2%positive, example_profile User 1 "cmd" None [("Icon", "a.exe -x")] []
                     [1%positive]) ].

Definition two_profile_settings : CascadiaSettings :=
  with_profiles [2; 3]%positive [2; 3]%positive example_settings.

(** What the validation makes of [bad_media_heap]. *)
Definition validated_bad_media : heap * CascadiaSettings :=
  match @_validateSettings example_env bad_media_heap two_profile_settings with
  | Returned r => r
  | Thrown _ => (bad_media_heap, two_profile_settings)
  end.

(** The base layer names the scheme "Foo", which does not exist; the profile
    on top of it names none. *)
Definition inherited_scheme_heap : heap :=
  list_to_map
    [ (1%positive, example_profile ProfilesDefaults 100 "Defaults" None []
                     [("ColorSchemeName", "Foo")] []);
      (2%positive, example_profile User 1 "cmd" None [] [] [1%positive]) ].

(** A store whose base layer declares the command line "a.exe -x", which is
    longer than the "a.exe" of its one profile and which every profile created
    from the base layer inherits. *)
Definition longer_commandline_heap : heap :=
  list_to_map
    [ (1%positive, example_profile ProfilesDefaults 100 "Defaults" None
                     [("Commandline", "a.exe -x")] [] []);
      (2%positive, example_profile User 1 "cmd" None [("Commandline", "a.exe")] []
                     [1%positive]) ].

(** A first resolution on that store builds the cache; [CreateNewProfile]
    then adds a profile. *)
Definition shorter_after_resolution : CascadiaSettings :=
  (@_getProfileForCommandLine example_env longer_commandline_heap
     one_profile_settings "zzz").2.

Definition shorter_after_creation : heap * CascadiaSettings * option addr :=
  @CreateNewProfile example_env longer_commandline_heap shorter_after_resolution 77%N.

(** * Properties *)

(** ** Resolution by name, index and default *)

Section ResolutionFacts.
Context `{Env}.

Lemma find_elem_of {A} (f : A → bool) (l : list A) (x : A) :
  List.find f l = Some x → x ∈ l ∧ f x = true.
Proof.
  intros Hf. apply find_some in Hf as [Hin Hfx].
  split; [by apply list_elem_of_In | done].
Qed.

Lemma find_exists {A} (f : A → bool) (l : list A) (y : A) :
  y ∈ l → f y = true → ∃ x, List.find f l = Some x.
Proof.
  intros Hin Hfy. destruct (List.find f l) as [x|] eqn:E; [by eexists |].
  apply list_elem_of_In in Hin.
  pose proof (find_none f l E y Hin) as Hn. congruence.
Qed.

Lemma FindProfile_Some h s g p :
  FindProfile h s g = Some p → p ∈ _allProfiles s ∧ Guid h p = g.
Proof.
  intros [Hin Hg]%find_elem_of. split; [done |].
  by apply bool_decide_eq_true in Hg.
Qed.

Lemma FindProfile_None h s g :
  FindProfile h s g = None → ∀ q, q ∈ _allProfiles s → Guid h q ≠ g.
Proof.
  intros Hf q Hin%list_elem_of_In Hg.
  pose proof (find_none _ _ Hf q Hin) as Hn. simpl in Hn.
  apply bool_decide_eq_false in Hn. done.
Qed.

Lemma FindProfile_with_cache h s once c g :
  FindProfile h (with_cache once c s) g = FindProfile h s g.
Proof. reflexivity. Qed.

Lemma build_cache_once_shape h s s' e :
  build_cache_once h s = (s', e) → ∃ once c, s' = with_cache once c s.
Proof.
  unfold build_cache_once. destruct s as [g b al ac w le m t once c]; simpl.
  destruct once.
  - intros [= <- <-]. by exists true, c.
  - destruct (fill_cache h al c) as [cache [e'|]]; intros [= <- <-]; eauto.
Qed.

Lemma _getProfileForCommandLine_shape h s commandLine r s' :
  _getProfileForCommandLine h s commandLine = (r, s') →
  ∃ once c, s' = with_cache once c s.
Proof.
  unfold _getProfileForCommandLine.
  destruct (build_cache_once h s) as [s1 [e|]] eqn:E; intros [= <- <-];
    by eapply build_cache_once_shape.
Qed.

Lemma by_commandline_shape h s args r s' :
  by_commandline h s args = (r, s') → ∃ once c, s' = with_cache once c s.
Proof.
  unfold by_commandline. case_bool_decide.
  - apply _getProfileForCommandLine_shape.
  - intros [= <- <-]. destruct s. by eexists _, _.
Qed.

Lemma default_branch_with_cache h s once c args :
  default_branch h (with_cache once c s) args = default_branch h s args.
Proof. reflexivity. Qed.

Lemma GetProfileByIndex_out_of_range s (index : N) :
  (Size (_activeProfiles s) ≤ index)%N → GetProfileByIndex s index = None.
Proof.
  intros Hle. unfold GetProfileByIndex. case_bool_decide; [lia | done].
Qed.

(** An exception of the command line branch comes from normalising a command
    line, that of a profile or that of the request. *)
Lemma fill_cache_throws h profiles cache cache' e :
  fill_cache h profiles cache = (cache', Some e) →
  ∃ c, _normalizeCommandLine c = Thrown e.
Proof.
  revert cache. induction profiles as [|profile profiles IH]; intros cache; simpl.
  - intros [=].
  - case_bool_decide; [| by apply IH].
    destruct (_normalizeCommandLine (Commandline h profile)) as [n|e'] eqn:E.
    + apply IH.
    + intros [= <- <-]. by eexists.
Qed.

Lemma _getProfileForCommandLine_throws h s commandLine e s' :
  _getProfileForCommandLine h s commandLine = (Thrown e, s') →
  ∃ c, _normalizeCommandLine c = Thrown e.
Proof.
  unfold _getProfileForCommandLine, build_cache_once.
  destruct (_commandLinesCacheOnce s).
  - destruct (_normalizeCommandLine commandLine) eqn:E; simpl; intros [= <- <-].
    by eexists.
  - destruct (fill_cache h (_allProfiles s) (_commandLinesCache s))
      as [cache [e'|]] eqn:E.
    + intros [= <- <-]. by eapply fill_cache_throws.
    + destruct (_normalizeCommandLine commandLine) eqn:E'; simpl; intros [= <- <-].
      by eexists.
Qed.

Lemma GetProfileByName_throws h s name e :
  GetProfileByName h s name = Thrown e → GuidFromString name = Thrown e.
Proof.
  unfold GetProfileByName. case_bool_decide; [| done].
  destruct (_ && _); simpl; [| by destruct (List.find _ _)].
  destruct (GuidFromString name) as [g|e']; simpl; [| congruence].
  destruct (FindProfile h s g); [done |]. by destruct (List.find _ _).
Qed.
End ResolutionFacts.

Section ResolutionClaims.
Context `{Env}.

(** C10.  A name that is 38 characters long, starts with an opening brace and
    parses as the GUID of some profile resolves to the first profile with that
    GUID, whatever the profiles are named; only when no profile has that GUID
    is the string compared with the profile names, in list order. *)
Theorem GetProfileByName_guid_before_name (h : heap) (s : CascadiaSettings)
    (name : string) (g : guid) :
  String.length name = 38 →
  String.get 0 name = Some "{"%char →
  GuidFromString name = Returned g →
  (∀ q, q ∈ _allProfiles s → Guid h q = g →
     ∃ p, GetProfileByName h s name = Returned (Some p)
          ∧ FindProfile h s g = Some p ∧ p ∈ _allProfiles s ∧ Guid h p = g)
  ∧ ((∀ q, q ∈ _allProfiles s → Guid h q ≠ g) →
     GetProfileByName h s name
     = Returned (List.find (λ profile, bool_decide (Name h profile = name))
                   (_allProfiles s))).
Proof.
  intros Hlen Hbrace Hguid.
  assert (Hne : name ≠ "") by (intros ->; discriminate).
  unfold GetProfileByName.
  rewrite (bool_decide_eq_true_2 _ Hne), (bool_decide_eq_true_2 _ Hlen),
    (bool_decide_eq_true_2 _ Hbrace), Hguid. simpl.
  split.
  - intros q Hq Hgq.
    destruct (find_exists (λ profile, bool_decide (Guid h profile = g))
                (_allProfiles s) q Hq) as [p Hp].
    { by apply bool_decide_eq_true. }
    exists p. unfold FindProfile at 1. rewrite Hp.
    split; [done |]. split; [done |]. by apply FindProfile_Some.
  - intros Hnone.
    destruct (FindProfile h s g) as [p|] eqn:E; [| done].
    apply FindProfile_Some in E as [Hin Hg]. by destruct (Hnone p Hin).
Qed.

(** C2, as amended.  A request whose non-empty profile name is found by the
    name lookup resolves to that profile whatever index and command line it
    carries; and the name lookup finds the first profile in list order with
    exactly that name whenever the string is not a 38 character brace string
    that parses to the GUID of a profile. *)
Theorem GetProfileForArgs_name_wins (h : heap) (s : CascadiaSettings)
    (args : NewTerminalArgs.t) (p : addr) :
  NewTerminalArgs.Profile args ≠ "" →
  List.find (λ profile, bool_decide (Name h profile = NewTerminalArgs.Profile args))
    (_allProfiles s) = Some p →
  (String.length (NewTerminalArgs.Profile args) ≠ 38
   ∨ String.get 0 (NewTerminalArgs.Profile args) ≠ Some "{"%char
   ∨ ∃ g, GuidFromString (NewTerminalArgs.Profile args) = Returned g
          ∧ FindProfile h s g = None) →
  GetProfileByName h s (NewTerminalArgs.Profile args) = Returned (Some p)
  ∧ GetProfileForArgs h s (Some args) = (Returned (Some p), s).
Proof.
  intros Hne Hfind Hguid.
  assert (Hname : GetProfileByName h s (NewTerminalArgs.Profile args)
                  = Returned (Some p)).
  { unfold GetProfileByName. rewrite (bool_decide_eq_true_2 _ Hne).
    destruct Hguid as [Hlen | [Hbrace | (g & Hg & Hnone)]].
    - rewrite (bool_decide_eq_false_2 _ Hlen). simpl. by rewrite Hfind.
    - rewrite (bool_decide_eq_false_2 _ Hbrace), andb_false_r. simpl.
      by rewrite Hfind.
    - destruct (_ && _); simpl; [| by rewrite Hfind].
      rewrite Hg. simpl. rewrite Hnone. by rewrite Hfind. }
  split; [done |].
  unfold GetProfileForArgs, by_name.
  by rewrite (bool_decide_eq_true_2 _ Hne), Hname.
Qed.

(** C3, as amended.  With the feature enabled and no match by name, index or
    command line: a request without a command line resolves to the profile
    whose GUID is the global default profile, and a request with a non-empty,
    unmatched command line resolves to the base layer profile. *)
Theorem GetProfileForArgs_defaults_branch (h : heap) (s s' : CascadiaSettings)
    (args : NewTerminalArgs.t) :
  Feature_ShowProfileDefaultsInSettings = true →
  by_name h s args = Returned None →
  by_index s args = Returned None →
  by_commandline h s args = (Returned None, s') →
  (NewTerminalArgs.Commandline args = "" →
     GetProfileForArgs h s (Some args)
     = (Returned (FindProfile h s (DefaultProfile (_globals s))), s'))
  ∧ (NewTerminalArgs.Commandline args ≠ "" →
     GetProfileForArgs h s (Some args) = (Returned (Some (ProfileDefaults s)), s')).
Proof.
  intros Hfeat Hname Hidx Hcmd.
  destruct (by_commandline_shape _ _ _ _ _ Hcmd) as (once & c & ->).
  unfold GetProfileForArgs. rewrite Hname, Hidx, Hcmd.
  rewrite default_branch_with_cache. unfold default_branch. rewrite Hfeat.
  split; intros Hc.
  - by rewrite (bool_decide_eq_true_2 _ Hc).
  - by rewrite (bool_decide_eq_false_2 _ Hc).
Qed.

(** C4, as amended.  Against a settings object whose default profile GUID
    names a profile, resolution never yields "not found": it returns a profile
    unless it throws, and it throws only when the index of the request does
    not fit an unsigned 32-bit number (a negative index), when parsing the
    name as a GUID fails, or when normalising a command line fails.  An index
    that is out of range of the active profiles gives no index match, and a
    request carrying nothing else then resolves as a request without a
    match. *)
Theorem GetProfileForArgs_never_not_found (h : heap) (s : CascadiaSettings)
    (d : addr) (newTerminalArgs : option NewTerminalArgs.t) :
  FindProfile h s (DefaultProfile (_globals s)) = Some d →
  match (GetProfileForArgs h s newTerminalArgs).1 with
  | Returned r => is_Some r
  | Thrown e =>
      ∃ args, newTerminalArgs = Some args
        ∧ ((∃ i, NewTerminalArgs.ProfileIndex args = Some i
                 ∧ ¬ (0 ≤ i < 4294967296)%Z ∧ e = narrowing_error)
           ∨ GuidFromString (NewTerminalArgs.Profile args) = Thrown e
           ∨ ∃ c, _normalizeCommandLine c = Thrown e)
  end
  ∧ (∀ i : N, (Size (_activeProfiles s) ≤ i)%N → GetProfileByIndex s i = None)
  ∧ (∀ i : Z, (Z.of_N (Size (_activeProfiles s)) ≤ i < 4294967296)%Z →
       GetProfileForArgs h s (Some (NewTerminalArgs.mk "" (Some i) ""))
       = (Returned (Some d), s)).
Proof.
  intros Hd.
  assert (Hdef : ∀ s1 a, (∃ once c, s1 = with_cache once c s) →
                         is_Some (default_branch h s1 a)).
  { intros s1 a (once & c & ->). rewrite default_branch_with_cache.
    unfold default_branch.
    destruct Feature_ShowProfileDefaultsInSettings; [| by rewrite Hd].
    destruct (match a with Some _ => _ | None => _ end); by rewrite ?Hd. }
  split; [| split].
  - destruct newTerminalArgs as [args|]; simpl.
    2:{ apply Hdef. destruct s. by eexists _, _. }
    destruct (by_name h s args) as [[p|]|e] eqn:En; simpl; [done | |].
    2:{ exists args. split; [done |]. right; left.
        unfold by_name in En. case_bool_decide; [| done].
        by apply GetProfileByName_throws in En. }
    destruct (by_index s args) as [[p|]|e] eqn:Ei; simpl; [done | |].
    2:{ exists args. split; [done |]. left.
        unfold by_index in Ei.
        destruct (NewTerminalArgs.ProfileIndex args) as [i|]; [| done].
        exists i. split; [done |]. unfold narrow_uint32 in Ei.
        case_bool_decide; simpl in Ei; [done |]. split; [done | congruence]. }
    destruct (by_commandline h s args) as [[[p|]|e] s1] eqn:Ec; simpl; [done | |].
    + apply Hdef. by eapply by_commandline_shape.
    + exists args. split; [done |]. right; right.
      unfold by_commandline in Ec. case_bool_decide; [| done].
      by eapply _getProfileForCommandLine_throws.
  - apply GetProfileByIndex_out_of_range.
  - intros i Hi. unfold GetProfileForArgs, by_name, by_index, by_commandline; simpl.
    unfold narrow_uint32. rewrite bool_decide_eq_true_2 by lia. simpl.
    rewrite GetProfileByIndex_out_of_range by lia.
    unfold default_branch; simpl.
    by destruct Feature_ShowProfileDefaultsInSettings; rewrite Hd.
Qed.
End ResolutionClaims.

(** *** The resolution claims on the concrete settings object *)

Lemma GetProfileByName_guid_before_name_witness :
  String.length example_guid_string = 38
  ∧ String.get 0 example_guid_string = Some "{"%char
  ∧ @GuidFromString example_env example_guid_string = Returned 1%N
  ∧ ∃ p, @GetProfileByName example_env example_heap example_settings
           example_guid_string = Returned (Some p)
         ∧ @FindProfile example_env example_heap example_settings 1%N = Some p
         ∧ p ∈ _allProfiles example_settings
         ∧ @Guid example_env example_heap p = 1%N.
Proof.
  split; [reflexivity |]. split; [reflexivity |]. split; [reflexivity |].
  apply (proj1 (@GetProfileByName_guid_before_name example_env example_heap
                  example_settings example_guid_string 1%N
                  eq_refl eq_refl eq_refl) 2%positive).
  - apply list_elem_of_here.
  - reflexivity.
Defined.

(** The name of the request is both the name of the hidden profile at address
    4 and the GUID string of the profile at address 2: the name match is the
    former, the request resolves to the latter. *)
Lemma GetProfileForArgs_name_match_counterexample :
  List.find (λ profile,
       bool_decide (@Name example_env example_heap profile = example_guid_string))
    (_allProfiles example_settings) = Some 4%positive
  ∧ (@GetProfileForArgs example_env example_heap example_settings
       (example_request example_guid_string None "")).1
    = Returned (Some 2%positive).
Proof. split; vm_compute; reflexivity. Qed.

Lemma GetProfileForArgs_name_wins_witness :
  "ax" ≠ ""
  ∧ List.find (λ profile, bool_decide (@Name example_env example_heap profile = "ax"))
      (_allProfiles example_settings) = Some 3%positive
  ∧ String.length "ax" ≠ 38
  ∧ @GetProfileByName example_env example_heap example_settings "ax"
    = Returned (Some 3%positive)
  ∧ @GetProfileForArgs example_env example_heap example_settings
      (example_request "ax" (Some 0%Z) "a.exe")
    = (Returned (Some 3%positive), example_settings).
Proof.
  split; [discriminate |]. split; [reflexivity |]. split; [discriminate |].
  apply (@GetProfileForArgs_name_wins example_env example_heap example_settings
           (NewTerminalArgs.mk "ax" (Some 0%Z) "a.exe") 3%positive).
  - discriminate.
  - reflexivity.
  - left. discriminate.
Defined.

(** With the feature enabled, a request without a command line resolves to the
    default profile (address 3, GUID 2) and not to the base layer (address 1);
    a request with the unmatched command line "zzz" resolves to the base layer
    and not to the default profile. *)
Lemma GetProfileForArgs_defaults_counterexample :
  @Feature_ShowProfileDefaultsInSettings example_env = true
  ∧ ProfileDefaults example_settings = 1%positive
  ∧ @FindProfile example_env example_heap example_settings
      (DefaultProfile (_globals example_settings)) = Some 3%positive
  ∧ (@GetProfileForArgs example_env example_heap example_settings
       (example_request "" None "")).1 = Returned (Some 3%positive)
  ∧ (@GetProfileForArgs example_env example_heap example_settings
       (example_request "" None "zzz")).1 = Returned (Some 1%positive).
Proof. repeat split; vm_compute; reflexivity. Qed.

Lemma GetProfileForArgs_defaults_branch_witness :
  @Feature_ShowProfileDefaultsInSettings example_env = true
  ∧ @by_name example_env example_heap example_settings
      (NewTerminalArgs.mk "" None "") = Returned None
  ∧ by_index example_settings (NewTerminalArgs.mk "" None "") = Returned None
  ∧ @by_commandline example_env example_heap example_settings
      (NewTerminalArgs.mk "" None "") = (Returned None, example_settings)
  ∧ @GetProfileForArgs example_env example_heap example_settings
      (example_request "" None "")
    = (Returned (@FindProfile example_env example_heap example_settings
                   (DefaultProfile (_globals example_settings))),
       example_settings).
Proof.
  split; [reflexivity |]. split; [reflexivity |]. split; [reflexivity |].
  split; [reflexivity |].
  apply (proj1 (@GetProfileForArgs_defaults_branch example_env example_heap
                  example_settings example_settings
                  (NewTerminalArgs.mk "" None "")
                  eq_refl eq_refl eq_refl eq_refl)).
  reflexivity.
Defined.

(** A request with index -1 makes the checked conversion of the index throw. *)
Lemma GetProfileForArgs_negative_index_counterexample :
  @FindProfile example_env example_heap example_settings
    (DefaultProfile (_globals example_settings)) = Some 3%positive
  ∧ (@GetProfileForArgs example_env example_heap example_settings
       (example_request "" (Some (-1)%Z) "")).1 = Thrown narrowing_error.
Proof. split; vm_compute; reflexivity. Qed.

Lemma GetProfileForArgs_never_not_found_witness :
  @FindProfile example_env example_heap example_settings
    (DefaultProfile (_globals example_settings)) = Some 3%positive
  ∧ (Z.of_N (Size (_activeProfiles example_settings)) ≤ 5 < 4294967296)%Z
  ∧ @GetProfileForArgs example_env example_heap example_settings
      (example_request "" (Some 5%Z) "")
    = (Returned (Some 3%positive), example_settings).
Proof.
  split; [reflexivity |]. split; [vm_compute; split; [discriminate | reflexivity] |].
  apply (proj2 (proj2 (@GetProfileForArgs_never_not_found example_env example_heap
                         example_settings 3%positive None eq_refl)) 5%Z).
  vm_compute. split; [discriminate | reflexivity].
Defined.

(** ** The command line matcher *)

(** The order of the cache: no entry is longer than an entry before it. *)
Definition not_longer (x y : string * addr) : Prop :=
  (String.length y.1 ≤ String.length x.1)%nat.

Lemma prefix_length (p s : string) :
  String.prefix p s = true → (String.length p ≤ String.length s)%nat.
Proof.
  revert s. induction p as [|c p IH]; intros s; simpl; [lia |].
  destruct s as [|d s]; [discriminate |]. simpl.
  destruct (ascii_dec c d); [| discriminate].
  intros Hp%IH. lia.
Qed.

Lemma stable_insert_Permutation x l : stable_insert x l ≡ₚ x :: l.
Proof.
  induction l as [|y l IH]; simpl; [done |].
  destruct (cache_comp y x); [| done].
  rewrite IH. apply Permutation_swap.
Qed.

Lemma stable_sort_Permutation l : stable_sort l ≡ₚ l.
Proof.
  induction l as [|x l IH]; simpl; [done |].
  by rewrite stable_insert_Permutation, IH.
Qed.

Lemma stable_insert_sorted x l :
  StronglySorted not_longer l → StronglySorted not_longer (stable_insert x l).
Proof.
  induction 1 as [|y l Hs IH Hall]; simpl.
  - repeat constructor.
  - unfold cache_comp. case_bool_decide as Hc.
    + constructor; [done |].
      rewrite stable_insert_Permutation. constructor; [| done].
      unfold not_longer. lia.
    + constructor; [by constructor |].
      constructor; [unfold not_longer; lia |].
      eapply Forall_impl; [exact Hall |].
      unfold not_longer. intros z Hz. lia.
Qed.

Lemma stable_sort_sorted l : StronglySorted not_longer (stable_sort l).
Proof.
  induction l as [|x l IH]; simpl; [constructor |].
  by apply stable_insert_sorted.
Qed.

Lemma StronglySorted_lookup {A} (R : A → A → Prop) (l : list A) i j x y :
  StronglySorted R l → i < j → l !! i = Some x → l !! j = Some y → R x y.
Proof.
  intros Hs. revert i j. induction Hs as [|a l Hs IH Hall]; intros i j Hij Hi Hj.
  - by rewrite lookup_nil in Hi.
  - destruct j as [|j]; [lia |]. destruct i as [|i]; simpl in *.
    + injection Hi as <-. rewrite Forall_forall in Hall.
      apply Hall. by eapply list_elem_of_lookup_2.
    + eapply (IH i j); [lia | done | done].
Qed.

(** The bisection only skips entries that are longer than the needle. *)
Lemma lower_bound_loop_skips cache needle fuel first count :
  StronglySorted not_longer cache →
  first + count ≤ length cache →
  (∀ j e, j < first → cache !! j = Some e →
          String.length needle < String.length e.1) →
  let r := lower_bound_loop fuel cache needle first count in
  r ≤ length cache
  ∧ ∀ j e, j < r → cache !! j = Some e → String.length needle < String.length e.1.
Proof.
  intros Hs. revert first count.
  induction fuel as [|fuel IH]; intros first count Hle Hskip;
    cbn [lower_bound_loop].
  { split; [lia | done]. }
  case_bool_decide as Hc; [split; [lia | done] |].
  assert (Hstep : count `div` 2 < count) by (apply Nat.div_lt; lia).
  destruct (cache !! (first + count `div` 2)) as [lhs|] eqn:Elhs;
    [| split; [lia | done]].
  case_bool_decide as Hlong.
  - apply IH; [lia |].
    intros j e Hj Hje.
    destruct (decide (j = first + count `div` 2)) as [-> | Hne].
    + by simplify_eq.
    + assert (Hlt : j < first + count `div` 2) by lia.
      pose proof (StronglySorted_lookup _ _ _ _ _ _ Hs Hlt Hje Elhs) as Hr.
      unfold not_longer in Hr. lia.
  - apply IH; [lia | done].
Qed.

Lemma lower_bound_skips cache needle :
  StronglySorted not_longer cache →
  ∀ j e, j < lower_bound cache needle → cache !! j = Some e →
         String.length needle < String.length e.1.
Proof.
  intros Hs. unfold lower_bound.
  apply (lower_bound_loop_skips cache needle (length cache) 0 (length cache) Hs);
    [lia | intros; lia].
Qed.

Lemma find_drop_skipped {A} (f : A → bool) (l : list A) (k : nat) :
  (∀ j x, j < k → l !! j = Some x → f x = false) →
  List.find f (drop k l) = List.find f l.
Proof.
  revert l. induction k as [|k IH]; intros l Hskip; [by rewrite drop_0 |].
  destruct l as [|a l]; [done |]. simpl.
  rewrite (Hskip 0 a) by (simpl; done || lia).
  apply IH. intros j x Hj Hx. apply (Hskip (S j) x); [lia | done].
Qed.

Lemma search_cache_find cache needle :
  StronglySorted not_longer cache →
  search_cache cache needle
  = snd <$> List.find (λ it, starts_with needle it.1) cache.
Proof.
  intros Hs. unfold search_cache. f_equal.
  apply find_drop_skipped. intros j e Hj He.
  pose proof (lower_bound_skips cache needle Hs j e Hj He) as Hlong.
  destruct (starts_with needle e.1) eqn:Ep; [| done].
  apply prefix_length in Ep. lia.
Qed.

(** The first hit in the sorted cache is a longest one. *)
Lemma find_sorted_longest (f : string * addr → bool) cache x :
  StronglySorted not_longer cache →
  List.find f cache = Some x →
  ∀ y, y ∈ cache → f y = true → not_longer x y.
Proof.
  induction 1 as [|a l Hs IH Hall]; simpl; [done |].
  destruct (f a) eqn:Ea.
  - intros [= <-] y Hy _. apply elem_of_cons in Hy as [-> | Hy].
    + unfold not_longer. lia.
    + rewrite Forall_forall in Hall. by apply Hall.
  - intros Hx y Hy Hfy. apply elem_of_cons in Hy as [-> | Hy]; [congruence |].
    by apply IH.
Qed.

Lemma find_head_filter {A} (f : A → bool) (l : list A) :
  List.find f l = head (List.filter f l).
Proof. induction l as [|x l IH]; simpl; [done |]. by destruct (f x). Qed.

Lemma filter_stable_insert (f : string * addr → bool) x l :
  StronglySorted not_longer l →
  List.filter f (stable_insert x l)
  = if f x then stable_insert x (List.filter f l) else List.filter f l.
Proof.
  induction 1 as [|y l Hs IH Hall]; simpl.
  - by destruct (f x).
  - destruct (cache_comp y x) eqn:Ec; simpl.
    + rewrite IH. destruct (f y), (f x); simpl; by rewrite ?Ec.
    + destruct (f x) eqn:Ex; [| done]. f_equal.
      assert (Hhead : ∀ k, Forall (not_longer y) k →
                           stable_insert x (List.filter f k) = x :: List.filter f k).
      { intros k Hk. induction Hk as [|z k Hz Hk IHk]; simpl; [done |].
        destruct (f z); [| done]. simpl.
        unfold cache_comp in *. apply bool_decide_eq_false in Ec.
        rewrite bool_decide_eq_false_2; [done |]. unfold not_longer in Hz. lia. }
      destruct (f y) eqn:Ey.
      * simpl. by rewrite Ec.
      * by rewrite Hhead.
Qed.

Lemma filter_stable_sort (f : string * addr → bool) l :
  List.filter f (stable_sort l) = stable_sort (List.filter f l).
Proof.
  induction l as [|x l IH]; simpl; [done |].
  rewrite filter_stable_insert by apply stable_sort_sorted.
  destruct (f x); simpl; by rewrite IH.
Qed.

(** The head of the sorted list is the first of the longest elements. *)
Lemma head_stable_sort l x :
  head (stable_sort l) = Some x →
  ∃ l1 l2, l = l1 ++ x :: l2
    ∧ Forall (λ y, String.length y.1 < String.length x.1) l1
    ∧ Forall (λ y, String.length y.1 ≤ String.length x.1) l2.
Proof.
  revert x. induction l as [|a l IH]; intros x; simpl; [done |].
  destruct (stable_sort l) as [|b rest] eqn:Es; simpl.
  - intros [= <-]. exists [], l. split; [done |]. split; [constructor |].
    assert (l = []) as ->; [| constructor].
    apply Permutation_nil_r. rewrite <- Es. symmetry. apply stable_sort_Permutation.
  - destruct (IH b eq_refl) as (l1 & l2 & -> & H1 & H2).
    unfold cache_comp. case_bool_decide as Hc; simpl; intros [= <-].
    + exists (a :: l1), l2. split; [done |]. split; [by constructor | done].
    + exists [], (l1 ++ b :: l2). split; [done |]. split; [constructor |].
      apply Forall_app. split; [| constructor].
      * eapply Forall_impl; [exact H1 |]. simpl. intros; lia.
      * lia.
      * eapply Forall_impl; [exact H2 |]. simpl. intros; lia.
Qed.

Lemma filter_omap_split {A B} (f : A → option B) (P : B → bool) (l : list A) l1 y l2 :
  List.filter P (omap f l) = l1 ++ y :: l2 →
  ∃ ps1 x ps2, l = ps1 ++ x :: ps2 ∧ f x = Some y
    ∧ List.filter P (omap f ps1) = l1 ∧ List.filter P (omap f ps2) = l2.
Proof.
  revert l1. induction l as [|a l IH]; intros l1; simpl.
  - by destruct l1.
  - destruct (f a) as [z|] eqn:Ea; simpl.
    + destruct (P z) eqn:Ez.
      * destruct l1 as [|z' l1]; simpl.
        -- intros [= -> <-]. exists [], a, l. by rewrite Ea.
        -- intros [= -> Hl]. destruct (IH _ Hl) as (ps1 & x & ps2 & -> & Hx & <- & <-).
           exists (a :: ps1), x, ps2. simpl. rewrite Ea. simpl. by rewrite Ez.
      * intros Hl. destruct (IH _ Hl) as (ps1 & x & ps2 & -> & Hx & <- & <-).
        exists (a :: ps1), x, ps2. simpl. rewrite Ea. simpl. by rewrite Ez.
    + intros Hl. destruct (IH _ Hl) as (ps1 & x & ps2 & -> & Hx & <- & <-).
      exists (a :: ps1), x, ps2. simpl. by rewrite Ea.
Qed.

Section MatcherClaims.
Context `{Env}.

Lemma fill_cache_entries h (profiles : list addr) cache :
  Forall (λ profile, Commandline h profile ≠ "" →
                     normalizes (Commandline h profile) = true) profiles →
  fill_cache h profiles cache
  = ((cache ++ omap (cache_entry h) profiles)%list, None).
Proof.
  intros Hall. revert cache.
  induction Hall as [|profile profiles Hp Hall IH]; intros cache; simpl.
  - by rewrite app_nil_r.
  - unfold cache_entry, normalizes in *. case_bool_decide as Hc.
    + specialize (Hp Hc).
      destruct (_normalizeCommandLine (Commandline h profile)); [| done].
      rewrite IH. by rewrite <- app_assoc.
    + apply IH.
Qed.

Lemma elem_of_cache_entries h (profiles : list addr) n p :
  (n, p) ∈ omap (cache_entry h) profiles ↔ p ∈ profiles ∧ declares h p n.
Proof.
  rewrite list_elem_of_omap. unfold cache_entry, declares. split.
  - intros (q & Hq & Hentry). case_bool_decide; [| done].
    destruct (_normalizeCommandLine (Commandline h q)) eqn:E; [| done].
    by simplify_eq.
  - intros (Hp & Hc & Hn). exists p. split; [done |].
    by rewrite (bool_decide_eq_true_2 _ Hc), Hn.
Qed.

(** What a resolution returns when the cache is current: the first entry of
    the sorted cache that is a prefix of the needle. *)
Lemma _getProfileForCommandLine_find (h : heap) (s : CascadiaSettings)
    (commandLine needle : string) :
  cache_current h s →
  Forall (λ profile, Commandline h profile ≠ "" →
                     normalizes (Commandline h profile) = true) (_allProfiles s) →
  _normalizeCommandLine commandLine = Returned needle →
  _getProfileForCommandLine h s commandLine
  = (Returned (snd <$> List.find (λ it, starts_with needle it.1)
                         (stable_sort (omap (cache_entry h) (_allProfiles s)))),
     with_cache true (stable_sort (omap (cache_entry h) (_allProfiles s))) s).
Proof.
  intros Hcache Hall Hneedle.
  rewrite <- (search_cache_find _ _ (stable_sort_sorted _)).
  unfold _getProfileForCommandLine, build_cache_once.
  destruct Hcache as [[Honce Hempty] | [Honce Hbuilt]]; rewrite Honce.
  - rewrite Hempty, (fill_cache_entries _ _ _ Hall). simpl. by rewrite Hneedle.
  - rewrite Hneedle, Hbuilt. simpl. f_equal.
    destruct s; simpl in *. by subst.
Qed.

(** C1, as amended.  On a settings object whose cache is not built yet, or
    was built from the profiles as they are, and when no command line involved
    fails to normalise, command line resolution returns a profile that declares a
    non-empty command line whose normal form is a prefix of the normal form of
    the request and is at least as long as that of every other such profile;
    it returns no profile exactly when no declared command line is a prefix.
    The cache it leaves behind is built and sorted. *)
Theorem _getProfileForCommandLine_longest_prefix (h : heap) (s : CascadiaSettings)
    (commandLine needle : string) :
  cache_current h s →
  Forall (λ profile, Commandline h profile ≠ "" →
                     normalizes (Commandline h profile) = true) (_allProfiles s) →
  _normalizeCommandLine commandLine = Returned needle →
  ∃ r, _getProfileForCommandLine h s commandLine
       = (Returned r,
          with_cache true (stable_sort (omap (cache_entry h) (_allProfiles s))) s)
    ∧ match r with
      | Some p =>
          ∃ n, p ∈ _allProfiles s ∧ declares h p n ∧ starts_with needle n = true
            ∧ ∀ q m, q ∈ _allProfiles s → declares h q m →
                     starts_with needle m = true →
                     String.length m ≤ String.length n
      | None =>
          ∀ q m, q ∈ _allProfiles s → declares h q m → starts_with needle m = false
      end.
Proof.
  intros Hcache Hall Hneedle.
  set (cache := stable_sort (omap (cache_entry h) (_allProfiles s))).
  assert (Hsorted : StronglySorted not_longer cache) by apply stable_sort_sorted.
  assert (Hmem : ∀ n p, (n, p) ∈ cache ↔ p ∈ _allProfiles s ∧ declares h p n).
  { intros n p. unfold cache. rewrite stable_sort_Permutation.
    apply elem_of_cache_entries. }
  eexists. split.
  { exact (_getProfileForCommandLine_find h s commandLine needle Hcache Hall Hneedle). }
  fold cache.
  destruct (List.find (λ it, starts_with needle it.1) cache) as [[n p]|] eqn:E;
    simpl.
  - pose proof (find_elem_of _ _ _ E) as [Hin Hpre]. simpl in Hpre.
    apply Hmem in Hin as [Hp Hdecl].
    exists n. split; [done |]. split; [done |]. split; [done |].
    intros q m Hq Hqm Hpm.
    assert (Hqin : (m, q) ∈ cache) by (by apply Hmem).
    apply (find_sorted_longest _ _ _ Hsorted E (m, q) Hqin Hpm).
  - intros q m Hq Hqm.
    assert (Hqin : (m, q) ∈ cache) by (by apply Hmem).
    apply list_elem_of_In in Hqin.
    apply (find_none _ _ E (m, q) Hqin).
Qed.

(** On a settings object whose cache is not built yet, or was built from the
    profiles as they are, and when no command line involved fails to
    normalise: among the profiles whose declared command line is a prefix of
    the request and of the greatest length, the resolution returns the first
    one in the order of the profile list, for the sort is stable. *)
Theorem _getProfileForCommandLine_first_longest (h : heap) (s : CascadiaSettings)
    (commandLine needle : string) (p : addr) :
  cache_current h s →
  Forall (λ profile, Commandline h profile ≠ "" →
                     normalizes (Commandline h profile) = true) (_allProfiles s) →
  _normalizeCommandLine commandLine = Returned needle →
  (_getProfileForCommandLine h s commandLine).1 = Returned (Some p) →
  ∃ n before after,
    _allProfiles s = before ++ p :: after
    ∧ declares h p n ∧ starts_with needle n = true
    ∧ (∀ q m, q ∈ before → declares h q m → starts_with needle m = true →
              String.length m < String.length n)
    ∧ (∀ q m, q ∈ after → declares h q m → starts_with needle m = true →
              String.length m ≤ String.length n).
Proof.
  intros Hcache Hall Hneedle.
  rewrite (_getProfileForCommandLine_find h s commandLine needle Hcache Hall Hneedle).
  cbn [fst]. rewrite find_head_filter, filter_stable_sort.
  set (P := λ it : string * addr, starts_with needle it.1).
  destruct (head (stable_sort (List.filter P (omap (cache_entry h) (_allProfiles s)))))
    as [[n p']|] eqn:Eh; [| done].
  simpl. intros [= ->].
  destruct (head_stable_sort _ _ Eh) as (l1 & l2 & Hsplit & Hl1 & Hl2).
  destruct (filter_omap_split _ _ _ _ _ _ Hsplit)
    as (before & x & after & Hps & Hx & Hb & Ha).
  assert (Hentry : ∀ q m, cache_entry h q = Some (m, p) → q = p ∧ declares h p m).
  { intros q m. unfold cache_entry, declares. case_bool_decide; [| done].
    destruct (_normalizeCommandLine (Commandline h q)) eqn:E; [| done].
    intros [= <- <-]. done. }
  destruct (Hentry x n Hx) as [-> Hdecl].
  assert (Hpn : P (n, p) = true).
  { assert (Hin : (n, p) ∈ List.filter P (omap (cache_entry h) (_allProfiles s))).
    { rewrite Hsplit. apply elem_of_app. right. apply list_elem_of_here. }
    apply list_elem_of_In, filter_In in Hin. tauto. }
  exists n, before, after. split; [done |]. split; [done |]. split; [done |].
  assert (Hmem : ∀ (ps : list addr) q m,
            q ∈ ps → declares h q m → starts_with needle m = true →
            (m, q) ∈ List.filter P (omap (cache_entry h) ps)).
  { intros ps q m Hq Hqm Hm. apply list_elem_of_In, filter_In. split; [| done].
    apply list_elem_of_In. apply list_elem_of_omap. exists q. split; [done |].
    destruct Hqm as [Hc Hn]. unfold cache_entry.
    by rewrite (bool_decide_eq_true_2 _ Hc), Hn. }
  split.
  - intros q m Hq Hqm Hm. pose proof (Hmem before q m Hq Hqm Hm) as Hin.
    rewrite Hb in Hin. rewrite Forall_forall in Hl1. exact (Hl1 _ Hin).
  - intros q m Hq Hqm Hm. pose proof (Hmem after q m Hq Hqm Hm) as Hin.
    rewrite Ha in Hin. rewrite Forall_forall in Hl2. exact (Hl2 _ Hin).
Qed.
End MatcherClaims.

Lemma _getProfileForCommandLine_longest_prefix_witness :
  @cache_current example_env example_heap example_settings
  ∧ @_normalizeCommandLine example_env "a.exe -x -y"
    = Returned ("a.exe" +:+ NUL +:+ "-x" +:+ NUL +:+ "-y")
  ∧ ∃ r, @_getProfileForCommandLine example_env example_heap example_settings
           "a.exe -x -y"
         = (Returned r,
            with_cache true
              (stable_sort (omap (@cache_entry example_env example_heap)
                              (_allProfiles example_settings)))
              example_settings)
      ∧ match r with
        | Some p =>
            ∃ n, p ∈ _allProfiles example_settings
              ∧ @declares example_env example_heap p n
              ∧ starts_with ("a.exe" +:+ NUL +:+ "-x" +:+ NUL +:+ "-y") n = true
              ∧ ∀ q m, q ∈ _allProfiles example_settings →
                       @declares example_env example_heap q m →
                       starts_with ("a.exe" +:+ NUL +:+ "-x" +:+ NUL +:+ "-y") m = true →
                       String.length m ≤ String.length n
        | None =>
            ∀ q m, q ∈ _allProfiles example_settings →
                   @declares example_env example_heap q m →
                   starts_with ("a.exe" +:+ NUL +:+ "-x" +:+ NUL +:+ "-y") m = false
        end.
Proof.
  assert (Hcache : @cache_current example_env example_heap example_settings).
  { left. split; reflexivity. }
  split; [exact Hcache |]. split; [reflexivity |].
  apply (@_getProfileForCommandLine_longest_prefix example_env example_heap
           example_settings "a.exe -x -y").
  - exact Hcache.
  - repeat constructor.
  - reflexivity.
Defined.

(** The profiles at addresses 2 and 3 declare "a.exe" and "a.exe -x"; the
    request "a.exe -x -y" resolves to the latter. *)
Example _getProfileForCommandLine_longer_profile :
  @Commandline example_env example_heap 2%positive = "a.exe"
  ∧ @Commandline example_env example_heap 3%positive = "a.exe -x"
  ∧ (@_getProfileForCommandLine example_env example_heap example_settings
       "a.exe -x -y").1 = Returned (Some 3%positive).
Proof. repeat split; vm_compute; reflexivity. Qed.

(** The cache is built by a first resolution, then [CreateNewProfile] adds
    the profile at address 3, which inherits the command line "a.exe -x".  Both
    listed profiles declare a prefix of the request "a.exe -x -y", that of the
    new profile being the longer one; the resolution answers from the cache
    built before and returns the profile that declares "a.exe".  With an
    unbuilt cache the same resolution returns the new profile. *)
Lemma _getProfileForCommandLine_longest_prefix_counterexample :
  (@_getProfileForCommandLine example_env longer_commandline_heap
     one_profile_settings "zzz").1 = Returned None
  ∧ _commandLinesCacheOnce shorter_after_resolution = true
  ∧ shorter_after_creation.2 = Some 3%positive
  ∧ _allProfiles shorter_after_creation.1.2 = [2; 3]%positive
  ∧ @Commandline example_env shorter_after_creation.1.1 2%positive = "a.exe"
  ∧ @Commandline example_env shorter_after_creation.1.1 3%positive = "a.exe -x"
  ∧ @_normalizeCommandLine example_env "a.exe" = Returned "a.exe"
  ∧ @_normalizeCommandLine example_env "a.exe -x" = Returned ("a.exe" +:+ NUL +:+ "-x")
  ∧ @_normalizeCommandLine example_env "a.exe -x -y"
    = Returned ("a.exe" +:+ NUL +:+ "-x" +:+ NUL +:+ "-y")
  ∧ starts_with ("a.exe" +:+ NUL +:+ "-x" +:+ NUL +:+ "-y") ("a.exe" +:+ NUL +:+ "-x")
    = true
  ∧ (@_getProfileForCommandLine example_env shorter_after_creation.1.1
       shorter_after_creation.1.2 "a.exe -x -y").1 = Returned (Some 2%positive)
  ∧ (@_getProfileForCommandLine example_env shorter_after_creation.1.1
       (with_cache false [] shorter_after_creation.1.2) "a.exe -x -y").1
    = Returned (Some 3%positive).
Proof. vm_compute. repeat split. Qed.

Lemma _getProfileForCommandLine_first_longest_witness :
  @cache_current example_env example_heap example_settings
  ∧ (@_getProfileForCommandLine example_env example_heap example_settings
       "a.exe -x -y").1 = Returned (Some 3%positive)
  ∧ ∃ n before after,
      _allProfiles example_settings = before ++ 3%positive :: after
      ∧ @declares example_env example_heap 3%positive n
      ∧ starts_with ("a.exe" +:+ NUL +:+ "-x" +:+ NUL +:+ "-y") n = true
      ∧ (∀ q m, q ∈ before → @declares example_env example_heap q m →
                starts_with ("a.exe" +:+ NUL +:+ "-x" +:+ NUL +:+ "-y") m = true →
                String.length m < String.length n)
      ∧ (∀ q m, q ∈ after → @declares example_env example_heap q m →
                starts_with ("a.exe" +:+ NUL +:+ "-x" +:+ NUL +:+ "-y") m = true →
                String.length m ≤ String.length n).
Proof.
  assert (Hcache : @cache_current example_env example_heap example_settings).
  { left. split; reflexivity. }
  split; [exact Hcache |]. split; [reflexivity |].
  apply (@_getProfileForCommandLine_first_longest example_env example_heap
           example_settings "a.exe -x -y").
  - exact Hcache.
  - repeat constructor.
  - reflexivity.
  - reflexivity.
Defined.

(** ** The profile lists under creation and duplication *)

Section ListClaims.
Context `{Env}.

Lemma Copy_active_invariant h s h' s' :
  Copy h s = Some (h', s') → active_invariant h' s'.
Proof.
  unfold Copy, Copy_with_map.
  destruct (CopyInheritanceGraph _ _ _) as [[b st]|]; [| done].
  destruct (CopyInheritanceGraphs _ _ _) as [[target [h1 v]]|]; [| done].
  simpl. by intros [= <- <-].
Qed.

Lemma CreateNewProfile_lists h s guid h' s' p :
  CreateNewProfile h s guid = (h', s', Some p) →
  _allProfiles s' = (_allProfiles s ++ [p])%list
  ∧ _activeProfiles s' = (_activeProfiles s ++ [p])%list
  ∧ _Hidden <$> h' !! p = Some (Some (Hidden h (_baseLayerProfile s))).
Proof.
  unfold CreateNewProfile. case_bool_decide; [done |].
  unfold _createNewProfile, CreateChild. intros [= <- <- <-]. simpl.
  split; [done |]. split; [done |].
  by rewrite !lookup_alter_eq, lookup_insert_eq.
Qed.

(** [CreateNewProfile] and [DuplicateProfile] do not touch the cache. *)
Lemma CreateNewProfile_cache h s guid :
  let s' := (CreateNewProfile h s guid).1.2 in
  _commandLinesCacheOnce s' = _commandLinesCacheOnce s
  ∧ _commandLinesCache s' = _commandLinesCache s.
Proof.
  unfold CreateNewProfile. case_bool_decide; [done |].
  by destruct (_createNewProfile _ _ _ _).
Qed.

Lemma DuplicateProfile_cache h s source guid :
  match DuplicateProfile h s source guid with
  | Returned (_, s', _) =>
      _commandLinesCacheOnce s' = _commandLinesCacheOnce s
      ∧ _commandLinesCache s' = _commandLinesCache s
  | Thrown _ => True
  end.
Proof.
  unfold DuplicateProfile. destruct source as [source|]; [| done].
  by destruct (_createNewProfile _ _ _ _).
Qed.

(** C9, as amended.  Once the cache is built it is never rebuilt: a later
    command line resolution leaves the settings object as it is and answers
    from the stored cache, whatever the profiles are by then; and neither
    [CreateNewProfile] nor [DuplicateProfile] invalidates the cache. *)
Theorem _commandLinesCache_built_once (h h' : heap) (s : CascadiaSettings)
    (commandLine : string) :
  _commandLinesCacheOnce s = true →
  _getProfileForCommandLine h' s commandLine
  = (needle <-! _normalizeCommandLine commandLine;
     Returned (search_cache (_commandLinesCache s) needle), s)
  ∧ (∀ guid,
       let s' := (CreateNewProfile h s guid).1.2 in
       _commandLinesCacheOnce s' = true
       ∧ _commandLinesCache s' = _commandLinesCache s)
  ∧ (∀ source guid,
       match DuplicateProfile h s source guid with
       | Returned (_, s', _) =>
           _commandLinesCacheOnce s' = true
           ∧ _commandLinesCache s' = _commandLinesCache s
       | Thrown _ => True
       end).
Proof.
  intros Honce. split; [| split].
  - unfold _getProfileForCommandLine, build_cache_once. by rewrite Honce.
  - intros guid. rewrite <- Honce. apply CreateNewProfile_cache.
  - intros source guid. rewrite <- Honce. apply DuplicateProfile_cache.
Qed.
End ListClaims.

(** C6 on a hidden base layer.  The invariant holds before; the profile that
    [CreateNewProfile] makes takes its hidden flag from the base layer and is
    appended to the active profiles all the same, and so is the profile that
    [DuplicateProfile] makes. *)
Theorem CreateNewProfile_breaks_active_invariant :
  @active_invariant example_env hidden_base_heap one_profile_settings
  ∧ (let '(h', s', p) :=
       @CreateNewProfile example_env hidden_base_heap one_profile_settings 77%N in
     p = Some 3%positive
     ∧ @Hidden example_env h' 3%positive = true
     ∧ _allProfiles s' = [2; 3]%positive
     ∧ _activeProfiles s' = [2; 3]%positive
     ∧ ¬ @active_invariant example_env h' s')
  ∧ match @DuplicateProfile example_env hidden_base_heap one_profile_settings
            (Some 2%positive) 78%N with
    | Returned (h', s', p) =>
        p = 3%positive
        ∧ @Hidden example_env h' 3%positive = true
        ∧ _activeProfiles s' = [2; 3]%positive
        ∧ ¬ @active_invariant example_env h' s'
    | Thrown _ => False
    end.
Proof.
  split; [reflexivity |]. split.
  - vm_compute. repeat split; discriminate.
  - vm_compute. repeat split; discriminate.
Qed.

(** The cache is built by a first resolution; [CreateNewProfile] then adds the
    profile at address 3, which inherits the command line "b.exe"; a
    resolution of "b.exe" on the resulting object finds nothing, while the same
    resolution with an unbuilt cache finds the new profile. *)
Lemma _commandLinesCache_stale_counterexample :
  (@_getProfileForCommandLine example_env inherited_commandline_heap
     one_profile_settings "zzz").1 = Returned None
  ∧ _commandLinesCacheOnce stale_after_resolution = true
  ∧ stale_after_creation.2 = Some 3%positive
  ∧ _allProfiles stale_after_creation.1.2 = [2; 3]%positive
  ∧ @Commandline example_env stale_after_creation.1.1 3%positive = "b.exe"
  ∧ @_normalizeCommandLine example_env "b.exe" = Returned "b.exe"
  ∧ (@_getProfileForCommandLine example_env stale_after_creation.1.1
       stale_after_creation.1.2 "b.exe").1 = Returned None
  ∧ (@_getProfileForCommandLine example_env stale_after_creation.1.1
       (with_cache false [] stale_after_creation.1.2) "b.exe").1
    = Returned (Some 3%positive).
Proof. vm_compute. repeat split. Qed.

Lemma _commandLinesCache_built_once_witness :
  _commandLinesCacheOnce stale_after_resolution = true
  ∧ @_getProfileForCommandLine example_env stale_after_creation.1.1
      stale_after_resolution "b.exe"
    = (needle <-! @_normalizeCommandLine example_env "b.exe";
       Returned (search_cache (_commandLinesCache stale_after_resolution) needle),
       stale_after_resolution)
  ∧ _commandLinesCache stale_after_creation.1.2
    = _commandLinesCache stale_after_resolution.
Proof.
  split; [reflexivity |].
  pose proof (@_commandLinesCache_built_once example_env inherited_commandline_heap
                stale_after_creation.1.1 stale_after_resolution "b.exe" eq_refl)
    as (Hget & Hcreate & _).
  split; [exact Hget |].
  exact (proj2 (Hcreate 77%N)).
Defined.

(** ** The validation passes *)

Section SlotFacts.
Context `{Env}.

Lemma lookup_size_pos (h : heap) a p : h !! a = Some p → ∃ n, size h = S n.
Proof.
  intros Ha. destruct (size h) as [|n] eqn:E; [| by eexists].
  apply map_size_empty_inv in E. subst h. by rewrite lookup_empty in Ha.
Qed.

Lemma resolve_own {T} (sel : Profile → option T) (h : heap) a p v :
  h !! a = Some p → sel p = Some v → resolve sel h a = Some (a, v).
Proof.
  intros Ha Hv. unfold resolve.
  destruct (lookup_size_pos h a p Ha) as [n ->]. simpl. by rewrite Ha, Hv.
Qed.

Lemma slot_get_own h sl v : slot_own h sl = Some v → slot_get h sl = v.
Proof.
  destruct sl as [[a|b] k | a k]; simpl.
  - destruct (h !! a) as [p|] eqn:Ha; simpl; [| done]. intros Hv.
    unfold get_setting.
    by rewrite (resolve_own (λ p, part_map OfAppearance p !! k) h a p v Ha Hv).
  - destruct (h !! b) as [p|] eqn:Hb; simpl; [| done].
    destruct (UnfocusedAppearance p) as [u|]; simpl; [| done].
    by intros ->.
  - destruct (h !! a) as [p|] eqn:Ha; simpl; [| done]. intros Hv.
    unfold get_setting.
    by rewrite (resolve_own (λ p, part_map OfProfile p !! k) h a p v Ha Hv).
Qed.

Lemma slot_clear_noop h sl : slot_own h sl = None → slot_clear sl h = h.
Proof.
  destruct sl as [[a|b] k | a k]; simpl; unfold clear_setting; intros Hown;
    apply alter_id; intros p Hp; rewrite Hp in Hown; simpl in Hown;
    destruct p as [o g n hd st fi da ua ps]; simpl in *.
  - unfold with_part; simpl. by rewrite delete_id.
  - unfold with_unfocused; simpl. destruct ua as [u|]; simpl in *; [| done].
    by rewrite delete_id.
  - unfold with_part; simpl. by rewrite delete_id.
Qed.

Lemma slot_clear_own h sl : slot_own (slot_clear sl h) sl = None.
Proof.
  destruct sl as [[a|b] k | a k]; simpl; unfold clear_setting;
    rewrite lookup_alter_eq; destruct (h !! _) as [p|]; simpl; try done.
  - apply lookup_delete_eq.
  - destruct (UnfocusedAppearance p); simpl; [apply lookup_delete_eq | done].
  - apply lookup_delete_eq.
Qed.

Lemma lookup_delete_cases (m : gmap string string) k k' :
  delete k m !! k' = None ∨ delete k m !! k' = m !! k'.
Proof.
  destruct (decide (k = k')) as [-> | Hne].
  - left. apply lookup_delete_eq.
  - right. by apply lookup_delete_ne.
Qed.

Lemma slot_clear_other h sl sl' :
  slot_own (slot_clear sl h) sl' = None
  ∨ slot_own (slot_clear sl h) sl' = slot_own h sl'.
Proof.
  destruct sl as [[a|b] k | a k], sl' as [[a'|b'] k' | a' k']; simpl;
    unfold clear_setting; rewrite lookup_alter; case_decide; subst;
    try (by right);
    destruct (h !! _) as [p|]; simpl; try (by right);
    try apply lookup_delete_cases.
  destruct (UnfocusedAppearance p); simpl; [apply lookup_delete_cases | by right].
Qed.

Lemma slot_clear_skeleton h sl : same_skeleton h (slot_clear sl h).
Proof.
  intros x. destruct sl as [[a|b] k | a k]; simpl; unfold clear_setting;
    rewrite lookup_alter; case_decide; subst; try done;
    destruct (h !! _) as [p|]; simpl; try done.
  unfold skeleton; simpl. by destruct (UnfocusedAppearance p).
Qed.

Lemma same_skeleton_refl h : same_skeleton h h.
Proof. done. Qed.

Lemma same_skeleton_trans h1 h2 h3 :
  same_skeleton h1 h2 → same_skeleton h2 h3 → same_skeleton h1 h3.
Proof. intros H12 H23 a. by rewrite H12. Qed.

Lemma same_skeleton_sym h1 h2 : same_skeleton h1 h2 → same_skeleton h2 h1.
Proof. intros H12 a. by rewrite H12. Qed.

Lemma cleared_refl h : cleared h h.
Proof. split; [done | by right]. Qed.

Lemma cleared_trans h1 h2 h3 : cleared h1 h2 → cleared h2 h3 → cleared h1 h3.
Proof.
  intros [Hs12 Ho12] [Hs23 Ho23]. split; [by eapply same_skeleton_trans |].
  intros sl. destruct (Ho23 sl) as [-> | ->]; [by left | apply Ho12].
Qed.

Lemma cleared_slot_clear h sl : cleared h (slot_clear sl h).
Proof. split; [apply slot_clear_skeleton | apply slot_clear_other]. Qed.

Lemma cleared_apply_check h c : cleared h (apply_check h c).
Proof.
  unfold apply_check. destruct (c.2 _); [apply cleared_slot_clear | apply cleared_refl].
Qed.

Lemma cleared_run_checks cs h : cleared h (run_checks cs h).
Proof.
  revert h. induction cs as [|c cs IH]; intros h; simpl; [apply cleared_refl |].
  eapply cleared_trans; [apply cleared_apply_check | apply IH].
Qed.

Lemma settled_cleared h h' c : settled h c → cleared h h' → settled h' c.
Proof.
  intros Hs [_ Ho] v Hv. destruct (Ho c.1) as [Hn | He]; [congruence |].
  apply Hs. congruence.
Qed.

Lemma settled_apply_check h c : settled (apply_check h c) c.
Proof.
  unfold apply_check. destruct (c.2 (slot_get h c.1)) eqn:E; intros v Hv.
  - by rewrite slot_clear_own in Hv.
  - by rewrite (slot_get_own _ _ _ Hv) in E.
Qed.

(** After a run of checks every checked slot is settled. *)
Lemma settled_run_checks cs h c : c ∈ cs → settled (run_checks cs h) c.
Proof.
  revert h. induction cs as [|c' cs IH]; intros h Hin; [by apply elem_of_nil in Hin |].
  simpl. apply elem_of_cons in Hin as [-> | Hin]; [| by apply IH].
  eapply settled_cleared; [apply settled_apply_check | apply cleared_run_checks].
Qed.

Lemma apply_check_settled h c : settled h c → apply_check h c = h.
Proof.
  intros Hs. unfold apply_check. destruct (c.2 (slot_get h c.1)) eqn:E; [| done].
  apply slot_clear_noop. destruct (slot_own h c.1) as [v|] eqn:Ev; [| done].
  rewrite (slot_get_own _ _ _ Ev) in E. by rewrite (Hs v Ev) in E.
Qed.

(** A run of checks over settled slots changes nothing. *)
Lemma run_checks_settled cs h : Forall (settled h) cs → run_checks cs h = h.
Proof.
  induction 1 as [|c cs Hc _ IH]; simpl; [done |].
  by rewrite (apply_check_settled _ _ Hc).
Qed.

Lemma run_checks_app cs1 cs2 h :
  run_checks (cs1 ++ cs2) h = run_checks cs2 (run_checks cs1 h).
Proof. apply foldl_app. Qed.

(** The object that provides the unfocused appearance depends on the skeleton
    only. *)
Lemma first_defined_fst {A B C} (g g' : A → option (B * C)) (l : list A) :
  (∀ x, fst <$> g x = fst <$> g' x) →
  fst <$> first_defined g l = fst <$> first_defined g' l.
Proof.
  intros Hg. induction l as [|x l IH]; simpl; [done |].
  specialize (Hg x). destruct (g x) as [[b c]|], (g' x) as [[b' c']|]; by simplify_eq/=.
Qed.

Lemma lookup_inherited_unfocused_owner h h' fuel a :
  same_skeleton h h' →
  fst <$> lookup_inherited UnfocusedAppearance fuel h a
  = fst <$> lookup_inherited UnfocusedAppearance fuel h' a.
Proof.
  intros Hs. revert a. induction fuel as [|fuel IH]; intros a; simpl; [done |].
  specialize (Hs a).
  destruct (h !! a) as [p|], (h' !! a) as [p'|]; simpl in *; try done.
  injection Hs as Hps Hu.
  destruct (UnfocusedAppearance p) as [u|], (UnfocusedAppearance p') as [u'|];
    simpl in *; try done.
  rewrite Hps. by apply first_defined_fst.
Qed.

Lemma same_skeleton_size h h' : same_skeleton h h' → size h = size h'.
Proof.
  intros Hs. rewrite <- !size_dom. f_equal. apply set_eq. intros a.
  rewrite !elem_of_dom. specialize (Hs a).
  destruct (h !! a), (h' !! a); simpl in *; done.
Qed.

Lemma UnfocusedAppearance_ref_skeleton h h' profile :
  same_skeleton h h' →
  UnfocusedAppearance_ref h' profile = UnfocusedAppearance_ref h profile.
Proof.
  intros Hs. unfold UnfocusedAppearance_ref, resolve.
  pose proof (lookup_inherited_unfocused_owner h h' (size h) profile Hs) as Ho.
  rewrite <- (same_skeleton_size _ _ Hs).
  destruct (lookup_inherited _ _ h _) as [[o u]|],
    (lookup_inherited _ _ h' _) as [[o' u']|]; by simplify_eq/=.
Qed.

Lemma appearances_of_skeleton h h' profile :
  same_skeleton h h' → appearances_of h' profile = appearances_of h profile.
Proof.
  intros Hs. unfold appearances_of. by rewrite (UnfocusedAppearance_ref_skeleton _ _ _ Hs).
Qed.
End SlotFacts.

Section SchemePass.
Context `{Env}.

Lemma apply_check_passes h c : c.2 (slot_get h c.1) = false → apply_check h c = h.
Proof. intros Hc. unfold apply_check. by rewrite Hc. Qed.

Lemma check_scheme_eq colorSchemes h f appearance :
  check_scheme colorSchemes (h, f) (Some appearance)
  = (apply_check h (AppearanceSlot appearance "ColorSchemeName", bad_scheme colorSchemes),
     f || invalid_scheme colorSchemes h appearance).
Proof.
  unfold check_scheme, apply_check, invalid_scheme, bad_scheme. simpl.
  unfold ColorSchemeName, ClearColorSchemeName.
  destruct (negb _); [by rewrite orb_true_r | by rewrite orb_false_r].
Qed.

Lemma check_profile_schemes_eq colorSchemes h f profile :
  check_profile_schemes colorSchemes (h, f) profile
  = (run_checks (scheme_checks colorSchemes h profile) h,
     f || existsb (invalid_scheme colorSchemes h) (appearances_of h profile)).
Proof.
  unfold check_profile_schemes, DefaultAppearance_ref. cbn [foldl fst].
  rewrite check_scheme_eq.
  unfold scheme_checks, appearances_of, run_checks.
  destruct (UnfocusedAppearance_ref h profile) as [u|];
    cbn -[apply_check invalid_scheme bad_scheme check_scheme].
  - rewrite check_scheme_eq.
    destruct (invalid_scheme colorSchemes h (DefaultOf profile)) eqn:Ed.
    + by rewrite !orb_true_r.
    + rewrite (apply_check_passes h (AppearanceSlot (DefaultOf profile) "ColorSchemeName",
                                     bad_scheme colorSchemes)).
      * by rewrite !orb_false_r.
      * unfold invalid_scheme in Ed. done.
  - by rewrite orb_false_r.
Qed.

Lemma scheme_checks_pass colorSchemes h profile :
  existsb (invalid_scheme colorSchemes h) (appearances_of h profile) = false →
  run_checks (scheme_checks colorSchemes h profile) h = h.
Proof.
  unfold scheme_checks, run_checks.
  induction (appearances_of h profile) as [|r rs IH]; simpl; [done |].
  intros [Hr Hrs]%orb_false_elim.
  rewrite apply_check_passes; [by apply IH | done].
Qed.

Lemma scheme_pass_flag_true colorSchemes l h :
  (foldl (check_profile_schemes colorSchemes) (h, true) l).2 = true.
Proof.
  revert h. induction l as [|a l IH]; intros h; cbn [foldl]; [done |].
  rewrite check_profile_schemes_eq. cbn [orb]. apply IH.
Qed.

Lemma scheme_pass_flag colorSchemes l h f :
  (foldl (check_profile_schemes colorSchemes) (h, f) l).2
  = f || existsb (λ profile, existsb (invalid_scheme colorSchemes h)
                               (appearances_of h profile)) l.
Proof.
  revert f. induction l as [|a l IH]; intros f; cbn [foldl existsb];
    [by rewrite orb_false_r |].
  rewrite check_profile_schemes_eq.
  destruct (existsb (invalid_scheme colorSchemes h) (appearances_of h a)) eqn:Ea.
  - rewrite orb_true_r. cbn [orb]. rewrite orb_true_r. apply scheme_pass_flag_true.
  - rewrite (scheme_checks_pass _ _ _ Ea), orb_false_r. cbn [orb]. apply IH.
Qed.

Lemma scheme_pass_heap colorSchemes h0 l h f :
  cleared h0 h →
  (foldl (check_profile_schemes colorSchemes) (h, f) l).1
  = run_checks (l ≫= scheme_checks colorSchemes h0) h.
Proof.
  revert h f. induction l as [|a l IH]; intros h f Hc; [done |].
  cbn [foldl]. rewrite bind_cons.
  rewrite check_profile_schemes_eq, run_checks_app.
  assert (Hsame : scheme_checks colorSchemes h a = scheme_checks colorSchemes h0 a).
  { unfold scheme_checks. by rewrite (appearances_of_skeleton h0 h a (proj1 Hc)). }
  rewrite Hsame. apply IH.
  eapply cleared_trans; [exact Hc | apply cleared_run_checks].
Qed.

Lemma _validateAllSchemesExist_eq h s :
  _validateAllSchemesExist h s
  = (run_checks (_allProfiles s ≫= scheme_checks (ColorSchemes (_globals s)) h) h,
     if existsb (λ profile, existsb (invalid_scheme (ColorSchemes (_globals s)) h)
                              (appearances_of h profile)) (_allProfiles s)
     then Append UnknownColorScheme s else s).
Proof.
  unfold _validateAllSchemesExist.
  pose proof (scheme_pass_heap (ColorSchemes (_globals s)) h (_allProfiles s) h false
                (cleared_refl h)) as Hh.
  pose proof (scheme_pass_flag (ColorSchemes (_globals s)) (_allProfiles s) h false) as Hf.
  destruct (foldl _ _ _) as [h' f']. simpl in *. by subst.
Qed.

(** C8.  After the color scheme pass, every appearance of every profile
    (the default one, and the unfocused one where there is one) whose color
    scheme name did not name an existing scheme has no explicitly set color
    scheme name; if there was at least one such appearance exactly one
    [UnknownColorScheme] warning has been appended, whatever their number, and
    otherwise the settings object is unchanged.  The pass changes nothing
    else: it only clears explicitly set values. *)
Theorem _validateAllSchemesExist_clears_and_warns (h : heap) (s : CascadiaSettings) :
  let colorSchemes := ColorSchemes (_globals s) in
  let h' := (_validateAllSchemesExist h s).1 in
  let s' := (_validateAllSchemesExist h s).2 in
  (∀ profile appearance,
     profile ∈ _allProfiles s →
     appearance ∈ appearances_of h profile →
     invalid_scheme colorSchemes h appearance = true →
     slot_own h' (AppearanceSlot appearance "ColorSchemeName") = None)
  ∧ s' = (if existsb (λ profile, existsb (invalid_scheme colorSchemes h)
                                   (appearances_of h profile)) (_allProfiles s)
          then with_warnings (_warnings s ++ [UnknownColorScheme]) s
          else s)
  ∧ cleared h h'.
Proof.
  intros colorSchemes h' s'. subst h' s'. rewrite _validateAllSchemesExist_eq. simpl.
  fold colorSchemes.
  set (checks := _allProfiles s ≫= scheme_checks colorSchemes h).
  split; [| split; [done | apply cleared_run_checks]].
  intros profile appearance Hp Ha Hinv.
  assert (Hc : (AppearanceSlot appearance "ColorSchemeName", bad_scheme colorSchemes)
               ∈ checks).
  { unfold checks. apply list_elem_of_bind. exists profile. split; [| done].
    unfold scheme_checks. apply list_elem_of_fmap. by exists appearance. }
  pose proof (settled_run_checks checks h _ Hc) as Hset.
  destruct (cleared_run_checks checks h) as [_ Hown].
  destruct (Hown (AppearanceSlot appearance "ColorSchemeName")) as [Hn | He]; [done |].
  destruct (slot_own h (AppearanceSlot appearance "ColorSchemeName")) as [v|] eqn:Ev;
    [| done].
  specialize (Hset v He). apply slot_get_own in Ev. cbn in Ev, Hset.
  unfold invalid_scheme, ColorSchemeName in Hinv. unfold bad_scheme in Hset.
  rewrite Ev in Hinv. congruence.
Qed.
End SchemePass.

Section ValidationTwice.
Context `{Env}.

Lemma with_warnings_id s : with_warnings (_warnings s) s = s.
Proof. by destruct s. Qed.

Lemma with_warnings_nil s : with_warnings (_warnings s ++ []) s = s.
Proof. rewrite app_nil_r. apply with_warnings_id. Qed.

Lemma with_warnings_twice w1 w2 s :
  with_warnings w2 (with_warnings w1 s) = with_warnings w2 s.
Proof. done. Qed.

Lemma foldl_Append s ws :
  foldl (λ s warning, Append warning s) s ws = with_warnings (_warnings s ++ ws) s.
Proof.
  revert s. induction ws as [|w ws IH]; intros s; simpl.
  - by rewrite with_warnings_nil.
  - rewrite IH. unfold Append. simpl. by rewrite <- app_assoc.
Qed.

Lemma _validateKeybindings_eq s :
  _validateKeybindings s
  = with_warnings (_warnings s ++ keybinding_block (_globals s)) s.
Proof.
  unfold _validateKeybindings, keybinding_block.
  destruct (KeybindingsWarnings (_globals s)) as [|w ws].
  - by rewrite with_warnings_nil.
  - rewrite foldl_Append. unfold Append. simpl. by rewrite <- app_assoc.
Qed.

Lemma _validateColorSchemesInCommands_eq s :
  _validateColorSchemesInCommands s
  = with_warnings (_warnings s ++ command_block (_globals s)) s.
Proof.
  unfold _validateColorSchemesInCommands, command_block.
  destruct (existsb _ _); [done | by rewrite with_warnings_nil].
Qed.

Lemma _validateAllSchemesExist_from h0 h s :
  cleared h0 h →
  ∃ unknownScheme : bool,
    _validateAllSchemesExist h s
    = (run_checks (_allProfiles s ≫= scheme_checks (ColorSchemes (_globals s)) h0) h,
       with_warnings
         (_warnings s ++ (if unknownScheme then [UnknownColorScheme] else [])) s).
Proof.
  intros Hc. unfold _validateAllSchemesExist.
  pose proof (scheme_pass_heap (ColorSchemes (_globals s)) h0 (_allProfiles s) h false Hc)
    as Hh.
  destruct (foldl (check_profile_schemes _) _ _) as [h' f']. simpl in Hh. subst h'.
  exists f'. destruct f'; [done | by rewrite with_warnings_nil].
Qed.

Hypothesis expansion_succeeds :
  ∀ x, ∃ y, ExpandEnvironmentStringsW x = Returned y.

Lemma expanded_eq x : ExpandEnvironmentStringsW x = Returned (expanded x).
Proof. unfold expanded. by destruct (expansion_succeeds x) as [y ->]. Qed.

Lemma check_background_eq h f appearance :
  ∃ f', check_background (h, f) appearance
        = Returned (apply_check h (AppearanceSlot appearance "BackgroundImagePath",
                                   bad_background), f').
Proof.
  unfold check_background, ExpandedBackgroundImagePath, apply_check, bad_background.
  cbn [fst snd slot_get slot_clear].
  unfold BackgroundImagePath, ClearBackgroundImagePath.
  case_bool_decide as Hp.
  - cbn [obind]. rewrite Hp. cbn. by eexists.
  - rewrite expanded_eq. cbn [obind].
    destruct (_ && _); by eexists.
Qed.

Lemma check_icon_eq h f profile :
  ∃ f', check_icon (h, f) profile
        = Returned (apply_check h (ProfileSlot profile "Icon", bad_icon), f').
Proof.
  unfold check_icon, apply_check, bad_icon.
  cbn [fst snd slot_get slot_clear]. unfold Icon, ClearIcon.
  case_bool_decide; cbn [andb]; [| by eexists].
  rewrite expanded_eq. cbn [obind].
  destruct (Uri_parses _); cbn [negb]; by eexists.
Qed.

Lemma check_profile_media_eq h0 h fb fi profile :
  same_skeleton h0 h →
  ∃ fb' fi',
    check_profile_media (h, fb, fi) profile
    = Returned (run_checks (media_checks h0 profile) h, fb', fi').
Proof.
  intros Hs. unfold check_profile_media, media_checks, appearances_of.
  destruct (check_background_eq h fb (DefaultOf profile)) as [f1 ->]. cbn [obind fst].
  set (h1 := apply_check h _).
  assert (Hs1 : same_skeleton h0 h1).
  { eapply same_skeleton_trans; [exact Hs | apply cleared_apply_check]. }
  rewrite (UnfocusedAppearance_ref_skeleton h0 h1 profile Hs1).
  rewrite run_checks_app. unfold run_checks at 2. cbn [fmap list_fmap foldl]. fold h1.
  destruct (UnfocusedAppearance_ref h0 profile) as [u|];
    cbn [option_list fmap list_fmap foldl].
  - destruct (check_background_eq h1 f1 u) as [f2 ->]. cbn [obind fst snd].
    destruct (check_icon_eq (apply_check h1 (AppearanceSlot u "BackgroundImagePath",
                                             bad_background)) fi profile) as [f3 ->].
    cbn [obind fst snd run_checks foldl]. by eexists _, _.
  - cbn [obind fst snd].
    destruct (check_icon_eq h1 fi profile) as [f3 ->].
    cbn [obind fst snd run_checks foldl]. by eexists _, _.
Qed.

Lemma media_pass_eq h0 l h fb fi :
  cleared h0 h →
  ∃ fb' fi',
    for_each check_profile_media (h, fb, fi) l
    = Returned (run_checks (l ≫= media_checks h0) h, fb', fi').
Proof.
  revert h fb fi. induction l as [|a l IH]; intros h fb fi Hc; cbn [for_each].
  - by eexists _, _.
  - destruct (check_profile_media_eq h0 h fb fi a (proj1 Hc)) as (fb1 & fi1 & ->).
    cbn [obind]. rewrite bind_cons, run_checks_app. apply IH.
    eapply cleared_trans; [exact Hc | apply cleared_run_checks].
Qed.

Lemma _validateMediaResources_from h0 h s :
  cleared h0 h →
  ∃ invalidBackground invalidIcon : bool,
    _validateMediaResources h s
    = Returned
        (run_checks (_allProfiles s ≫= media_checks h0) h,
         with_warnings
           (_warnings s
            ++ (if invalidBackground then [InvalidBackgroundImage] else [])
            ++ (if invalidIcon then [InvalidIcon] else [])) s).
Proof.
  intros Hc. unfold _validateMediaResources.
  destruct (media_pass_eq h0 (_allProfiles s) h false false Hc) as (fb & fi & ->).
  cbn [obind]. exists fb, fi. f_equal. f_equal.
  destruct fb, fi; unfold Append; cbn; rewrite ?app_nil_r, <- ?app_assoc;
    try done; by rewrite with_warnings_id.
Qed.

(** What a run of the validation does, from a store that differs from [h0]
    by cleared values only. *)
Lemma _validateSettings_from h0 h s :
  cleared h0 h →
  ∃ unknownScheme invalidBackground invalidIcon : bool,
    _validateSettings h s
    = Returned
        (run_checks (_allProfiles s ≫= media_checks h0)
           (run_checks (_allProfiles s ≫= scheme_checks (ColorSchemes (_globals s)) h0) h),
         with_warnings
           (_warnings s
            ++ profile_block unknownScheme invalidBackground invalidIcon
            ++ keybinding_block (_globals s) ++ command_block (_globals s)) s).
Proof.
  intros Hc. unfold _validateSettings.
  destruct (_validateAllSchemesExist_from h0 h s Hc) as [b1 ->].
  set (h1 := run_checks _ h).
  assert (Hc1 : cleared h0 h1).
  { eapply cleared_trans; [exact Hc | apply cleared_run_checks]. }
  destruct (_validateMediaResources_from h0 h1
              (with_warnings (_warnings s ++ (if b1 then [UnknownColorScheme] else [])) s) Hc1)
    as (b2 & b3 & ->).
  cbn [obind]. exists b1, b2, b3.
  rewrite _validateColorSchemesInCommands_eq, _validateKeybindings_eq.
  unfold profile_block. cbn. by rewrite <- !app_assoc.
Qed.
End ValidationTwice.

Section ValidationClaims.
Context `{Env}.

(** C7, as amended.  When expanding environment variables does not fail, the
    validation returns, and a second run on its result returns too and leaves
    every profile as the first run left it; but it appends warnings again: the
    keybinding warnings under their marker and the warning about commands are
    appended a second time whenever the first run appended them, and each of
    the three warnings about profiles may be appended again. *)
Theorem _validateSettings_twice (h : heap) (s : CascadiaSettings) :
  (∀ x, ∃ y, ExpandEnvironmentStringsW x = Returned y) →
  ∃ (h1 : heap) (a1 a2 a3 b1 b2 b3 : bool),
    let repeated := keybinding_block (_globals s) ++ command_block (_globals s) in
    let s1 := with_warnings (_warnings s ++ profile_block a1 a2 a3 ++ repeated) s in
    _validateSettings h s = Returned (h1, s1)
    ∧ _validateSettings h1 s1
      = Returned (h1, with_warnings
                        (_warnings s1 ++ profile_block b1 b2 b3 ++ repeated) s1).
Proof.
  intros Hexp.
  destruct (_validateSettings_from Hexp h h s (cleared_refl h)) as (a1 & a2 & a3 & Hrun1).
  set (S := _allProfiles s ≫= scheme_checks (ColorSchemes (_globals s)) h) in *.
  set (M := _allProfiles s ≫= media_checks h) in *.
  set (hS := run_checks S h) in *.
  set (h1 := run_checks M hS) in *.
  assert (HcS : cleared h hS) by apply cleared_run_checks.
  assert (HcM : cleared hS h1) by apply cleared_run_checks.
  assert (Hc1 : cleared h h1) by (by eapply cleared_trans).
  set (s1 := with_warnings _ s) in Hrun1.
  destruct (_validateSettings_from Hexp h h1 s1 Hc1) as (b1 & b2 & b3 & Hrun2).
  exists h1, a1, a2, a3, b1, b2, b3. cbn zeta. fold s1.
  split; [exact Hrun1 |].
  rewrite Hrun2. change (_allProfiles s1) with (_allProfiles s).
  change (_globals s1) with (_globals s). fold S M.
  assert (HS : run_checks S h1 = h1).
  { apply run_checks_settled. apply Forall_forall. intros c Hc.
    eapply settled_cleared; [by apply settled_run_checks | exact HcM]. }
  rewrite HS.
  assert (HM : run_checks M h1 = h1).
  { apply run_checks_settled. apply Forall_forall. intros c Hc.
    by apply settled_run_checks. }
  by rewrite HM.
Qed.
End ValidationClaims.

(** Validating twice with two keybinding warnings: three more entries. *)
Lemma _validateSettings_twice_counterexample :
  warnings_of (@_validateSettings example_env example_heap keybinding_settings)
  = [AtLeastOneKeybindingWarning; OtherWarning 1; OtherWarning 2]
  ∧ warnings_of (@validate_again example_env
                   (@_validateSettings example_env example_heap keybinding_settings))
    = [AtLeastOneKeybindingWarning; OtherWarning 1; OtherWarning 2;
       AtLeastOneKeybindingWarning; OtherWarning 1; OtherWarning 2].
Proof. split; vm_compute; reflexivity. Qed.

Lemma _validateSettings_twice_witness :
  (∀ x, ∃ y, @ExpandEnvironmentStringsW example_env x = Returned y)
  ∧ ∃ (h1 : heap) (a1 a2 a3 b1 b2 b3 : bool),
      let repeated :=
        keybinding_block (_globals keybinding_settings)
        ++ command_block (_globals keybinding_settings) in
      let s1 :=
        with_warnings (_warnings keybinding_settings ++ profile_block a1 a2 a3 ++ repeated)
          keybinding_settings in
      @_validateSettings example_env example_heap keybinding_settings = Returned (h1, s1)
      ∧ @_validateSettings example_env h1 s1
        = Returned (h1, with_warnings
                          (_warnings s1 ++ profile_block b1 b2 b3 ++ repeated) s1).
Proof.
  assert (Hexp : ∀ x, ∃ y, @ExpandEnvironmentStringsW example_env x = Returned y).
  { intros x. exists x. reflexivity. }
  split; [exact Hexp |].
  exact (@_validateSettings_twice example_env example_heap keybinding_settings Hexp).
Defined.

(** Three references to schemes that do not exist, one warning. *)
Example _validateAllSchemesExist_unknown_schemes :
  let r := @_validateAllSchemesExist example_env unknown_scheme_heap
             (with_profiles [2; 3]%positive [2; 3]%positive example_settings) in
  _warnings r.2 = [UnknownColorScheme]
  ∧ slot_own r.1 (AppearanceSlot (DefaultOf 2%positive) "ColorSchemeName") = None
  ∧ slot_own r.1 (AppearanceSlot (DefaultOf 3%positive) "ColorSchemeName") = None
  ∧ slot_own r.1 (AppearanceSlot (UnfocusedOf 3%positive) "ColorSchemeName") = None
  ∧ slot_own unknown_scheme_heap (AppearanceSlot (UnfocusedOf 3%positive) "ColorSchemeName")
    = Some "Bar".
Proof. vm_compute. repeat split. Qed.

(** ** Cloning the inheritance graph *)

Section CloneFacts.
Variable h0 : heap.
Variable rank : addr → nat.
Hypothesis graph_ok : well_formed_graph h0 rank.

Lemma graph_rank a p : h0 !! a = Some p → rank a < size h0.
Proof. intros Ha. by destruct (map_Forall_lookup_1 _ _ _ _ graph_ok Ha). Qed.

Lemma graph_parent a p q :
  h0 !! a = Some p → q ∈ parents p → is_Some (h0 !! q) ∧ rank q < rank a.
Proof.
  intros Ha Hq. destruct (map_Forall_lookup_1 _ _ _ _ graph_ok Ha) as [_ Hps].
  rewrite Forall_forall in Hps. by apply Hps.
Qed.

Lemma cloned_mono st st' x :
  cloned h0 st x → st.1 ⊆ st'.1 → st.2 ⊆ st'.2 → cloned h0 st' x.
Proof.
  intros (c & p & cs & Hv & Hp & Hc & Hps) H1 H2. exists c, p, cs.
  split; [exact (lookup_weaken _ _ _ _ Hv H2) |]. split; [done |].
  split; [exact (lookup_weaken _ _ _ _ Hc H1) |].
  eapply Forall2_impl; [exact Hps |]. intros x' y' Hxy.
  exact (lookup_weaken _ _ _ _ Hxy H2).
Qed.

(** Filling in the parents of the clone [c] of [this] keeps the other clones
    as they are. *)
Lemma cloned_alter h v this c f x :
  (∀ a a' c, v !! a = Some c → v !! a' = Some c → a = a') →
  v !! this = Some c → x ≠ this →
  cloned h0 (h, v) x → cloned h0 (alter f c h, v) x.
Proof.
  intros Hinj Hthis Hne (c' & p & cs & Hv & Hp & Hc & Hps). simpl in *.
  exists c', p, cs. repeat split; try done. simpl.
  rewrite lookup_alter_ne; [done |]. intros ->. apply Hne. by eapply Hinj.
Qed.

Lemma clone_inv_start : clone_inv h0 (h0, ∅).
Proof.
  split; simpl.
  - done.
  - intros a c Hc. by rewrite lookup_empty in Hc.
  - intros a a' c Hc. by rewrite lookup_empty in Hc.
  - intros c Hc. by left.
  - intros a c Hc. by rewrite lookup_empty in Hc.
  - rewrite map_size_empty. lia.
Qed.

(** Entering a new, empty clone of [this] into the state. *)
Lemma clone_inv_enter st this p :
  clone_inv h0 st → h0 !! this = Some p → st.2 !! this = None →
  clone_inv h0 (<[fresh (dom st.1) := CopySettings p]> st.1,
                <[this := fresh (dom st.1)]> st.2).
Proof.
  intros [Ho Hf Hi Hd Hc Hs] Hp Hv. destruct st as [h v]. simpl in *.
  assert (Hfresh : h !! fresh (dom h) = None).
  { apply not_elem_of_dom. apply is_fresh. }
  split; simpl.
  - etrans; [exact Ho |]. by apply insert_subseteq.
  - intros a c. rewrite lookup_insert. case_decide as Ha.
    + intros [= <-]. subst a. split; [by eexists |].
      by eapply lookup_weaken_None.
    + apply Hf.
  - intros a a' c. rewrite !lookup_insert.
    repeat case_decide; subst; try done.
    + intros [= <-] Ha'. destruct (Hc _ _ Ha') as (q & cs & _ & Hq). congruence.
    + intros Ha [= <-]. destruct (Hc _ _ Ha) as (q & cs & _ & Hq). congruence.
    + apply Hi.
  - intros c. rewrite lookup_insert. case_decide as Hcc.
    + intros _. right. exists this. subst c. by rewrite lookup_insert_eq.
    + intros [Hl | (a & Ha)]%Hd; [by left |]. right. exists a.
      rewrite lookup_insert_ne; [done | congruence].
  - intros a c. rewrite lookup_insert. case_decide as Ha.
    + intros [= <-]. subst a. exists p, []. split; [done |].
      by rewrite lookup_insert_eq.
    + intros Hac. destruct (Hc _ _ Hac) as (q & cs & Hq & Hcq).
      exists q, cs. split; [done |]. rewrite lookup_insert_ne; [done | congruence].
  - rewrite !map_size_insert_None by done. lia.
Qed.

(** Attaching the cloned parents to the clone [c] of [this]. *)
Lemma clone_inv_attach h v this c p cs :
  clone_inv h0 (h, v) → v !! this = Some c → h0 !! this = Some p →
  h !! c = Some (CopySettings p) →
  clone_inv h0 (alter (with_parents cs) c h, v).
Proof.
  intros [Ho Hf Hi Hd Hc Hs] Hthis Hp Hhc. simpl in *.
  assert (Hc0 : h0 !! c = None) by (by destruct (Hf _ _ Hthis)).
  split; simpl.
  - apply map_subseteq_spec. intros a q Ha.
    rewrite lookup_alter_ne; [by eapply lookup_weaken | congruence].
  - done.
  - done.
  - intros c'. rewrite lookup_alter. case_decide; subst.
    + intros _. apply Hd. by rewrite Hhc.
    + apply Hd.
  - intros a c' Ha. rewrite lookup_alter. case_decide; subst.
    + assert (a = this) as -> by (by eapply Hi).
      exists p, cs. split; [done |]. by rewrite Hhc.
    + by apply Hc.
  - rewrite <- Hs, <- !size_dom. by rewrite dom_alter_L.
Qed.

Lemma clone_each_spec f (l : list addr) (bound : nat) :
  (∀ x, x ∈ l → rank x < bound ∧ clones h0 rank f x) →
  ∀ st, clone_inv h0 st →
        (∀ y, is_Some (st.2 !! y) → rank y < bound → cloned h0 st y) →
        ∃ cs st',
          clone_each f l st = Some (cs, st')
          ∧ clone_inv h0 st' ∧ st.1 ⊆ st'.1 ∧ st.2 ⊆ st'.2
          ∧ Forall2 (λ x c, st'.2 !! x = Some c) l cs
          ∧ (∀ x, is_Some (st'.2 !! x) → st.2 !! x = None →
                  cloned h0 st' x ∧ ∃ y, y ∈ l ∧ reach h0 y x).
Proof.
  induction l as [|x l IH]; intros Hl st Hinv Hlow.
  - exists [], st. split; [done |]. split; [done |]. split; [done |].
    split; [done |]. split; [constructor |].
    intros x [? Hx] Hn. congruence.
  - destruct (Hl x) as [Hrank Hx]; [apply list_elem_of_here |].
    destruct (Hx st Hinv) as (c & st1 & Hf1 & Hinv1 & Hh1 & Hv1 & Hxc & Hnew1 & Hdone1).
    { intros y Hy Hle. apply Hlow; [done | lia]. }
    destruct (IH (λ y Hy, Hl y (list_elem_of_further _ _ _ Hy)) st1 Hinv1)
      as (cs & st2 & Hf2 & Hinv2 & Hh2 & Hv2 & Hcs & Hnew2).
    { intros y Hy Hlt. destruct (st.2 !! y) as [cy|] eqn:Ey.
      - eapply cloned_mono; [| exact Hh1 | exact Hv1]. apply Hlow; [by eexists | done].
      - by apply Hnew1. }
    exists (c :: cs), st2. cbn [clone_each]. rewrite Hf1, Hf2.
    split; [done |]. split; [done |].
    split; [by etrans |]. split; [by etrans |].
    split; [constructor; [exact (lookup_weaken _ _ _ _ Hxc Hv2) | done] |].
    intros y Hy Hn. destruct (st1.2 !! y) as [cy|] eqn:Ey.
    + destruct (Hnew1 y) as [Hcl Hre]; [by eexists | done |].
      split; [by eapply cloned_mono |]. exists x. split; [apply list_elem_of_here | done].
    + destruct (Hnew2 y Hy Ey) as [Hcl (z & Hz & Hre)].
      split; [done |]. exists z. split; [by apply list_elem_of_further | done].
Qed.

Lemma CopyInheritanceGraph_spec fuel this :
  is_Some (h0 !! this) → rank this < fuel → clones h0 rank (CopyInheritanceGraph fuel) this.
Proof.
  revert this. induction fuel as [|fuel IH]; intros this [p Hp] Hrank; [lia |].
  intros st Hinv Hlow. cbn [CopyInheritanceGraph].
  destruct (st.2 !! this) as [c|] eqn:Hv.
  { exists c, st. split; [done |]. split; [done |]. split; [done |]. split; [done |].
    split; [done |]. split.
    - intros x [? Hx] Hn. congruence.
    - apply Hlow; [by eexists | lia]. }
  assert (Hhp : st.1 !! this = Some p).
  { eapply lookup_weaken; [exact Hp | apply Hinv]. }
  rewrite Hhp.
  set (c := fresh (dom st.1)).
  assert (Hfresh : st.1 !! c = None) by (apply not_elem_of_dom, is_fresh).
  set (st1 := (<[c := CopySettings p]> st.1, <[this := c]> st.2)).
  assert (Hinv1 : clone_inv h0 st1) by (by apply clone_inv_enter).
  assert (Hh01 : st.1 ⊆ st1.1) by (by apply insert_subseteq).
  assert (Hv01 : st.2 ⊆ st1.2) by (by apply insert_subseteq).
  destruct (clone_each_spec (CopyInheritanceGraph fuel) (parents p) (rank this))
    with (st := st1)
    as (cs & st2 & Hf & Hinv2 & Hh12 & Hv12 & Hcs & Hnew); [| done | |].
  { intros q Hq. destruct (graph_parent this p q Hp Hq) as [Hq0 Hqr].
    split; [done |]. apply IH; [done | lia]. }
  { intros y Hy Hlt. assert (y ≠ this) by (intros ->; lia).
    eapply cloned_mono; [| exact Hh01 | exact Hv01].
    apply Hlow; [| lia]. simpl in Hy. by rewrite lookup_insert_ne in Hy. }
  rewrite Hf. destruct st2 as [h2 v2]. simpl in *.
  assert (Hthis2 : v2 !! this = Some c).
  { eapply lookup_weaken; [| exact Hv12]. apply lookup_insert_eq. }
  assert (Hc2 : h2 !! c = Some (CopySettings p)).
  { eapply lookup_weaken; [| exact Hh12]. apply lookup_insert_eq. }
  exists c, (alter (with_parents cs) c h2, v2). split; [done |].
  assert (Hdone : cloned h0 (alter (with_parents cs) c h2, v2) this).
  { exists c, p, cs. simpl. split; [done |]. split; [done |]. split; [| done].
    by rewrite lookup_alter_eq, Hc2. }
  split; [by eapply clone_inv_attach |].
  split.
  { apply map_subseteq_spec. intros a q Ha. simpl.
    rewrite lookup_alter_ne by congruence.
    eapply lookup_weaken; [| exact Hh12]. by eapply lookup_weaken. }
  split; [by etrans |]. split; [done |]. split; [| done].
  intros x Hx Hn. simpl in Hx, Hn.
  destruct (decide (x = this)) as [-> | Hne]; [split; [done | apply rtc_refl] |].
  destruct (Hnew x Hx) as [Hcl (q & Hq & Hre)].
  { by rewrite lookup_insert_ne. }
  split.
  - eapply cloned_alter; [apply Hinv2 | done | done | done].
  - eapply rtc_l; [| exact Hre]. by exists p.
Qed.
End CloneFacts.

Lemma Forall2_elem_of_l {A B} (P : A → B → Prop) (l : list A) (k : list B) x :
  Forall2 P l k → x ∈ l → ∃ y, y ∈ k ∧ P x y.
Proof.
  induction 1 as [|a b l k Hab Hlk IH]; intros Hx; [by apply elem_of_nil in Hx |].
  apply elem_of_cons in Hx as [-> | Hx].
  - exists b. split; [apply list_elem_of_here | done].
  - destruct (IH Hx) as (y & Hy & Hxy). exists y.
    split; [by apply list_elem_of_further | done].
Qed.

Section CopyClaim.
Context `{Env}.

(** C5.  On a well formed profile graph, [Copy] returns, and its result is an
    isomorphic copy of the part of the graph that the base layer and the
    profiles reach: the map [visited] from source to clone is defined exactly
    on the reachable objects and is injective; every clone is a new object, so
    no object is shared; the objects that existed are unchanged and exactly one
    object per reachable source has been added; each clone carries the own
    settings of its source and, as parents, the clones of its parents in the
    same order; the base layer and the profile list of the copy are the clones
    of those of the original, the active list being the profiles that are not
    hidden; the global settings, warnings, load error and error message are
    equal; and overwriting a clone changes no object of the original. *)
Theorem Copy_clones_graph (h : heap) (s : CascadiaSettings) (rank : addr → nat) :
  well_formed_graph h rank →
  is_Some (h !! _baseLayerProfile s) →
  Forall (λ a, is_Some (h !! a)) (_allProfiles s) →
  ∃ h' s' visited,
    Copy_with_map h s = Some (h', s', visited)
    ∧ Copy h s = Some (h', s')
    ∧ (∀ a, is_Some (visited !! a)
            ↔ ∃ r, r ∈ _baseLayerProfile s :: _allProfiles s ∧ reach h r a)
    ∧ (∀ a a' c, visited !! a = Some c → visited !! a' = Some c → a = a')
    ∧ (∀ a c, visited !! a = Some c → h !! c = None)
    ∧ h ⊆ h'
    ∧ size h' = size h + size visited
    ∧ (∀ a c p, visited !! a = Some c → h !! a = Some p →
         ∃ cs, h' !! c = Some (with_parents cs p)
               ∧ Forall2 (λ x y, visited !! x = Some y) (parents p) cs)
    ∧ visited !! _baseLayerProfile s = Some (_baseLayerProfile s')
    ∧ Forall2 (λ a c, visited !! a = Some c) (_allProfiles s) (_allProfiles s')
    ∧ active_invariant h' s'
    ∧ _globals s' = _globals s
    ∧ _warnings s' = _warnings s
    ∧ _loadError s' = _loadError s
    ∧ _deserializationErrorMessage s' = _deserializationErrorMessage s
    ∧ (∀ a c p' x, visited !! a = Some c → is_Some (h !! x) →
         <[c := p']> h' !! x = h !! x).
Proof.
  intros Hgraph [pb Hbase] Hall.
  destruct (CopyInheritanceGraph_spec h rank Hgraph (size h) (_baseLayerProfile s))
    with (st := (h, ∅ : gmap positive positive))
    as (cb & st1 & Hf1 & Hinv1 & Hh1 & Hv1 & Hb1 & Hnew1 & Hdone1).
  { by eexists. }
  { by eapply graph_rank. }
  { apply clone_inv_start. }
  { intros y [? Hy]. simpl in Hy. by rewrite lookup_empty in Hy. }
  destruct (clone_each_spec h rank (CopyInheritanceGraph (size h))
              (_allProfiles s) (size h))
    with (st := st1)
    as (cs & st2 & Hf2 & Hinv2 & Hh2 & Hv2 & Hcs & Hnew2); [| done | |].
  { intros x Hx. rewrite Forall_forall in Hall. destruct (Hall x Hx) as [px Hpx].
    split; [by eapply graph_rank |].
    apply CopyInheritanceGraph_spec; [done | by eexists | by eapply graph_rank]. }
  { intros y Hy _. by apply Hnew1. }
  destruct st2 as [h2 v2]. simpl in *.
  assert (Hcloned : ∀ x, is_Some (v2 !! x) → cloned h (h2, v2) x).
  { intros x Hx. destruct (st1.2 !! x) as [cx|] eqn:Ex.
    - eapply cloned_mono; [| exact Hh2 | exact Hv2]. apply Hnew1; [by eexists | done].
    - by apply Hnew2. }
  assert (Hbase2 : v2 !! _baseLayerProfile s = Some cb)
    by exact (lookup_weaken _ _ _ _ Hb1 Hv2).
  eexists h2, _, v2.
  split.
  { unfold Copy_with_map, CopyInheritanceGraphs. rewrite Hf1, Hf2. reflexivity. }
  split.
  { unfold Copy, Copy_with_map, CopyInheritanceGraphs. rewrite Hf1, Hf2. reflexivity. }
  cbn [_baseLayerProfile _allProfiles _activeProfiles _globals _warnings _loadError
       _deserializationErrorMessage].
  split.
  { intros a. split.
    - intros Ha. destruct (st1.2 !! a) as [ca|] eqn:Ea.
      + exists (_baseLayerProfile s). split; [apply list_elem_of_here |].
        apply Hnew1; [by eexists | done].
      + destruct (Hnew2 a Ha Ea) as [_ (y & Hy & Hre)].
        exists y. split; [by apply list_elem_of_further | done].
    - intros (r & Hr & Hre).
      assert (Hr2 : is_Some (v2 !! r)).
      { apply elem_of_cons in Hr as [-> | Hr]; [by eexists |].
        destruct (Forall2_elem_of_l _ _ _ _ Hcs Hr) as (y & _ & Hy). by eexists. }
      clear Hr. induction Hre as [r | r q a (p & Hp & Hq) _ IH]; [done |].
      apply IH. destruct (Hcloned r Hr2) as (c & p' & cs' & _ & Hp' & _ & Hps).
      simpl in *. assert (p' = p) as -> by congruence.
      destruct (Forall2_elem_of_l _ _ _ _ Hps Hq) as (y & _ & Hy). by eexists. }
  split; [apply Hinv2 |].
  split; [intros a c Hc; by destruct (inv_fresh _ _ Hinv2 a c Hc) |].
  assert (Hsub : h ⊆ h2) by (by etrans).
  split; [done |].
  split; [apply (inv_size _ _ Hinv2) |].
  split.
  { intros a c p Hc Hp. destruct (Hcloned a) as (c' & p' & cs' & Hc' & Hp' & Hh & Hps);
      [by eexists |]. simpl in *.
    assert (c' = c) as -> by congruence. assert (p' = p) as -> by congruence.
    by exists cs'. }
  split; [done |]. split; [done |]. split; [reflexivity |].
  split; [done |]. split; [done |]. split; [done |]. split; [done |].
  intros a c p' x Hc [q Hq].
  rewrite lookup_insert_ne.
  - rewrite Hq. exact (lookup_weaken _ _ _ _ Hq Hsub).
  - intros ->. destruct (inv_fresh _ _ Hinv2 a x Hc) as [_ Hn]. congruence.
Qed.
End CopyClaim.

Lemma Copy_clones_graph_witness :
  well_formed_graph example_heap example_rank
  ∧ is_Some (example_heap !! _baseLayerProfile example_settings)
  ∧ Forall (λ a, is_Some (example_heap !! a)) (_allProfiles example_settings)
  ∧ ∃ h' s' visited,
      @Copy_with_map example_env example_heap example_settings = Some (h', s', visited)
      ∧ @Copy example_env example_heap example_settings = Some (h', s')
      ∧ (∀ a, is_Some (visited !! a)
              ↔ ∃ r, r ∈ _baseLayerProfile example_settings
                          :: _allProfiles example_settings
                     ∧ reach example_heap r a)
      ∧ (∀ a a' c, visited !! a = Some c → visited !! a' = Some c → a = a')
      ∧ (∀ a c, visited !! a = Some c → example_heap !! c = None)
      ∧ example_heap ⊆ h'
      ∧ size h' = size example_heap + size visited.
Proof.
  assert (Hg : well_formed_graph example_heap example_rank).
  { unfold well_formed_graph. refine (bool_decide_unpack _ _). vm_compute. exact I. }
  assert (Hb : is_Some (example_heap !! _baseLayerProfile example_settings)).
  { by eexists. }
  assert (Ha : Forall (λ a, is_Some (example_heap !! a)) (_allProfiles example_settings)).
  { repeat constructor; by eexists. }
  split; [exact Hg |]. split; [exact Hb |]. split; [exact Ha |].
  destruct (@Copy_clones_graph example_env example_heap example_settings example_rank
              Hg Hb Ha)
    as (h' & s' & visited & H1 & H2 & H3 & H4 & H5 & H6 & H7 & _).
  exists h', s', visited. repeat (split; [assumption |]). assumption.
Defined.

(** ** Getters under growth of the store *)

Section Frame.
Variable rank : addr → nat.

Lemma first_defined_ext {A B} (g g' : A → option B) (l : list A) :
  (∀ x, x ∈ l → g x = g' x) → first_defined g l = first_defined g' l.
Proof.
  induction l as [|x l IH]; intros Hg; simpl; [done |].
  rewrite (Hg x) by apply list_elem_of_here.
  rewrite IH; [done |]. intros y Hy. apply Hg. by apply list_elem_of_further.
Qed.

(** On a well formed graph the bound of the recursion is never reached. *)
Lemma lookup_inherited_fuel {T} (sel : Profile → option T) (h : heap) f1 f2 a :
  well_formed_graph h rank → rank a < f1 → rank a < f2 →
  lookup_inherited sel f1 h a = lookup_inherited sel f2 h a.
Proof.
  intros Hg. revert f2 a. induction f1 as [|f1 IH]; intros f2 a H1 H2; [lia |].
  destruct f2 as [|f2]; [lia |]. simpl.
  destruct (h !! a) as [p|] eqn:Ha; [| done].
  destruct (sel p); [done |].
  apply first_defined_ext. intros q Hq.
  destruct (graph_parent h rank Hg a p q Ha Hq) as [_ Hr].
  apply IH; lia.
Qed.

(** Objects added to the store do not change what the objects that were there
    resolve to. *)
Lemma lookup_inherited_extend {T} (sel : Profile → option T) (h h' : heap) fuel a :
  well_formed_graph h rank → h ⊆ h' → is_Some (h !! a) →
  lookup_inherited sel fuel h' a = lookup_inherited sel fuel h a.
Proof.
  intros Hg Hsub. revert a. induction fuel as [|fuel IH]; intros a [p Ha]; [done |].
  simpl. rewrite (lookup_weaken _ _ _ _ Ha Hsub), Ha.
  destruct (sel p); [done |].
  apply first_defined_ext. intros q Hq.
  destruct (graph_parent h rank Hg a p q Ha Hq) as [Hq0 _]. by apply IH.
Qed.

Lemma resolve_extend {T} (sel : Profile → option T) (h h' : heap) a :
  well_formed_graph h rank → h ⊆ h' → is_Some (h !! a) →
  resolve sel h' a = resolve sel h a.
Proof.
  intros Hg Hsub [p Ha]. unfold resolve.
  rewrite (lookup_inherited_extend sel h h' (size h') a Hg Hsub) by (by eexists).
  pose proof (graph_rank h rank Hg a p Ha) as Hr.
  assert (size h ≤ size h') by (by apply map_subseteq_size).
  apply lookup_inherited_fuel; [done | lia | lia].
Qed.
End Frame.

Section ActiveLists.
Context `{Env}.
Variable rank : addr → nat.

Lemma Hidden_extend (h h' : heap) a :
  well_formed_graph h rank → h ⊆ h' → is_Some (h !! a) → Hidden h' a = Hidden h a.
Proof. intros Hg Hsub Ha. unfold Hidden. by rewrite (resolve_extend rank _ h h' a). Qed.

Lemma Hidden_own (h : heap) a p b :
  h !! a = Some p → _Hidden p = Some b → Hidden h a = b.
Proof. intros Ha Hb. unfold Hidden. by rewrite (resolve_own _Hidden h a p b Ha Hb). Qed.

Lemma extended_by_alter (h : heap) d b h' f :
  h !! d = None → (∀ q, _Hidden (f q) = _Hidden q) →
  extended_by h d b h' → extended_by h d b (alter f d h').
Proof.
  intros Hd Hf [Hsub (q & Hq & Hb)]. split.
  - apply map_subseteq_spec. intros a p Ha.
    rewrite lookup_alter_ne by congruence. exact (lookup_weaken _ _ _ _ Ha Hsub).
  - exists (f q). rewrite lookup_alter_eq, Hq. split; [done |]. by rewrite Hf.
Qed.

Lemma _createNewProfile_eq (h : heap) s name guid :
  _createNewProfile h s name guid
  = (alter (with_Name name) (new_address h)
       (alter (with_Guid guid) (new_address h) (CreateChild h (_baseLayerProfile s)).1),
     new_address h).
Proof. reflexivity. Qed.

Lemma _createNewProfile_extended (h : heap) s name guid :
  extended_by h (new_address h) (Hidden h (_baseLayerProfile s))
    (_createNewProfile h s name guid).1
  ∧ (_createNewProfile h s name guid).2 = new_address h.
Proof.
  rewrite _createNewProfile_eq. cbn [fst snd]. split; [| done].
  assert (Hfresh : h !! new_address h = None).
  { unfold new_address. apply not_elem_of_dom, is_fresh. }
  apply extended_by_alter; [done | done |].
  apply extended_by_alter; [done | done |].
  unfold CreateChild. cbn [fst].
  split; [by apply insert_subseteq |].
  eexists. split; [apply lookup_insert_eq | done].
Qed.

Lemma active_invariant_append (h h' : heap) s d :
  well_formed_graph h rank →
  Forall (λ a, is_Some (h !! a)) (_allProfiles s) →
  extended_by h d false h' →
  active_invariant h s →
  active_invariant h' (with_profiles (_allProfiles s ++ [d]) (_activeProfiles s ++ [d]) s).
Proof.
  intros Hg Hall [Hsub (q & Hq & Hb)] Hinv. unfold active_invariant in *. simpl.
  rewrite List.filter_app. simpl. rewrite (Hidden_own h' d q false Hq Hb). simpl.
  f_equal. rewrite Hinv. apply List.filter_ext_in. intros a Ha.
  rewrite Forall_forall in Hall. apply list_elem_of_In in Ha.
  by rewrite (Hidden_extend h h' a Hg Hsub (Hall a Ha)).
Qed.

Lemma DUPLICATE_SETTING_MACRO_extended (h : heap) d b pt source l h' :
  h !! d = None → extended_by h d b h' →
  extended_by h d b (foldl (DUPLICATE_SETTING_MACRO pt source d) h' l).
Proof.
  intros Hd. revert h'. induction l as [|k l IH]; intros h' Hext; simpl; [done |].
  apply IH. unfold DUPLICATE_SETTING_MACRO. destruct (NEEDS_DUPLICATION _ _ _ _); [| done].
  apply extended_by_alter; [done | | done]. intros q. by destruct pt.
Qed.

(** When the base layer is not hidden, [CreateNewProfile] and
    [DuplicateProfile] keep the active profiles equal to the profiles that are
    not hidden. *)
Theorem active_invariant_preserved (h : heap) (s : CascadiaSettings) :
  well_formed_graph h rank →
  Forall (λ a, is_Some (h !! a)) (_allProfiles s) →
  Hidden h (_baseLayerProfile s) = false →
  active_invariant h s →
  (∀ guid, active_invariant (CreateNewProfile h s guid).1.1
             (CreateNewProfile h s guid).1.2)
  ∧ (∀ source guid,
       match DuplicateProfile h s source guid with
       | Returned (h', s', _) => active_invariant h' s'
       | Thrown _ => True
       end).
Proof.
  intros Hg Hall Hbase Hinv.
  assert (Hfresh : h !! new_address h = None).
  { unfold new_address. apply not_elem_of_dom, is_fresh. }
  split.
  - intros guid. unfold CreateNewProfile. case_bool_decide; [done |].
    set (name := CreateNewProfile_loop _ _ _ _ _ _).
    destruct (_createNewProfile_extended h s name guid) as [Hext Hd].
    destruct (_createNewProfile h s name guid) as [h' d]. cbn [fst snd] in Hext, Hd.
    subst d.
    rewrite Hbase in Hext. exact (active_invariant_append h h' s _ Hg Hall Hext Hinv).
  - intros [source|] guid; [| done]. unfold DuplicateProfile.
    set (name := DuplicateProfile_loop _ _ _ _ _ _).
    destruct (_createNewProfile_extended h s name guid) as [Hext Hd].
    destruct (_createNewProfile h s name guid) as [h' d]. cbn [fst snd] in Hext, Hd.
    subst d.
    rewrite Hbase in Hext.
    set (d := new_address h) in *.
    apply (active_invariant_append h _ s d Hg Hall); [| done].
    assert (H1 := DUPLICATE_SETTING_MACRO_extended h d false OfProfile source
                    duplicated_profile_settings h' Hfresh Hext).
    assert (H2 := DUPLICATE_SETTING_MACRO_extended h d false OfFont source
                    duplicated_font_settings _ Hfresh H1).
    assert (H3 := DUPLICATE_SETTING_MACRO_extended h d false OfAppearance source
                    duplicated_appearance_settings _ Hfresh H2).
    set (h3 := foldl (DUPLICATE_SETTING_MACRO OfAppearance source d) _ _) in *.
    assert (H4 : extended_by h d false (duplicate_UnfocusedAppearance source d h3)).
    { unfold duplicate_UnfocusedAppearance. destruct (_ || _); [| done].
      destruct (resolve UnfocusedAppearance h3 source) as [[o u]|]; [| done].
      by apply extended_by_alter. }
    destruct (has_setting OfProfile "ConnectionType" _ source); [| done].
    by apply extended_by_alter.
Qed.
End ActiveLists.

Lemma active_invariant_preserved_witness :
  well_formed_graph example_heap example_rank
  ∧ Forall (λ a, is_Some (example_heap !! a)) (_allProfiles example_settings)
  ∧ @Hidden example_env example_heap (_baseLayerProfile example_settings) = false
  ∧ @active_invariant example_env example_heap example_settings
  ∧ @active_invariant example_env
      (@CreateNewProfile example_env example_heap example_settings 77%N).1.1
      (@CreateNewProfile example_env example_heap example_settings 77%N).1.2.
Proof.
  assert (Hg : well_formed_graph example_heap example_rank).
  { unfold well_formed_graph. refine (bool_decide_unpack _ _). vm_compute. exact I. }
  assert (Ha : Forall (λ a, is_Some (example_heap !! a)) (_allProfiles example_settings)).
  { repeat constructor; by eexists. }
  split; [exact Hg |]. split; [exact Ha |]. split; [reflexivity |].
  split; [reflexivity |].
  exact (proj1 (@active_invariant_preserved example_env example_rank example_heap
                  example_settings Hg Ha eq_refl eq_refl) 77%N).
Defined.

(** ** Names of created profiles *)

Lemma wrap32_inj_window (c i j : N) :
  (i < 4294967296)%N → (j < 4294967296)%N →
  wrap32 (c + i) = wrap32 (c + j) → i = j.
Proof.
  unfold wrap32. intros Hi Hj Heq.
  apply N2Z.inj. apply (f_equal Z.of_N) in Heq.
  rewrite !N2Z.inj_mod, !N2Z.inj_add in Heq.
  change (Z.of_N 4294967296) with 4294967296%Z in Heq.
  apply N2Z.inj_lt in Hi, Hj. change (Z.of_N 4294967296) with 4294967296%Z in *.
  pose proof (N2Z.is_nonneg c). pose proof (N2Z.is_nonneg i). pose proof (N2Z.is_nonneg j).
  revert Heq. Z.div_mod_to_equations. lia.
Qed.

Lemma wrap32_small (n : N) : (n < 4294967296)%N → wrap32 n = n.
Proof. unfold wrap32. intros. apply N.mod_small. lia. Qed.

Lemma string_length_app (s t : string) :
  String.length (s +:+ t) = String.length s + String.length t.
Proof. induction s as [|c s IH]; simpl; [done | by rewrite IH]. Qed.

Lemma string_app_inj_r (s1 s2 t : string) : s1 +:+ t = s2 +:+ t → s1 = s2.
Proof.
  revert s2. induction s1 as [|c s1 IH]; intros [|d s2]; simpl; try done.
  - intros Heq. apply (f_equal String.length) in Heq.
    rewrite !string_length_app in Heq. simpl in Heq. lia.
  - intros Heq. apply (f_equal String.length) in Heq.
    rewrite !string_length_app in Heq. simpl in Heq. lia.
  - intros [= -> Heq]. f_equal. by apply IH.
Qed.

(** Among [n] pairwise different candidates, one is not in a list that is
    shorter than [n]. *)
Lemma unused_candidate {A} `{EqDecision A} (cand : nat → A) (taken : list A) (n : nat) :
  (∀ i j, i < n → j < n → cand i = cand j → i = j) →
  length taken < n →
  ∃ i, i < n ∧ cand i ∉ taken.
Proof.
  intros Hinj Hlen.
  destruct (Forall_Exists_dec (λ i, cand i ∈ taken) (λ i, cand i ∉ taken)
              (λ i, decide (cand i ∈ taken)) (seq 0 n)) as [Hall | Hex].
  - exfalso.
    assert (Hnd : NoDup (cand <$> seq 0 n)).
    { apply NoDup_fmap_2_strong; [| apply NoDup_seq].
      intros i j Hi%elem_of_seq Hj%elem_of_seq. apply Hinj; lia. }
    assert (Hsub : cand <$> seq 0 n ⊆+ taken).
    { apply NoDup_submseteq; [done |]. intros x (i & -> & Hi)%list_elem_of_fmap.
      rewrite Forall_forall in Hall. by apply Hall. }
    apply submseteq_length in Hsub. rewrite length_fmap, length_seq in Hsub. lia.
  - apply Exists_exists in Hex as (i & Hi%elem_of_seq & Hfree).
    exists i. split; [lia | done].
Qed.

Section CreatedNames.
Context `{Env}.

Lemma name_is_free_spec (h : heap) (s : CascadiaSettings) (newName : string) :
  name_is_free h s newName = true ↔ newName ∉ Name h <$> _allProfiles s.
Proof.
  unfold name_is_free, none_of. rewrite negb_true_iff.
  induction (_allProfiles s) as [|a l IH]; simpl.
  - split; [intros _; apply not_elem_of_nil | done].
  - rewrite orb_false_iff, IH, not_elem_of_cons, bool_decide_eq_false.
    split; intros [H1 H2]; (split; [congruence | done]).
Qed.

Lemma name_is_free_false (h : heap) (s : CascadiaSettings) (newName : string) :
  name_is_free h s newName = false →
  ∃ q, q ∈ _allProfiles s ∧ Name h q = newName.
Proof.
  intros Hf. destruct (decide (newName ∈ Name h <$> _allProfiles s)) as [Hin | Hout].
  - apply list_elem_of_fmap in Hin as (q & -> & Hq). by exists q.
  - apply name_is_free_spec in Hout. congruence.
Qed.

(** The candidate names of [CreateNewProfile], by candidate index. *)
Lemma CreateNewProfile_loop_first_free (h : heap) (s : CascadiaSettings) (count : N)
    (todo i : nat) (newName : string) :
  (N.of_nat (i + todo) ≤ 4294967296)%N →
  (∃ j, i ≤ j < i + todo
        ∧ name_is_free h s ("Profile " +:+ pretty (wrap32 (count + N.of_nat j))) = true) →
  ∃ j, i ≤ j < i + todo
    ∧ CreateNewProfile_loop h s count todo (N.of_nat i) newName
      = "Profile " +:+ pretty (wrap32 (count + N.of_nat j))
    ∧ name_is_free h s ("Profile " +:+ pretty (wrap32 (count + N.of_nat j))) = true
    ∧ ∀ k, i ≤ k < j →
           name_is_free h s ("Profile " +:+ pretty (wrap32 (count + N.of_nat k))) = false.
Proof.
  revert i newName. induction todo as [|todo IH]; intros i newName Hb (j & Hj & Hfree).
  { lia. }
  cbn [CreateNewProfile_loop].
  destruct (name_is_free h s ("Profile " +:+ pretty (wrap32 (count + N.of_nat i)))) eqn:E.
  - exists i. split; [lia |]. split; [done |]. split; [done |]. intros k Hk. lia.
  - assert (Hne : j ≠ i) by (intros ->; congruence).
    rewrite wrap32_small by lia.
    replace (N.of_nat i + 1)%N with (N.of_nat (S i)) by lia.
    destruct (IH (S i) ("Profile " +:+ pretty (wrap32 (count + N.of_nat i))))
      as (j' & Hj' & Hloop & Hfree' & Hbefore).
    { lia. }
    { exists j. split; [lia | done]. }
    exists j'. split; [lia |]. split; [done |]. split; [done |].
    intros k Hk. destruct (decide (k = i)) as [-> | Hki]; [done |].
    apply Hbefore. lia.
Qed.

Lemma CreateNewProfile_name_candidates_inj (count : N) (i j : nat) :
  (N.of_nat i < 4294967296)%N → (N.of_nat j < 4294967296)%N →
  "Profile " +:+ pretty (wrap32 (count + N.of_nat i))
  = "Profile " +:+ pretty (wrap32 (count + N.of_nat j)) →
  i = j.
Proof.
  intros Hi Hj Heq. apply (inj _) in Heq. apply (inj pretty) in Heq.
  apply wrap32_inj_window in Heq; lia.
Qed.

Lemma DuplicateProfile_loop_first_free (h : heap) (s : CascadiaSettings)
    (sourceName : string) (todo i : nat) :
  (N.of_nat (i + todo) ≤ 4294967295)%N →
  (∃ j, i ≤ j < i + todo
        ∧ name_is_free h s (DuplicateProfile_candidate sourceName j) = true) →
  ∃ j, i ≤ j < i + todo
    ∧ DuplicateProfile_loop h s sourceName todo (N.of_nat i)
        (DuplicateProfile_candidate sourceName i)
      = DuplicateProfile_candidate sourceName j
    ∧ name_is_free h s (DuplicateProfile_candidate sourceName j) = true
    ∧ ∀ k, i ≤ k < j →
           name_is_free h s (DuplicateProfile_candidate sourceName k) = false.
Proof.
  revert i. induction todo as [|todo IH]; intros i Hb (j & Hj & Hfree).
  { lia. }
  cbn [DuplicateProfile_loop].
  destruct (name_is_free h s (DuplicateProfile_candidate sourceName i)) eqn:E.
  - exists i. split; [lia |]. split; [done |]. split; [done |]. intros k Hk. lia.
  - assert (Hne : j ≠ i) by (intros ->; congruence).
    rewrite wrap32_small by lia.
    replace (N.of_nat i + 1)%N with (N.of_nat (S i)) by lia.
    change (sourceName +:+ " (" +:+ CopySuffix +:+ " "
              +:+ pretty (wrap32 (N.of_nat i + 2)) +:+ ")")
      with (DuplicateProfile_candidate sourceName (S i)).
    destruct (IH (S i)) as (j' & Hj' & Hloop & Hfree' & Hbefore).
    { lia. }
    { exists j. split; [lia | done]. }
    exists j'. split; [lia |]. split; [done |]. split; [done |].
    intros k Hk. destruct (decide (k = i)) as [-> | Hki]; [done |].
    apply Hbefore. lia.
Qed.

Lemma DuplicateProfile_candidate_inj (sourceName : string) (i j : nat) :
  (N.of_nat i < 4294967296)%N → (N.of_nat j < 4294967296)%N →
  DuplicateProfile_candidate sourceName i = DuplicateProfile_candidate sourceName j →
  i = j.
Proof.
  intros Hi Hj. destruct i as [|i], j as [|j]; simpl; [done | | |].
  - intros Heq. do 3 apply (inj _) in Heq. discriminate.
  - intros Heq. do 3 apply (inj _) in Heq. discriminate.
  - intros Heq. do 4 apply (inj _) in Heq.
    apply string_app_inj_r, (inj pretty) in Heq.
    rewrite !(N.add_comm _ 2) in Heq. apply wrap32_inj_window in Heq; lia.
Qed.
End CreatedNames.

Section Created.
Context `{Env}.
Variable rank : addr → nat.

Lemma created_in_alter (h : heap) d g n base h' f :
  (∀ q, Origin (f q) = Origin q ∧ _Guid (f q) = _Guid q ∧ _Name (f q) = _Name q
        ∧ parents (f q) = parents q) →
  created_in h d g n base h' → created_in h d g n base (alter f d h').
Proof.
  intros Hf (Hsub & Hd & q & Hq & Ho & Hg & Hn & Hp).
  split; [| split; [done |]].
  - apply map_subseteq_spec. intros a p Ha.
    rewrite lookup_alter_ne by congruence. exact (lookup_weaken _ _ _ _ Ha Hsub).
  - exists (f q). rewrite lookup_alter_eq, Hq. split; [done |].
    destruct (Hf q) as (-> & -> & -> & ->). done.
Qed.

Lemma _createNewProfile_created (h : heap) s name guid :
  created_in h (new_address h) guid name (_baseLayerProfile s)
    (_createNewProfile h s name guid).1.
Proof.
  assert (Hfresh : h !! new_address h = None).
  { unfold new_address. apply not_elem_of_dom, is_fresh. }
  unfold _createNewProfile, CreateChild. cbn [fst].
  split; [| split; [done |]].
  - apply map_subseteq_spec. intros a p Ha.
    rewrite !lookup_alter_ne, lookup_insert_ne by congruence. done.
  - eexists. rewrite !lookup_alter_eq, lookup_insert_eq. cbn [fmap option_fmap option_map].
    split; [reflexivity |]. done.
Qed.

Lemma created_in_Name (h : heap) d g n base h' :
  created_in h d g n base h' → Name h' d = n ∧ Guid h' d = g.
Proof.
  intros (_ & _ & q & Hq & _ & Hg & Hn & _). unfold Name, Guid.
  by rewrite (resolve_own _Name h' d q n Hq Hn), (resolve_own _Guid h' d q g Hq Hg).
Qed.

Lemma created_in_frame (h : heap) d g n base h' a :
  well_formed_graph h rank → created_in h d g n base h' → is_Some (h !! a) →
  Name h' a = Name h a ∧ Guid h' a = Guid h a.
Proof.
  intros Hg (Hsub & _) Ha. unfold Name, Guid.
  by rewrite !(resolve_extend rank _ h h' a Hg Hsub Ha).
Qed.

Lemma created_in_DUPLICATE_SETTING_MACRO (h : heap) d g n base pt source l h' :
  created_in h d g n base h' →
  created_in h d g n base (foldl (DUPLICATE_SETTING_MACRO pt source d) h' l).
Proof.
  revert h'. induction l as [|k l IH]; intros h' Hc; simpl; [done |].
  apply IH. unfold DUPLICATE_SETTING_MACRO. destruct (NEEDS_DUPLICATION _ _ _ _); [| done].
  apply created_in_alter; [| done]. intros q. by destruct pt.
Qed.

Lemma DuplicateProfile_eq (h : heap) s source guid :
  DuplicateProfile h s (Some source) guid
  = Returned
      (DuplicateProfile_settings source (new_address h)
         (_createNewProfile h s
            (DuplicateProfile_loop h s (Name h source)
               (N.to_nat (wrap32 (Size (_allProfiles s) + 1))) 0
               (Name h source +:+ " (" +:+ CopySuffix +:+ ")")) guid).1,
       with_profiles (_allProfiles s ++ [new_address h])
         (_activeProfiles s ++ [new_address h]) s,
       new_address h).
Proof.
  unfold DuplicateProfile, DuplicateProfile_settings. rewrite _createNewProfile_eq.
  cbv zeta. cbn [fst]. reflexivity.
Qed.

Lemma created_in_DuplicateProfile_settings (h : heap) d g n base source h' :
  created_in h d g n base h' →
  created_in h d g n base (DuplicateProfile_settings source d h').
Proof.
  intros Hc. unfold DuplicateProfile_settings.
  assert (H1 := created_in_DUPLICATE_SETTING_MACRO h d g n base OfProfile source
                  duplicated_profile_settings h' Hc).
  assert (H2 := created_in_DUPLICATE_SETTING_MACRO h d g n base OfFont source
                  duplicated_font_settings _ H1).
  assert (H3 := created_in_DUPLICATE_SETTING_MACRO h d g n base OfAppearance source
                  duplicated_appearance_settings _ H2).
  set (h3 := foldl (DUPLICATE_SETTING_MACRO OfAppearance source d) _ _) in *.
  assert (H4 : created_in h d g n base (duplicate_UnfocusedAppearance source d h3)).
  { unfold duplicate_UnfocusedAppearance. destruct (_ || _); [| done].
    destruct (resolve UnfocusedAppearance h3 source) as [[o u]|]; [| done].
    by apply created_in_alter. }
  cbv zeta. destruct (has_setting OfProfile "ConnectionType" _ source); [| done].
  by apply created_in_alter.
Qed.
End Created.

Lemma find_app_last {A} (f : A → bool) (l : list A) (x : A) :
  (∀ y, y ∈ l → f y = false) → f x = true → List.find f (l ++ [x]) = Some x.
Proof.
  intros Hl Hx. induction l as [|a l IH]; simpl; [by rewrite Hx |].
  rewrite (Hl a) by apply list_elem_of_here.
  apply IH. intros y Hy. apply Hl. by apply list_elem_of_further.
Qed.

Lemma find_app_ext {A} (f g : A → bool) (l : list A) (x : A) :
  (∀ y, y ∈ l → g y = f y) →
  List.find g (l ++ [x])
  = match List.find f l with
    | Some y => Some y
    | None => if g x then Some x else None
    end.
Proof.
  intros Hl. induction l as [|a l IH]; simpl; [done |].
  rewrite (Hl a) by apply list_elem_of_here. destruct (f a); [done |].
  apply IH. intros y Hy. apply Hl. by apply list_elem_of_further.
Qed.

Section CreationClaims.
Context `{Env}.
Variable rank : addr → nat.

(** [CreateNewProfile] gives the new profile the name "Profile N" for the
    first number N, counting from the number of profiles plus one, that no
    profile bears; no profile of the list has that name, the names of the
    profiles that were there are as before, and looking the name up finds the
    new profile. *)
Theorem CreateNewProfile_unused_name (h : heap) (s : CascadiaSettings) (guid : guid) :
  well_formed_graph h rank →
  Forall (λ a, is_Some (h !! a)) (_allProfiles s) →
  (Size (_allProfiles s) < UINT32_MAX)%N →
  ∃ h' s' p (i : nat),
    CreateNewProfile h s guid = (h', s', Some p)
    ∧ i ≤ length (_allProfiles s)
    ∧ Name h' p
      = "Profile " +:+ pretty (wrap32 (Size (_allProfiles s) + 1 + N.of_nat i))
    ∧ (∀ q, q ∈ _allProfiles s → Name h' q = Name h q ∧ Name h' q ≠ Name h' p)
    ∧ (∀ k, k < i →
         ∃ q, q ∈ _allProfiles s
              ∧ Name h q
                = "Profile " +:+ pretty (wrap32 (Size (_allProfiles s) + 1 + N.of_nat k)))
    ∧ GetProfileByName h' s' (Name h' p) = Returned (Some p).
Proof.
  intros Hg Hall Hsize. unfold UINT32_MAX, Size in Hsize.
  unfold CreateNewProfile. rewrite bool_decide_eq_false_2 by (unfold UINT32_MAX, Size; lia).
  rewrite (wrap32_small (Size (_allProfiles s) + 1)) by (unfold Size; lia).
  set (count := (Size (_allProfiles s) + 1)%N).
  set (cand := λ j : nat, "Profile " +:+ pretty (wrap32 (count + N.of_nat j))).
  destruct (unused_candidate cand (Name h <$> _allProfiles s) (N.to_nat count))
    as (j & Hj & Hfree).
  { intros i j Hi Hj. apply CreateNewProfile_name_candidates_inj; unfold count, Size in *; lia. }
  { rewrite length_fmap. unfold count, Size. lia. }
  apply name_is_free_spec in Hfree.
  destruct (CreateNewProfile_loop_first_free h s count (N.to_nat count) 0 "")
    as (i & Hi & Hloop & Hifree & Hbefore).
  { unfold count, Size. lia. }
  { exists j. split; [lia | done]. }
  change (N.of_nat 0) with 0%N in Hloop. rewrite Hloop. fold (cand i) in *.
  pose proof (_createNewProfile_created h s (cand i) guid) as Hc.
  rewrite _createNewProfile_eq in *. cbn [fst] in Hc.
  set (h' := alter _ _ _) in *. set (p := new_address h) in *.
  destruct (created_in_Name h p guid (cand i) _ h' Hc) as [Hname _].
  assert (Hold : ∀ q, q ∈ _allProfiles s → Name h' q = Name h q ∧ Name h' q ≠ Name h' p).
  { intros q Hq. rewrite Forall_forall in Hall.
    destruct (created_in_frame rank h p guid (cand i) _ h' q Hg Hc (Hall q Hq)) as [Hq' _].
    split; [done |]. rewrite Hq', Hname. intros Heq.
    apply name_is_free_spec in Hifree. apply Hifree.
    apply list_elem_of_fmap. by exists q. }
  exists h', (with_profiles (_allProfiles s ++ [p]) (_activeProfiles s ++ [p]) s), p, i.
  split; [done |]. split; [unfold count, Size in Hi; lia |]. split; [done |].
  split; [done |]. split.
  { intros k Hk. apply name_is_free_false. apply Hbefore. lia. }
  rewrite Hname. unfold GetProfileByName.
  rewrite bool_decide_eq_true_2 by done.
  rewrite (bool_decide_eq_false_2 (String.get 0 (cand i) = Some "{"%char)) by done.
  rewrite andb_false_r. cbn [obind with_profiles _allProfiles].
  rewrite find_app_last; [done | |].
  - intros q Hq. apply bool_decide_eq_false. rewrite <- Hname. by apply Hold.
  - by apply bool_decide_eq_true.
Qed.

(** [DuplicateProfile] names the copy after its source: "<name> (<suffix>)",
    or "<name> (<suffix> N)" for the first N from 2 on such that no profile
    bears the name; no profile of the list has that name. *)
Theorem DuplicateProfile_unused_name (h : heap) (s : CascadiaSettings)
    (source : addr) (guid : guid) :
  well_formed_graph h rank →
  Forall (λ a, is_Some (h !! a)) (_allProfiles s) →
  (Size (_allProfiles s) < UINT32_MAX)%N →
  ∃ h' s' d (i : nat),
    DuplicateProfile h s (Some source) guid = Returned (h', s', d)
    ∧ i ≤ length (_allProfiles s)
    ∧ Name h' d = DuplicateProfile_candidate (Name h source) i
    ∧ (∀ q, q ∈ _allProfiles s → Name h' q = Name h q ∧ Name h' q ≠ Name h' d)
    ∧ (∀ k, k < i →
         ∃ q, q ∈ _allProfiles s
              ∧ Name h q = DuplicateProfile_candidate (Name h source) k).
Proof.
  intros Hg Hall Hsize. unfold UINT32_MAX, Size in Hsize.
  rewrite DuplicateProfile_eq.
  rewrite (wrap32_small (Size (_allProfiles s) + 1)) by (unfold Size; lia).
  set (count := (Size (_allProfiles s) + 1)%N).
  set (cand := DuplicateProfile_candidate (Name h source)).
  destruct (unused_candidate cand (Name h <$> _allProfiles s) (N.to_nat count))
    as (j & Hj & Hfree).
  { intros i j Hi Hj. apply DuplicateProfile_candidate_inj; unfold count, Size in *; lia. }
  { rewrite length_fmap. unfold count, Size. lia. }
  apply name_is_free_spec in Hfree.
  destruct (DuplicateProfile_loop_first_free h s (Name h source) (N.to_nat count) 0)
    as (i & Hi & Hloop & Hifree & Hbefore).
  { unfold count, Size. lia. }
  { exists j. split; [lia | done]. }
  change (N.of_nat 0) with 0%N in Hloop.
  change (DuplicateProfile_candidate (Name h source) 0)
    with (Name h source +:+ " (" +:+ CopySuffix +:+ ")") in Hloop.
  rewrite Hloop. fold cand in Hifree, Hbefore, Hloop |- *.
  pose proof (_createNewProfile_created h s (cand i) guid) as Hc.
  set (p := new_address h) in *.
  apply (created_in_DuplicateProfile_settings h p guid (cand i) _ source) in Hc.
  set (h' := DuplicateProfile_settings _ _ _) in *.
  destruct (created_in_Name h p guid (cand i) _ h' Hc) as [Hname _].
  exists h', (with_profiles (_allProfiles s ++ [p]) (_activeProfiles s ++ [p]) s), p, i.
  split; [done |]. split; [unfold count, Size in Hi; lia |]. split; [done |].
  split.
  - intros q Hq. rewrite Forall_forall in Hall.
    destruct (created_in_frame rank h p guid (cand i) _ h' q Hg Hc (Hall q Hq)) as [Hq' _].
    split; [done |]. rewrite Hq', Hname. intros Heq.
    apply name_is_free_spec in Hifree. apply Hifree.
    apply list_elem_of_fmap. by exists q.
  - intros k Hk. apply name_is_free_false. apply Hbefore. lia.
Qed.
End CreationClaims.

Section Lookups.
Context `{Env}.
Variable rank : addr → nat.

Lemma created_in_lookups (h : heap) (s : CascadiaSettings) p g n h' :
  well_formed_graph h rank →
  Forall (λ a, is_Some (h !! a)) (_allProfiles s) →
  created_in h p g n (_baseLayerProfile s) h' →
  let s' := with_profiles (_allProfiles s ++ [p]) (_activeProfiles s ++ [p]) s in
  (∀ g', FindProfile h' s' g'
         = match FindProfile h s g' with
           | Some q => Some q
           | None => if bool_decide (g' = g) then Some p else None
           end)
  ∧ GetProfileByIndex s' (Size (_activeProfiles s)) = Some p
  ∧ ∀ i, (i < Size (_activeProfiles s))%N → GetProfileByIndex s' i = GetProfileByIndex s i.
Proof.
  intros Hg Hall Hc s'. split; [| split].
  - intros g'. unfold FindProfile. cbn [s' with_profiles _allProfiles].
    rewrite (find_app_ext (λ profile, bool_decide (Guid h profile = g'))).
    + destruct (List.find _ _); [done |].
      destruct (created_in_Name h p g n _ h' Hc) as [_ ->].
      repeat case_bool_decide; congruence.
    + intros q Hq. rewrite Forall_forall in Hall.
      by destruct (created_in_frame rank h p g n _ h' q Hg Hc (Hall q Hq)) as [_ ->].
  - unfold GetProfileByIndex, Size. cbn [s' with_profiles _activeProfiles].
    rewrite length_app. cbn [length].
    rewrite bool_decide_eq_true_2 by lia. rewrite Nat2N.id.
    by apply list_lookup_middle.
  - intros i Hi. unfold GetProfileByIndex, Size in *. cbn [s' with_profiles _activeProfiles].
    rewrite length_app. cbn [length].
    rewrite !bool_decide_eq_true_2 by lia.
    apply lookup_app_l. lia.
Qed.

(** A profile made by [CreateNewProfile] or [DuplicateProfile] is appended:
    every GUID that was found before is found as before, the new GUID finds
    the new profile unless an older profile has it, the new profile has the
    index that follows the old active profiles, and the old indices resolve as
    before. *)
Theorem created_profile_lookup (h : heap) (s : CascadiaSettings) (guid : guid) :
  well_formed_graph h rank →
  Forall (λ a, is_Some (h !! a)) (_allProfiles s) →
  let found := λ (h' : heap) (s' : CascadiaSettings) (p : addr),
    (∀ g, FindProfile h' s' g
          = match FindProfile h s g with
            | Some q => Some q
            | None => if bool_decide (g = guid) then Some p else None
            end)
    ∧ GetProfileByIndex s' (Size (_activeProfiles s)) = Some p
    ∧ ∀ i, (i < Size (_activeProfiles s))%N →
           GetProfileByIndex s' i = GetProfileByIndex s i in
  (∀ h' s' p, CreateNewProfile h s guid = (h', s', Some p) → found h' s' p)
  ∧ (∀ source h' s' d,
       DuplicateProfile h s (Some source) guid = Returned (h', s', d) → found h' s' d).
Proof.
  intros Hg Hall found. split.
  - intros h' s' p. unfold CreateNewProfile. case_bool_decide; [done |].
    set (name := CreateNewProfile_loop _ _ _ _ _ _).
    pose proof (_createNewProfile_created h s name guid) as Hc.
    rewrite _createNewProfile_eq in *. cbn [fst] in Hc.
    intros [= <- <- <-]. by apply (created_in_lookups h s _ guid name).
  - intros source h' s' d. rewrite DuplicateProfile_eq.
    set (name := DuplicateProfile_loop _ _ _ _ _ _).
    pose proof (_createNewProfile_created h s name guid) as Hc.
    apply (created_in_DuplicateProfile_settings h _ guid name _ source) in Hc.
    intros [= <- <- <-]. by apply (created_in_lookups h s _ guid name).
Qed.
End Lookups.

Section Duplication.
Context `{Env}.
Variable rank : addr → nat.

Lemma first_defined_Some {A B} (g : A → option B) (l : list A) y :
  first_defined g l = Some y → ∃ x, x ∈ l ∧ g x = Some y.
Proof.
  induction l as [|a l IH]; simpl; [done |].
  destruct (g a) as [z|] eqn:E.
  - intros [= <-]. exists a. split; [apply list_elem_of_here | done].
  - intros (x & Hx & Hy)%IH. exists x. split; [by apply list_elem_of_further | done].
Qed.

(** A value is provided by an object of the store that sets it. *)
Lemma lookup_inherited_Some_in {T} (sel : Profile → option T) fuel (h : heap) a o v :
  lookup_inherited sel fuel h a = Some (o, v) → ∃ p, h !! o = Some p ∧ sel p = Some v.
Proof.
  revert a. induction fuel as [|fuel IH]; intros a; simpl; [done |].
  destruct (h !! a) as [p|] eqn:Ha; [| done].
  destruct (sel p) as [w|] eqn:Hw.
  - intros [= <- <-]. by exists p.
  - intros (q & _ & Hq)%first_defined_Some. by eapply IH.
Qed.

Lemma override_source_extend {T} (sel : Profile → option T) (h h' : heap) a :
  well_formed_graph h rank → h ⊆ h' → is_Some (h !! a) →
  override_source sel h' a = override_source sel h a.
Proof.
  intros Hg Hsub [p Ha]. unfold override_source.
  rewrite (lookup_weaken _ _ _ _ Ha Hsub), Ha. f_equal.
  apply first_defined_ext. intros q Hq.
  destruct (graph_parent h rank Hg a p q Ha Hq) as [Hq0 Hr].
  rewrite (lookup_inherited_extend rank sel h h' (size h') q Hg Hsub Hq0).
  pose proof (graph_rank h rank Hg a p Ha).
  assert (size h ≤ size h') by (by apply map_subseteq_size).
  apply (lookup_inherited_fuel rank); [done | lia | lia].
Qed.

Lemma override_source_in {T} (sel : Profile → option T) (h : heap) a o :
  override_source sel h a = Some o → is_Some (h !! o).
Proof.
  unfold override_source. destruct (h !! a) as [p|]; [| done].
  destruct (first_defined _ _) as [[o' v]|] eqn:E; [| done].
  intros [= <-]. apply first_defined_Some in E as (q & _ & Hq).
  apply lookup_inherited_Some_in in Hq as (p' & Hp' & _). by eexists.
Qed.

Lemma NEEDS_DUPLICATION_extend (h h' : heap) pt k source :
  well_formed_graph h rank → h ⊆ h' → is_Some (h !! source) →
  NEEDS_DUPLICATION pt k h' source = NEEDS_DUPLICATION pt k h source
  ∧ get_setting pt k h' source = get_setting pt k h source.
Proof.
  intros Hg Hsub Hs. split.
  - unfold NEEDS_DUPLICATION, has_setting.
    rewrite (override_source_extend _ h h' source Hg Hsub Hs).
    destruct Hs as [p Hp]. rewrite (lookup_weaken _ _ _ _ Hp Hsub), Hp. f_equal.
    destruct (override_source _ h source) as [o|] eqn:Eo; [| done].
    apply override_source_in in Eo as [po Hpo]. simpl.
    by rewrite (lookup_weaken _ _ _ _ Hpo Hsub), Hpo.
  - unfold get_setting. by rewrite (resolve_extend rank _ h h' source Hg Hsub Hs).
Qed.

Lemma with_part_id pt p : with_part pt (λ m, m) p = p.
Proof. by destruct pt, p. Qed.

Lemma with_part_compose pt f g p :
  with_part pt g (with_part pt f p) = with_part pt (λ m, g (f m)) p.
Proof. by destruct pt, p. Qed.

Lemma part_map_with_part pt pt' f p :
  part_map pt (with_part pt' f p)
  = if decide (pt = pt') then f (part_map pt p) else part_map pt p.
Proof. by destruct pt, pt', p. Qed.

(** A run of [DUPLICATE_SETTING_MACRO] over a list of settings updates one map
    of the duplicate; what the source resolves to is read as in [h]. *)
Lemma foldl_DUPLICATE_SETTING_MACRO (h : heap) pt source d l h1 :
  well_formed_graph h rank → is_Some (h !! source) → h !! d = None → h ⊆ h1 →
  foldl (DUPLICATE_SETTING_MACRO pt source d) h1 l
  = alter (with_part pt (λ m, foldl (duplicate_into pt source h) m l)) d h1.
Proof.
  intros Hg Hs Hd. revert h1. induction l as [|k l IH]; intros h1 Hsub; cbn [foldl].
  - symmetry. apply alter_id. intros p _. apply with_part_id.
  - rewrite IH.
    + unfold DUPLICATE_SETTING_MACRO, duplicate_into.
      destruct (NEEDS_DUPLICATION_extend h h1 pt k source Hg Hsub Hs) as [-> ->].
      destruct (NEEDS_DUPLICATION pt k h source); [| done].
      unfold set_setting. rewrite alter_alter_eq. apply alter_ext.
      intros p _. simpl. by rewrite with_part_compose.
    + unfold DUPLICATE_SETTING_MACRO.
      destruct (NEEDS_DUPLICATION pt k h1 source); [| done].
      apply map_subseteq_spec. intros a p Ha. unfold set_setting.
      rewrite lookup_alter_ne by congruence. exact (lookup_weaken _ _ _ _ Ha Hsub).
Qed.

Lemma foldl_duplicate_into_lookup (h : heap) pt source l m k :
  foldl (duplicate_into pt source h) m l !! k
  = if bool_decide (k ∈ l) && NEEDS_DUPLICATION pt k h source
    then Some (get_setting pt k h source)
    else m !! k.
Proof.
  revert m. induction l as [|k0 l IH]; intros m; cbn [foldl].
  - by rewrite bool_decide_eq_false_2 by apply not_elem_of_nil.
  - rewrite IH. unfold duplicate_into.
    destruct (decide (k = k0)) as [-> | Hne].
    + rewrite (bool_decide_eq_true_2 (k0 ∈ k0 :: l)) by apply list_elem_of_here.
      destruct (NEEDS_DUPLICATION pt k0 h source); simpl.
      * rewrite andb_true_r. rewrite lookup_insert_eq. by case_bool_decide.
      * by rewrite andb_false_r.
    + assert (Hin : bool_decide (k ∈ k0 :: l) = bool_decide (k ∈ l)).
      { apply bool_decide_ext. rewrite elem_of_cons.
        split; [intros [? | ?]; done | by right]. }
      rewrite Hin. destruct (_ && _); [done |].
      destruct (NEEDS_DUPLICATION pt k0 h source); [| done].
      by rewrite lookup_insert_ne.
Qed.

Lemma subseteq_alter_fresh (h h1 : heap) d f :
  h !! d = None → h ⊆ h1 → h ⊆ alter f d h1.
Proof.
  intros Hd Hsub. apply map_subseteq_spec. intros a p Ha.
  rewrite lookup_alter_ne by congruence. exact (lookup_weaken _ _ _ _ Ha Hsub).
Qed.

Lemma ConnectionType_not_duplicated : "ConnectionType" ∉ duplicated_profile_settings.
Proof. refine (bool_decide_unpack _ _). vm_compute. exact I. Qed.

(** The duplicate after [DuplicateProfile_settings]: its parents are as
    [_createNewProfile] set them, and each of its three maps holds, for the
    settings of the list that goes with the map, what the run of
    [DUPLICATE_SETTING_MACRO] put there. *)
Lemma DuplicateProfile_settings_lookup (h : heap) source d h1 q0 :
  well_formed_graph h rank → is_Some (h !! source) → h !! d = None → h ⊆ h1 →
  h1 !! d = Some q0 →
  h ⊆ DuplicateProfile_settings source d h1
  ∧ ∃ q', DuplicateProfile_settings source d h1 !! d = Some q'
      ∧ parents q' = parents q0
      ∧ ∀ pt k, k ∈ duplicated_settings pt →
          part_map pt q' !! k
          = foldl (duplicate_into pt source h) (part_map pt q0) (duplicated_settings pt) !! k.
Proof.
  intros Hg Hs Hd Hsub Hq0. unfold DuplicateProfile_settings.
  rewrite (foldl_DUPLICATE_SETTING_MACRO h OfProfile source d _ h1 Hg Hs Hd Hsub).
  set (F1 := with_part OfProfile _). set (h2 := alter F1 d h1).
  assert (Hsub2 : h ⊆ h2) by (by apply subseteq_alter_fresh).
  rewrite (foldl_DUPLICATE_SETTING_MACRO h OfFont source d _ h2 Hg Hs Hd Hsub2).
  set (F2 := with_part OfFont _). set (h3 := alter F2 d h2).
  assert (Hsub3 : h ⊆ h3) by (by apply subseteq_alter_fresh).
  rewrite (foldl_DUPLICATE_SETTING_MACRO h OfAppearance source d _ h3 Hg Hs Hd Hsub3).
  set (F3 := with_part OfAppearance _). set (h4 := alter F3 d h3).
  assert (Hsub4 : h ⊆ h4) by (by apply subseteq_alter_fresh).
  assert (Hq4 : h4 !! d = Some (F3 (F2 (F1 q0)))).
  { unfold h4, h3, h2. by rewrite !lookup_alter_eq, Hq0. }
  set (h5 := duplicate_UnfocusedAppearance source d h4).
  assert (H5 : h ⊆ h5 ∧ ∃ u, h5 !! d = Some (with_unfocused u (F3 (F2 (F1 q0))))).
  { unfold h5, duplicate_UnfocusedAppearance. destruct (_ || _).
    - destruct (resolve UnfocusedAppearance h4 source) as [[o u]|].
      + split; [by apply subseteq_alter_fresh |]. exists (Some u).
        by rewrite lookup_alter_eq, Hq4.
      + split; [done |]. exists (UnfocusedAppearance (F3 (F2 (F1 q0)))).
        rewrite Hq4. by destruct (F3 (F2 (F1 q0))).
    - split; [done |]. exists (UnfocusedAppearance (F3 (F2 (F1 q0)))).
      rewrite Hq4. by destruct (F3 (F2 (F1 q0))). }
  destruct H5 as [Hsub5 [u Hq5]]. cbv zeta. fold h2 h3 h4 h5.
  assert (Hparts : ∀ pt k, k ∈ duplicated_settings pt →
            part_map pt (with_unfocused u (F3 (F2 (F1 q0)))) !! k
            = foldl (duplicate_into pt source h) (part_map pt q0)
                (duplicated_settings pt) !! k).
  { intros pt k _. unfold F1, F2, F3. by destruct pt, q0. }
  destruct (has_setting OfProfile "ConnectionType" h5 source).
  - split; [by apply subseteq_alter_fresh |].
    set (v := get_setting OfProfile "ConnectionType" h5 source).
    exists (with_part OfProfile (<["ConnectionType" := v]>)
              (with_unfocused u (F3 (F2 (F1 q0))))).
    split; [unfold set_setting; rewrite lookup_alter_eq, Hq5; reflexivity |].
    split; [unfold F1, F2, F3; destruct q0; reflexivity |].
    intros pt k Hk. rewrite <- (Hparts pt k Hk).
    rewrite part_map_with_part. case_decide as Hpt; [| reflexivity]. subst pt.
    apply lookup_insert_ne. intros <-. by apply ConnectionType_not_duplicated.
  - split; [exact Hsub5 |]. exists (with_unfocused u (F3 (F2 (F1 q0)))).
    split; [exact Hq5 |].
    split; [unfold F1, F2, F3; destruct q0; reflexivity | exact Hparts].
Qed.

(** [DuplicateProfile] gives the duplicate its own value of a duplicated
    setting exactly when the source sets the setting itself or inherits it
    from an object whose origin is not [ProfilesDefaults]; the value is then
    what the source resolves to.  A setting that is not copied resolves, for
    the duplicate, to what the base layer resolves to.  What the objects that
    were there resolve to is unchanged. *)
Theorem DuplicateProfile_copies_settings (h : heap) (s : CascadiaSettings)
    (source : addr) (guid : guid) :
  well_formed_graph h rank →
  is_Some (h !! source) →
  is_Some (h !! _baseLayerProfile s) →
  ∃ h' s' d,
    DuplicateProfile h s (Some source) guid = Returned (h', s', d)
    ∧ (∀ pt k, k ∈ duplicated_settings pt →
         has_setting pt k h' d = NEEDS_DUPLICATION pt k h source
         ∧ get_setting pt k h' d
           = if NEEDS_DUPLICATION pt k h source then get_setting pt k h source
             else get_setting pt k h (_baseLayerProfile s))
    ∧ (∀ pt k q, is_Some (h !! q) → get_setting pt k h' q = get_setting pt k h q).
Proof.
  intros Hg Hs Hb. rewrite DuplicateProfile_eq.
  set (name := DuplicateProfile_loop _ _ _ _ _ _).
  assert (Hfresh : h !! new_address h = None).
  { unfold new_address. apply not_elem_of_dom, is_fresh. }
  set (d := new_address h) in *.
  destruct (_createNewProfile_created h s name guid)
    as (Hsub1 & _ & q0 & Hq0 & _ & _ & _ & Hparents). fold d in Hq0.
  set (h1 := (_createNewProfile h s name guid).1) in *.
  assert (Hempty : ∀ pt, part_map pt q0 = ∅).
  { intros pt. unfold h1 in Hq0. rewrite _createNewProfile_eq in Hq0. cbn [fst] in Hq0.
    unfold CreateChild in Hq0. cbn [fst] in Hq0. fold d in Hq0.
    rewrite !lookup_alter_eq, lookup_insert_eq in Hq0.
    injection Hq0 as <-. by destruct pt. }
  destruct (DuplicateProfile_settings_lookup h source d h1 q0 Hg Hs Hfresh Hsub1 Hq0)
    as (Hsub & q' & Hq' & Hps & Hparts).
  set (h' := DuplicateProfile_settings source d h1) in *.
  eexists h', _, d. split; [reflexivity |]. clearbody h' h1 name. split.
  - intros pt k Hk.
    assert (Hown : part_map pt q' !! k
                   = if NEEDS_DUPLICATION pt k h source
                     then Some (get_setting pt k h source) else None).
    { rewrite (Hparts pt k Hk), foldl_duplicate_into_lookup, Hempty, lookup_empty.
      by rewrite (bool_decide_eq_true_2 _ Hk). }
    split.
    + unfold has_setting. rewrite Hq', Hown.
      destruct (NEEDS_DUPLICATION pt k h source).
      * by apply bool_decide_eq_true_2.
      * apply bool_decide_eq_false_2. by intros [? ?].
    + unfold get_setting at 1.
      destruct (NEEDS_DUPLICATION pt k h source).
      * by rewrite (resolve_own (λ p, part_map pt p !! k) h' d q' _ Hq' Hown).
      * unfold resolve.
        assert (Hlt : size h < size h').
        { apply map_subset_size. split; [done |]. intros Hsup.
          pose proof (lookup_weaken _ _ _ _ Hq' Hsup) as Hx.
          rewrite Hfresh in Hx. discriminate. }
        destruct (size h') as [|n] eqn:En; [lia |].
        cbn [lookup_inherited]. rewrite Hq', Hown, Hps, Hparents. cbn [first_defined foldr].
        rewrite (lookup_inherited_extend rank _ h h' n _ Hg Hsub Hb).
        destruct Hb as [pb Hb].
        pose proof (graph_rank h rank Hg _ pb Hb).
        rewrite (lookup_inherited_fuel rank _ h n (size h)) by (done || lia).
        unfold get_setting, resolve. by destruct (lookup_inherited _ _ _ _) as [[? ?]|].
  - intros pt k q Hq. unfold get_setting.
    by rewrite (resolve_extend rank _ h h' q Hg Hsub Hq).
Qed.
End Duplication.

Lemma example_graph : well_formed_graph example_heap example_rank.
Proof. unfold well_formed_graph. refine (bool_decide_unpack _ _). vm_compute. exact I. Qed.

Lemma example_profiles_exist :
  Forall (λ a, is_Some (example_heap !! a)) (_allProfiles example_settings).
Proof. repeat constructor; by eexists. Qed.

Lemma CreateNewProfile_unused_name_witness :
  well_formed_graph example_heap example_rank
  ∧ Forall (λ a, is_Some (example_heap !! a)) (_allProfiles example_settings)
  ∧ (Size (_allProfiles example_settings) < UINT32_MAX)%N
  ∧ ∃ h' s' p (i : nat),
      @CreateNewProfile example_env example_heap example_settings 77%N = (h', s', Some p)
      ∧ i ≤ length (_allProfiles example_settings)
      ∧ @Name example_env h' p
        = "Profile " +:+ pretty (wrap32 (Size (_allProfiles example_settings) + 1 + N.of_nat i))
      ∧ (∀ q, q ∈ _allProfiles example_settings →
           @Name example_env h' q = @Name example_env example_heap q
           ∧ @Name example_env h' q ≠ @Name example_env h' p).
Proof.
  split; [exact example_graph |]. split; [exact example_profiles_exist |].
  split; [reflexivity |].
  destruct (@CreateNewProfile_unused_name example_env example_rank example_heap
              example_settings 77%N example_graph example_profiles_exist eq_refl)
    as (h' & s' & p & i & H1 & H2 & H3 & H4 & _).
  exists h', s', p, i. repeat (split; [assumption |]). assumption.
Defined.

Lemma DuplicateProfile_unused_name_witness :
  well_formed_graph example_heap example_rank
  ∧ Forall (λ a, is_Some (example_heap !! a)) (_allProfiles example_settings)
  ∧ (Size (_allProfiles example_settings) < UINT32_MAX)%N
  ∧ ∃ h' s' d (i : nat),
      @DuplicateProfile example_env example_heap example_settings (Some 2%positive) 77%N
      = Returned (h', s', d)
      ∧ i ≤ length (_allProfiles example_settings)
      ∧ @Name example_env h' d
        = @DuplicateProfile_candidate example_env
            (@Name example_env example_heap 2%positive) i
      ∧ (∀ q, q ∈ _allProfiles example_settings →
           @Name example_env h' q = @Name example_env example_heap q
           ∧ @Name example_env h' q ≠ @Name example_env h' d).
Proof.
  split; [exact example_graph |]. split; [exact example_profiles_exist |].
  split; [reflexivity |].
  destruct (@DuplicateProfile_unused_name example_env example_rank example_heap
              example_settings 2%positive 77%N example_graph example_profiles_exist eq_refl)
    as (h' & s' & d & i & H1 & H2 & H3 & H4 & _).
  exists h', s', d, i. repeat (split; [assumption |]). assumption.
Defined.

Lemma created_profile_lookup_witness :
  well_formed_graph example_heap example_rank
  ∧ Forall (λ a, is_Some (example_heap !! a)) (_allProfiles example_settings)
  ∧ let r := @CreateNewProfile example_env example_heap example_settings 77%N in
    r.2 = Some 5%positive
    ∧ @FindProfile example_env r.1.1 r.1.2 77%N = Some 5%positive
    ∧ @FindProfile example_env r.1.1 r.1.2 2%N = Some 3%positive
    ∧ GetProfileByIndex r.1.2 2%N = Some 5%positive.
Proof.
  split; [exact example_graph |]. split; [exact example_profiles_exist |].
  pose proof (proj1 (@created_profile_lookup example_env example_rank example_heap
                       example_settings 77%N example_graph example_profiles_exist)
                (@CreateNewProfile example_env example_heap example_settings 77%N).1.1
                (@CreateNewProfile example_env example_heap example_settings 77%N).1.2
                5%positive eq_refl) as (Hfind & Hidx & _).
  cbv zeta. split; [reflexivity |].
  split; [exact (Hfind 77%N) |]. split; [exact (Hfind 2%N) | exact Hidx].
Defined.

Lemma DuplicateProfile_copies_settings_witness :
  well_formed_graph example_heap example_rank
  ∧ is_Some (example_heap !! 2%positive)
  ∧ is_Some (example_heap !! _baseLayerProfile example_settings)
  ∧ ∃ h' s' d,
      @DuplicateProfile example_env example_heap example_settings (Some 2%positive) 77%N
      = Returned (h', s', d)
      ∧ @has_setting OfProfile "Commandline" h' d = true
      ∧ @get_setting example_env OfProfile "Commandline" h' d = "a.exe"
      ∧ @has_setting OfProfile "Icon" h' d = false.
Proof.
  split; [exact example_graph |]. split; [by eexists |]. split; [by eexists |].
  destruct (@DuplicateProfile_copies_settings example_env example_rank example_heap
              example_settings 2%positive 77%N example_graph
              (ex_intro _ _ eq_refl) (ex_intro _ _ eq_refl))
    as (h' & s' & d & H1 & H2 & _).
  exists h', s', d. split; [exact H1 |].
  destruct (H2 OfProfile "Commandline") as [Hc1 Hc2].
  { refine (bool_decide_unpack _ _). vm_compute. exact I. }
  destruct (H2 OfProfile "Icon") as [Hi1 _].
  { refine (bool_decide_unpack _ _). vm_compute. exact I. }
  split; [exact Hc1 |]. split; [exact Hc2 | exact Hi1].
Defined.

(** ** The callers of the resolution *)

Section CallerFacts.
Context `{Env}.

(** A request that is absent and a request that carries nothing resolve
    alike: to the profile that has the GUID of the default profile, with the
    feature that shows the base layer or without it. *)
Theorem GetProfileForArgs_empty_request (h : heap) (s : CascadiaSettings) :
  GetProfileForArgs h s None
  = (Returned (FindProfile h s (DefaultProfile (_globals s))), s)
  ∧ GetProfileForArgs h s (Some (NewTerminalArgs.mk "" None ""))
    = GetProfileForArgs h s None.
Proof.
  unfold GetProfileForArgs, by_name, by_index, by_commandline, default_branch. simpl.
  by destruct Feature_ShowProfileDefaultsInSettings.
Qed.

Lemma _CreateNewTabFlyout_loop_eq (s : CascadiaSettings) (todo : nat) (i : nat) :
  i + todo = length (_activeProfiles s) →
  (Z.of_nat (length (_activeProfiles s)) < 2147483648)%Z →
  _CreateNewTabFlyout_loop s todo (Z.of_nat i) (Z.of_nat (length (_activeProfiles s)))
  = Returned (imap (λ k profile, (profile, NewTerminalArgs_of_index (Z.of_nat (i + k))))
                (drop i (_activeProfiles s))).
Proof.
  revert i. induction todo as [|todo IH]; intros i Hlen Hsmall; cbn [_CreateNewTabFlyout_loop].
  - by rewrite drop_ge by lia.
  - rewrite bool_decide_eq_true_2 by lia.
    destruct (lookup_lt_is_Some_2 (_activeProfiles s) i) as [profile Hp]; [lia |].
    unfold GetAt, to_uint32.
    replace (N.to_nat (Z.to_N (Z.of_nat i mod 4294967296))) with i
      by (rewrite Z.mod_small by lia; lia).
    rewrite Hp. cbn [obind].
    replace (Z.of_nat i + 1)%Z with (Z.of_nat (S i)) by lia.
    rewrite IH by lia. cbn [obind].
    rewrite (drop_S _ _ _ Hp). cbn [imap]. rewrite Nat.add_0_r. do 2 f_equal.
    apply imap_ext. intros k x _. cbn. do 3 f_equal. lia.
Qed.

(** Every item of the new tab menu opens the profile it shows: the items are
    the active profiles in order, and the request of each item resolves to the
    profile of the item. *)
Theorem _CreateNewTabFlyout_opens_shown_profile (h : heap) (s : CascadiaSettings) :
  (Size (_activeProfiles s) < 2147483648)%N →
  ∃ items,
    _CreateNewTabFlyout s = Returned items
    ∧ items.*1 = _activeProfiles s
    ∧ ∀ profile args, (profile, args) ∈ items →
        GetProfileForArgs h s (Some args) = (Returned (Some profile), s).
Proof.
  intros Hsmall. unfold Size in Hsmall. unfold _CreateNewTabFlyout, narrow_cast_int, Size.
  rewrite bool_decide_eq_true_2 by lia. rewrite nat_N_Z, Nat2Z.id.
  change 0%Z with (Z.of_nat 0).
  rewrite _CreateNewTabFlyout_loop_eq by lia. rewrite drop_0.
  eexists. split; [reflexivity |]. split.
  - apply list_eq. intros k. rewrite list_lookup_fmap, list_lookup_imap.
    by destruct (_activeProfiles s !! k).
  - intros profile args (k & p & [= -> ->] & Hk)%elem_of_lookup_imap_1.
    pose proof (lookup_lt_Some _ _ _ Hk) as Hlt.
    unfold GetProfileForArgs, by_name, by_index, NewTerminalArgs_of_index. simpl.
    unfold narrow_uint32. rewrite bool_decide_eq_true_2 by lia. simpl.
    unfold GetProfileByIndex, Size. rewrite bool_decide_eq_true_2 by lia.
    by rewrite Z_N_nat, Nat2Z.id, Hk.
Qed.

(** [GetClosestProfileForDuplicationOfProfile] returns the profile it is
    given unless that is the base layer, for which it returns the profile with
    the GUID of the default profile; when the base layer is not in the list of
    profiles the result is never the base layer. *)
Theorem GetClosestProfileForDuplicationOfProfile_not_base (h : heap)
    (s : CascadiaSettings) (profile : option addr) :
  _baseLayerProfile s ∉ _allProfiles s →
  GetClosestProfileForDuplicationOfProfile h s profile ≠ Some (_baseLayerProfile s)
  ∧ (profile ≠ Some (_baseLayerProfile s) →
     GetClosestProfileForDuplicationOfProfile h s profile = profile)
  ∧ (profile = Some (_baseLayerProfile s) →
     GetClosestProfileForDuplicationOfProfile h s profile
     = FindProfile h s (DefaultProfile (_globals s))).
Proof.
  intros Hbase. unfold GetClosestProfileForDuplicationOfProfile, ProfileDefaults.
  split; [| split].
  - case_bool_decide as Hp; [| done].
    intros [Hin _]%FindProfile_Some. done.
  - intros Hp. by rewrite bool_decide_eq_false_2.
  - intros Hp. by rewrite bool_decide_eq_true_2.
Qed.

Lemma find_snoc {A} (f : A → bool) (l : list A) (x : A) :
  List.find f (l ++ [x])
  = match List.find f l with
    | Some y => Some y
    | None => if f x then Some x else None
    end.
Proof. induction l as [|a l IH]; simpl; [done |]. by destruct (f a). Qed.

Lemma profileGuidSettingsMap_foldl (h : heap) (l : list addr) (m : gmap N addr) g :
  foldl (λ m newProfile, <[Guid h newProfile := newProfile]> m) m l !! g
  = match List.find (λ profile, bool_decide (Guid h profile = g)) (reverse l) with
    | Some p => Some p
    | None => m !! g
    end.
Proof.
  revert m. induction l as [|a l IH]; intros m; cbn [foldl]; [done |].
  rewrite IH, reverse_cons, find_snoc.
  destruct (List.find _ (reverse l)) as [p|]; [done |].
  case_bool_decide as Hg.
  - subst g. apply lookup_insert_eq.
  - by apply lookup_insert_ne.
Qed.

(** The GUID map of [_RefreshUIForSettingsReload] holds, for a GUID, the last
    profile of the list that has it, and the base layer for its own GUID when
    no profile has that; when the profiles have pairwise different GUIDs it
    finds what [FindProfile] finds. *)
Theorem profileGuidSettingsMap_lookup (h : heap) (s : CascadiaSettings) (g : guid) :
  profileGuidSettingsMap h s !! g
  = match List.find (λ profile, bool_decide (Guid h profile = g))
            (reverse (_allProfiles s)) with
    | Some p => Some p
    | None => if bool_decide (Guid h (_baseLayerProfile s) = g)
              then Some (_baseLayerProfile s) else None
    end
  ∧ (NoDup (Guid h <$> _allProfiles s) →
     profileGuidSettingsMap h s !! g
     = match FindProfile h s g with
       | Some p => Some p
       | None => if bool_decide (Guid h (_baseLayerProfile s) = g)
                 then Some (_baseLayerProfile s) else None
       end).
Proof.
  assert (Hmap : profileGuidSettingsMap h s !! g
                 = match List.find (λ profile, bool_decide (Guid h profile = g))
                           (reverse (_allProfiles s)) with
                   | Some p => Some p
                   | None => if bool_decide (Guid h (_baseLayerProfile s) = g)
                             then Some (_baseLayerProfile s) else None
                   end).
  { unfold profileGuidSettingsMap, ProfileDefaults. rewrite profileGuidSettingsMap_foldl.
    destruct (List.find _ _); [done |].
    case_bool_decide as Hg.
    - subst g. apply lookup_singleton_eq.
    - by apply lookup_singleton_ne. }
  split; [exact Hmap |].
  intros Hnd. rewrite Hmap. unfold FindProfile.
  assert (Hfind : ∀ l : list addr, NoDup (Guid h <$> l) →
            List.find (λ profile, bool_decide (Guid h profile = g)) (reverse l)
            = List.find (λ profile, bool_decide (Guid h profile = g)) l).
  { clear. intros l Hnd. induction l as [|a l IH]; [done |].
    rewrite fmap_cons in Hnd. apply NoDup_cons in Hnd as [Ha Hnd].
    rewrite reverse_cons, find_snoc, (IH Hnd). simpl.
    case_bool_decide as Hg; [| by destruct (List.find _ l)].
    destruct (List.find _ l) as [q|] eqn:E; [| done].
    apply find_elem_of in E as [Hq Hgq]. apply bool_decide_eq_true in Hgq.
    exfalso. apply Ha. apply list_elem_of_fmap. exists q. split; [congruence | done]. }
  by rewrite (Hfind _ Hnd).
Qed.
End CallerFacts.

Lemma _CreateNewTabFlyout_opens_shown_profile_witness :
  (Size (_activeProfiles example_settings) < 2147483648)%N
  ∧ _CreateNewTabFlyout example_settings
    = Returned [(2%positive, NewTerminalArgs_of_index 0);
                (3%positive, NewTerminalArgs_of_index 1)]
  ∧ ∃ items,
      _CreateNewTabFlyout example_settings = Returned items
      ∧ items.*1 = _activeProfiles example_settings
      ∧ ∀ profile args, (profile, args) ∈ items →
          @GetProfileForArgs example_env example_heap example_settings (Some args)
          = (Returned (Some profile), example_settings).
Proof.
  split; [reflexivity |]. split; [reflexivity |].
  exact (@_CreateNewTabFlyout_opens_shown_profile example_env example_heap
           example_settings eq_refl).
Defined.

Lemma GetClosestProfileForDuplicationOfProfile_not_base_witness :
  (_baseLayerProfile example_settings ∉ _allProfiles example_settings)
  ∧ @GetClosestProfileForDuplicationOfProfile example_env example_heap example_settings
      (Some 1%positive)
    = Some 3%positive
  ∧ (@GetClosestProfileForDuplicationOfProfile example_env example_heap example_settings
       (Some 1%positive)
     ≠ Some (_baseLayerProfile example_settings)).
Proof.
  assert (Hbase : _baseLayerProfile example_settings ∉ _allProfiles example_settings).
  { refine (bool_decide_unpack _ _). vm_compute. exact I. }
  split; [exact Hbase |]. split; [reflexivity |].
  exact (proj1 (@GetClosestProfileForDuplicationOfProfile_not_base example_env
                  example_heap example_settings (Some 1%positive) Hbase)).
Defined.

(** ** The cache and the normal form of a command line *)

Section CacheFacts.
Context `{Env}.

Lemma fill_cache_app (h : heap) (profiles : list addr) (cache : list (string * addr)) :
  fill_cache h profiles cache
  = ((cache ++ (fill_cache h profiles []).1)%list, (fill_cache h profiles []).2).
Proof.
  revert cache. induction profiles as [|profile profiles IH]; intros cache; simpl.
  - by rewrite app_nil_r.
  - case_bool_decide; [| apply IH].
    destruct (_normalizeCommandLine (Commandline h profile)) as [n|e]; simpl.
    + rewrite (IH (cache ++ [(n, profile)])), (IH [(n, profile)]). simpl.
      by rewrite <- app_assoc.
    + by rewrite app_nil_r.
Qed.

Lemma fill_cache_profiles (h : heap) (profiles : list addr) :
  Forall (λ e, e.2 ∈ profiles) (fill_cache h profiles []).1.
Proof.
  induction profiles as [|profile profiles IH]; simpl; [constructor |].
  assert (Hweak : Forall (λ e : string * addr, e.2 ∈ profile :: profiles)
                    (fill_cache h profiles []).1).
  { eapply Forall_impl; [exact IH |]. intros e He. by apply list_elem_of_further. }
  case_bool_decide; [| done].
  destruct (_normalizeCommandLine (Commandline h profile)) as [n|e]; simpl; [| constructor].
  rewrite fill_cache_app. simpl. constructor; [apply list_elem_of_here | done].
Qed.

Lemma search_cache_elem_of cache needle p :
  search_cache cache needle = Some p → ∃ n, (n, p) ∈ cache.
Proof.
  unfold search_cache. destruct (List.find _ _) as [[n q]|] eqn:E; [| done].
  intros [= <-]. apply find_elem_of in E as [Hin _]. exists n.
  eapply elem_of_sublist; [exact Hin | apply sublist_drop].
Qed.

(** After a failed build of the cache the flag is not set and the entries
    made before the failure are kept; the next resolution runs the build
    again, which fails in the same way and leaves those entries a second
    time. *)
Theorem _getProfileForCommandLine_failed_build (h : heap) (s s1 : CascadiaSettings)
    (commandLine : string) (e : exn) :
  _commandLinesCacheOnce s = false →
  _getProfileForCommandLine h s commandLine = (Thrown e, s1) →
  _commandLinesCacheOnce s1 = false →
  ∃ added,
    _commandLinesCache s1 = (_commandLinesCache s ++ added)%list
    ∧ _getProfileForCommandLine h s1 commandLine
      = (Thrown e, with_cache false (_commandLinesCache s1 ++ added) s1).
Proof.
  intros Honce. unfold _getProfileForCommandLine at 1, build_cache_once at 1.
  rewrite Honce, fill_cache_app.
  destruct (fill_cache h (_allProfiles s) []) as [added [e'|]] eqn:E; cbn [fst snd].
  - intros [= <- <-] _. exists added. split; [done |].
    unfold _getProfileForCommandLine, build_cache_once.
    cbn [with_cache _commandLinesCacheOnce _commandLinesCache _allProfiles].
    by rewrite fill_cache_app, E.
  - destruct (_normalizeCommandLine commandLine); simpl; [intros [=] |].
    intros [= <- <-]. cbn. discriminate.
Qed.

(** A resolution returns a profile of the settings object: one of the
    profiles, or the base layer; and it leaves the profile lists as they
    are. *)
Theorem GetProfileForArgs_known_profile (h : heap) (s s' : CascadiaSettings)
    (newTerminalArgs : option NewTerminalArgs.t) (p : addr) :
  Forall (λ e, e.2 ∈ _allProfiles s) (_commandLinesCache s) →
  GetProfileForArgs h s newTerminalArgs = (Returned (Some p), s') →
  (p ∈ _allProfiles s ∨ p ∈ _activeProfiles s ∨ p = _baseLayerProfile s)
  ∧ _allProfiles s' = _allProfiles s
  ∧ _activeProfiles s' = _activeProfiles s
  ∧ Forall (λ e, e.2 ∈ _allProfiles s') (_commandLinesCache s').
Proof.
  intros Hcache.
  assert (Hdef : ∀ a, default_branch h s a = Some p →
                      p ∈ _allProfiles s ∨ p ∈ _activeProfiles s ∨ p = _baseLayerProfile s).
  { intros a. unfold default_branch, ProfileDefaults.
    destruct Feature_ShowProfileDefaultsInSettings.
    - destruct (match a with Some _ => _ | None => _ end).
      + intros [Hin _]%FindProfile_Some. by left.
      + intros [= <-]. by right; right.
    - intros [Hin _]%FindProfile_Some. by left. }
  unfold GetProfileForArgs. destruct newTerminalArgs as [args|].
  2:{ intros [= Hp <-]. split; [by apply (Hdef None) | done]. }
  destruct (by_name h s args) as [[q|]|e] eqn:En.
  { intros [= <- <-]. split; [| done]. left.
    unfold by_name in En. case_bool_decide; [| done].
    unfold GetProfileByName in En. case_bool_decide; [| done].
    destruct (_ && _); simpl in En.
    - destruct (GuidFromString _) as [g|]; simpl in En; [| done].
      destruct (FindProfile h s g) as [q'|] eqn:Ef.
      + injection En as <-. by apply FindProfile_Some in Ef as [? _].
      + injection En as En. by apply find_elem_of in En as [? _].
    - injection En as En. by apply find_elem_of in En as [? _]. }
  2:{ intros [=]. }
  destruct (by_index s args) as [[q|]|e] eqn:Ei.
  { intros [= <- <-]. split; [| done]. right; left.
    unfold by_index in Ei. destruct (NewTerminalArgs.ProfileIndex args) as [i|]; [| done].
    destruct (narrow_uint32 i) as [n|]; simpl in Ei; [| done].
    injection Ei as Ei. unfold GetProfileByIndex in Ei. case_bool_decide; [| done].
    by eapply list_elem_of_lookup_2. }
  2:{ intros [=]. }
  destruct (by_commandline h s args) as [[[q|]|e] s1] eqn:Ec.
  3:{ intros [=]. }
  - intros [= <- <-]. unfold by_commandline in Ec. case_bool_decide; [| discriminate Ec].
    unfold _getProfileForCommandLine, build_cache_once in Ec.
    destruct (_commandLinesCacheOnce s) eqn:Eo.
    + destruct (_normalizeCommandLine _) as [needle|]; simpl in Ec; [| done].
      injection Ec as Es <-.
      apply search_cache_elem_of in Es as [n Hn]. split; [| done].
      left. rewrite Forall_forall in Hcache. apply (Hcache _ Hn).
    + rewrite fill_cache_app in Ec.
      pose proof (fill_cache_profiles h (_allProfiles s)) as Hnew.
      destruct (fill_cache h (_allProfiles s) []) as [added [e'|]]; cbn [fst snd] in *;
        [done |].
      destruct (_normalizeCommandLine _) as [needle|]; simpl in Ec; [| done].
      injection Ec as Es <-. cbn [with_cache _allProfiles _activeProfiles _commandLinesCache].
      assert (Hall : Forall (λ e : string * addr, e.2 ∈ _allProfiles s)
                       (stable_sort (_commandLinesCache s ++ added))).
      { rewrite stable_sort_Permutation. by apply Forall_app. }
      split; [| done]. left.
      apply search_cache_elem_of in Es as [n Hn]. rewrite Forall_forall in Hall.
      apply (Hall _ Hn).
  - destruct (by_commandline_shape _ _ _ _ _ Ec) as (once & c & ->).
    rewrite default_branch_with_cache. intros [= Hp <-].
    split; [exact (Hdef _ Hp) |]. split; [reflexivity |]. split; [reflexivity |].
    unfold by_commandline in Ec. case_bool_decide.
    2:{ injection Ec as Ec. rewrite <- Ec. exact Hcache. }
    unfold _getProfileForCommandLine, build_cache_once in Ec.
    destruct (_commandLinesCacheOnce s) eqn:Eo.
    + destruct (_normalizeCommandLine _) as [needle|]; simpl in Ec; [| done].
      injection Ec as _ Ec. rewrite <- Ec. exact Hcache.
    + rewrite fill_cache_app in Ec.
      pose proof (fill_cache_profiles h (_allProfiles s)) as Hnew.
      destruct (fill_cache h (_allProfiles s) []) as [added [e'|]]; cbn [fst snd] in *;
        [done |].
      destruct (_normalizeCommandLine _) as [needle|]; simpl in Ec; [| done].
      injection Ec as _ <- <-.
      cbn [with_cache _allProfiles _commandLinesCache].
      rewrite stable_sort_Permutation. by apply Forall_app.
Qed.
End CacheFacts.

Section Normalisation.
Context `{Env}.

Lemma resolve_executable_never_found (arg0 arg1 : string) (argc : nat) (merged : bool)
    (normalized : string) :
  (∀ file out, SearchPathW file out = (ERROR_FILE_NOT_FOUND, out)) →
  ∃ merged', resolve_executable arg0 arg1 (S argc) merged normalized
             = Returned (normalized, 1, merged').
Proof.
  intros Hnone. revert merged.
  induction argc as [|argc IH]; intros merged; cbn [resolve_executable]; rewrite Hnone.
  - exists merged. reflexivity.
  - rewrite bool_decide_eq_true_2 by done. exact (IH true).
Qed.

Lemma string_app_nil_r (s : string) : s +:+ "" = s.
Proof.
  induction s as [|c s IH]; [done |].
  change (String c (s +:+ "") = String c s). by f_equal.
Qed.

Lemma _normalizeCommandLine_found (commandLine normalized arg0 found path : string)
    (rest : list string) :
  ExpandEnvironmentStringsW commandLine = Returned normalized →
  CommandLineToArgvW normalized = arg0 :: rest →
  SearchPathW arg0 normalized = (S_OK, found) → canonical found = Returned path →
  _normalizeCommandLine commandLine = Returned (path +:+ appended_arguments NUL rest).
Proof.
  intros Hexp Hargv Hfound Hpath. unfold _normalizeCommandLine. rewrite Hexp. cbn [obind].
  rewrite Hargv.
  assert (Hr : resolve_executable arg0 (hd "" rest) (S (length rest)) false normalized
               = Returned (path, S (length rest), false)).
  { cbn [resolve_executable]. by rewrite Hfound, Hpath. }
  rewrite Hr. cbn [obind]. destruct rest as [|arg1 rest'].
  - rewrite bool_decide_eq_false_2 by (simpl; lia). simpl. by rewrite string_app_nil_r.
  - rewrite bool_decide_eq_true_2 by (simpl; lia).
    replace (S (length (arg1 :: rest')) - 1) with (length (arg1 :: rest')) by lia.
    by rewrite firstn_all.
Qed.

(** What [_normalizeCommandLine] returns for a command line that expands to
    [normalized] and is split into [arg0 :: rest]: when the first argument is
    found, the canonical path followed by the other arguments, each after a
    NUL; when the search fails for another reason than a file that is not
    found, or there is one argument only, the buffer the search left, followed
    by the other arguments; when the first argument is not found but the first
    two joined by a space are, the canonical path, and then, after a space,
    the second argument and the further ones but the last; and when no search
    finds a file, the expanded command line and no argument at all. *)
Theorem _normalizeCommandLine_cases (commandLine normalized arg0 : string)
    (rest : list string) :
  ExpandEnvironmentStringsW commandLine = Returned normalized →
  CommandLineToArgvW normalized = arg0 :: rest →
  (∀ found path,
     SearchPathW arg0 normalized = (S_OK, found) → canonical found = Returned path →
     _normalizeCommandLine commandLine = Returned (path +:+ appended_arguments NUL rest))
  ∧ (∀ status buffer,
       SearchPathW arg0 normalized = (status, buffer) → status ≠ S_OK →
       status ≠ ERROR_FILE_NOT_FOUND ∨ rest = [] →
       _normalizeCommandLine commandLine
       = Returned (buffer +:+ appended_arguments NUL rest))
  ∧ (∀ buffer arg1 rest' found path,
       rest = arg1 :: rest' →
       SearchPathW arg0 normalized = (ERROR_FILE_NOT_FOUND, buffer) →
       SearchPathW (arg0 +:+ " " +:+ arg1) buffer = (S_OK, found) →
       canonical found = Returned path →
       _normalizeCommandLine commandLine
       = Returned (path +:+ appended_arguments " " (take (length rest') rest)))
  ∧ ((∀ file out, SearchPathW file out = (ERROR_FILE_NOT_FOUND, out)) →
     _normalizeCommandLine commandLine = Returned normalized).
Proof.
  intros Hexp Hargv. split.
  { intros found path. by apply _normalizeCommandLine_found. }
  unfold _normalizeCommandLine. rewrite Hexp. cbn [obind].
  rewrite Hargv. split; [| split].
  - intros status buffer Hstatus Hnot Hstop.
    assert (Hr : resolve_executable arg0 (hd "" rest) (S (length rest)) false normalized
                 = Returned (buffer, S (length rest), false)).
    { cbn [resolve_executable]. rewrite Hstatus.
      destruct Hstop as [Hother | ->].
      - destruct status; [done | done |]. destruct rest; done.
      - by destruct status. }
    rewrite Hr. cbn [obind]. destruct rest as [|arg1 rest'].
    + rewrite bool_decide_eq_false_2 by (simpl; lia). simpl. by rewrite string_app_nil_r.
    + rewrite bool_decide_eq_true_2 by (simpl; lia).
      replace (S (length (arg1 :: rest')) - 1) with (length (arg1 :: rest')) by lia.
      by rewrite firstn_all.
  - intros buffer arg1 rest' found path -> Hnone Hfound Hpath.
    assert (Hr : resolve_executable arg0 arg1 (S (S (length rest'))) false normalized
                 = Returned (path, S (length rest'), true)).
    { cbn [resolve_executable]. rewrite Hnone.
      rewrite bool_decide_eq_true_2 by done.
      destruct rest'; cbn [resolve_executable length]; by rewrite Hfound, Hpath. }
    cbn [hd length]. rewrite Hr. cbn [obind].
    replace (S (length rest') - 1) with (length rest') by lia.
    destruct rest' as [|arg2 rest''].
    + rewrite bool_decide_eq_false_2 by (simpl; lia). simpl. by rewrite string_app_nil_r.
    + by rewrite bool_decide_eq_true_2 by (simpl; lia).
  - intros Hnone.
    destruct (resolve_executable_never_found arg0 (hd "" rest) (length rest) false
                normalized Hnone) as [merged ->].
    cbn [obind]. by rewrite bool_decide_eq_false_2 by lia.
Qed.

Lemma prefix_app (p s : string) : String.prefix p (p +:+ s) = true.
Proof.
  induction p as [|c p IH]; [by destruct s |].
  change (String.prefix (String c p) (String c (p +:+ s)) = true). simpl.
  by destruct (ascii_dec c c).
Qed.

(** On a settings object whose cache is not built yet, or was built from the
    profiles as they are, and when no command line of a profile fails to
    normalise: a listed profile whose command line is an executable alone
    matches every request that runs the same executable with arguments.  The
    resolution of such a request returns a profile, one whose normal form is a
    prefix of that of the request and is at least as long as the path of the
    executable. *)
Theorem _getProfileForCommandLine_executable_alone (h : heap) (s : CascadiaSettings)
    (p : addr) (commandLine expandedProfile expandedRequest exe found path : string)
    (arguments : list string) :
  cache_current h s →
  Forall (λ profile, Commandline h profile ≠ "" →
                     normalizes (Commandline h profile) = true) (_allProfiles s) →
  p ∈ _allProfiles s → Commandline h p ≠ "" →
  ExpandEnvironmentStringsW (Commandline h p) = Returned expandedProfile →
  CommandLineToArgvW expandedProfile = [exe] →
  ExpandEnvironmentStringsW commandLine = Returned expandedRequest →
  CommandLineToArgvW expandedRequest = exe :: arguments →
  (∀ out, SearchPathW exe out = (S_OK, found)) →
  canonical found = Returned path →
  ∃ q n,
    (_getProfileForCommandLine h s commandLine).1 = Returned (Some q)
    ∧ q ∈ _allProfiles s ∧ declares h q n
    ∧ starts_with (path +:+ appended_arguments NUL arguments) n = true
    ∧ String.length path ≤ String.length n.
Proof.
  intros Hcache Hall Hp Hcmd Hexp1 Hargv1 Hexp2 Hargv2 Hfound Hpath.
  pose proof (_normalizeCommandLine_found _ _ _ _ _ _ Hexp1 Hargv1 (Hfound _) Hpath) as Hn1.
  pose proof (_normalizeCommandLine_found _ _ _ _ _ _ Hexp2 Hargv2 (Hfound _) Hpath) as Hn2.
  cbn [appended_arguments] in Hn1. rewrite string_app_nil_r in Hn1.
  set (needle := path +:+ appended_arguments NUL arguments) in *.
  rewrite (_getProfileForCommandLine_find h s commandLine needle Hcache Hall Hn2).
  cbn [fst].
  set (cache := stable_sort (omap (cache_entry h) (_allProfiles s))).
  assert (Hmem : ∀ n q, (n, q) ∈ cache ↔ q ∈ _allProfiles s ∧ declares h q n).
  { intros n q. unfold cache. rewrite stable_sort_Permutation.
    apply elem_of_cache_entries. }
  assert (Hin : (path, p) ∈ cache) by (by apply Hmem).
  assert (Hpre : starts_with needle (path, p).1 = true) by apply prefix_app.
  destruct (find_exists (λ it, starts_with needle it.1) cache (path, p) Hin Hpre)
    as [[n q] Hfind].
  rewrite Hfind. exists q, n. split; [done |].
  pose proof (find_elem_of _ _ _ Hfind) as [Hq Hqpre].
  apply Hmem in Hq as [Hq Hdecl]. split; [done |]. split; [done |]. split; [done |].
  exact (find_sorted_longest _ _ _ (stable_sort_sorted _) Hfind (path, p) Hin Hpre).
Qed.
End Normalisation.

Lemma _getProfileForCommandLine_failed_build_witness :
  _commandLinesCacheOnce example_settings = false
  ∧ @_getProfileForCommandLine failing_env example_heap example_settings "a.exe"
    = (Thrown hresult_error, failed_once)
  ∧ _commandLinesCacheOnce failed_once = false
  ∧ _commandLinesCache failed_once = [("a.exe", 2%positive)]
  ∧ ∃ added,
      _commandLinesCache failed_once = (_commandLinesCache example_settings ++ added)%list
      ∧ @_getProfileForCommandLine failing_env example_heap failed_once "a.exe"
        = (Thrown hresult_error,
           with_cache false (_commandLinesCache failed_once ++ added) failed_once).
Proof.
  split; [reflexivity |]. split; [reflexivity |]. split; [reflexivity |].
  split; [reflexivity |].
  exact (@_getProfileForCommandLine_failed_build failing_env example_heap
           example_settings failed_once "a.exe" hresult_error eq_refl eq_refl eq_refl).
Defined.

Lemma GetProfileForArgs_known_profile_witness :
  Forall (λ e, e.2 ∈ _allProfiles example_settings) (_commandLinesCache example_settings)
  ∧ (@GetProfileForArgs example_env example_heap example_settings
       (example_request "" None "a.exe -x -y")).1 = Returned (Some 3%positive)
  ∧ (3%positive ∈ _allProfiles example_settings
     ∨ 3%positive ∈ _activeProfiles example_settings
     ∨ 3%positive = _baseLayerProfile example_settings).
Proof.
  split; [constructor |]. split; [reflexivity |].
  exact (proj1 (@GetProfileForArgs_known_profile example_env example_heap example_settings
                  (@GetProfileForArgs example_env example_heap example_settings
                     (example_request "" None "a.exe -x -y")).2
                  (example_request "" None "a.exe -x -y") 3%positive
                  (List.Forall_nil _) eq_refl)).
Defined.

Lemma _normalizeCommandLine_cases_witness :
  @ExpandEnvironmentStringsW spaces_env "C:/Program Files/a.exe -x -y"
  = Returned "C:/Program Files/a.exe -x -y"
  ∧ @CommandLineToArgvW spaces_env "C:/Program Files/a.exe -x -y"
    = ["C:/Program"; "Files/a.exe"; "-x"; "-y"]
  ∧ @SearchPathW spaces_env "C:/Program" "C:/Program Files/a.exe -x -y"
    = (ERROR_FILE_NOT_FOUND, "C:/Program Files/a.exe -x -y")
  ∧ @SearchPathW spaces_env "C:/Program Files/a.exe" "C:/Program Files/a.exe -x -y"
    = (S_OK, "C:/Program Files/a.exe")
  ∧ @_normalizeCommandLine spaces_env "C:/Program Files/a.exe -x -y"
    = Returned ("C:/Program Files/a.exe Files/a.exe" +:+ NUL +:+ "-x").
Proof.
  split; [reflexivity |]. split; [reflexivity |]. split; [reflexivity |].
  split; [reflexivity |].
  exact (proj1 (proj2 (proj2
           (@_normalizeCommandLine_cases spaces_env "C:/Program Files/a.exe -x -y"
              "C:/Program Files/a.exe -x -y" "C:/Program" ["Files/a.exe"; "-x"; "-y"]
              eq_refl eq_refl)))
           "C:/Program Files/a.exe -x -y" "Files/a.exe" ["-x"; "-y"]
           "C:/Program Files/a.exe" "C:/Program Files/a.exe"
           eq_refl eq_refl eq_refl eq_refl).
Defined.

Lemma _getProfileForCommandLine_executable_alone_witness :
  @cache_current example_env example_heap example_settings
  ∧ 2%positive ∈ _allProfiles example_settings
  ∧ @Commandline example_env example_heap 2%positive = "a.exe"
  ∧ @CommandLineToArgvW example_env "a.exe" = ["a.exe"]
  ∧ @CommandLineToArgvW example_env "a.exe -y" = ["a.exe"; "-y"]
  ∧ ∃ q n,
      (@_getProfileForCommandLine example_env example_heap example_settings "a.exe -y").1
      = Returned (Some q)
      ∧ q ∈ _allProfiles example_settings ∧ @declares example_env example_heap q n
      ∧ starts_with ("a.exe" +:+ appended_arguments NUL ["-y"]) n = true
      ∧ String.length "a.exe" ≤ String.length n.
Proof.
  assert (Hcache : @cache_current example_env example_heap example_settings).
  { left. split; reflexivity. }
  split; [exact Hcache |]. split; [apply list_elem_of_here |]. split; [reflexivity |].
  split; [reflexivity |]. split; [reflexivity |].
  apply (@_getProfileForCommandLine_executable_alone example_env example_heap
           example_settings 2%positive "a.exe -y" "a.exe" "a.exe -y" "a.exe" "a.exe" "a.exe"
           ["-y"]).
  - exact Hcache.
  - repeat constructor.
  - apply list_elem_of_here.
  - discriminate.
  - reflexivity.
  - reflexivity.
  - reflexivity.
  - reflexivity.
  - reflexivity.
  - reflexivity.
Defined.

(** ** Getters under changes that leave a setting alone *)

Section Untouched.
Context `{Env}.

Lemma lookup_inherited_alter {T} (sel : Profile → option T) (f : Profile → Profile)
    fuel (h : heap) a x :
  (∀ p, sel (f p) = sel p) → (∀ p, parents (f p) = parents p) →
  lookup_inherited sel fuel (alter f a h) x = lookup_inherited sel fuel h x.
Proof.
  intros Hsel Hps. revert x. induction fuel as [|fuel IH]; intros x; simpl; [done |].
  rewrite lookup_alter. case_decide as Hx.
  - subst x. destruct (h !! a) as [p|]; simpl; [| done].
    rewrite Hsel, Hps. destruct (sel p); [done |].
    apply first_defined_ext. intros q _. apply IH.
  - destruct (h !! x) as [p|]; [| done]. destruct (sel p); [done |].
    apply first_defined_ext. intros q _. apply IH.
Qed.

Lemma size_alter (f : Profile → Profile) (h : heap) a : size (alter f a h) = size h.
Proof. by rewrite <- !size_dom, dom_alter_L. Qed.

Lemma resolve_alter {T} (sel : Profile → option T) (f : Profile → Profile) (h : heap) a x :
  (∀ p, sel (f p) = sel p) → (∀ p, parents (f p) = parents p) →
  resolve sel (alter f a h) x = resolve sel h x.
Proof.
  intros Hsel Hps. unfold resolve. rewrite size_alter.
  by apply lookup_inherited_alter.
Qed.
End Untouched.

Section MediaPass.
Context `{Env}.
Hypothesis expansion_succeeds :
  ∀ x, ∃ y, ExpandEnvironmentStringsW x = Returned y.

Lemma check_background_flag h f appearance :
  check_background (h, f) appearance
  = Returned (apply_check h (AppearanceSlot appearance "BackgroundImagePath",
                             bad_background),
              f || invalid_background h appearance).
Proof.
  unfold check_background, ExpandedBackgroundImagePath, apply_check, invalid_background,
    bad_background.
  cbn [fst snd slot_get slot_clear].
  unfold BackgroundImagePath, ClearBackgroundImagePath.
  case_bool_decide as Hp.
  - cbn [obind]. rewrite Hp. cbn. by rewrite orb_false_r.
  - rewrite (expanded_eq expansion_succeeds). cbn [obind].
    destruct (_ && _); [by rewrite orb_true_r | by rewrite orb_false_r].
Qed.

Lemma check_icon_flag h f profile :
  check_icon (h, f) profile
  = Returned (apply_check h (ProfileSlot profile "Icon", bad_icon),
              f || invalid_icon h profile).
Proof.
  unfold check_icon, apply_check, invalid_icon, bad_icon.
  cbn [fst snd slot_get slot_clear]. unfold Icon, ClearIcon.
  case_bool_decide; cbn [andb]; [| by rewrite orb_false_r].
  rewrite (expanded_eq expansion_succeeds). cbn [obind].
  destruct (Uri_parses _); cbn [negb]; [by rewrite orb_false_r | by rewrite orb_true_r].
Qed.

(** Clearing a setting of an appearance leaves the icons as they are, and
    clearing an icon leaves the settings of the appearances as they are. *)
Lemma Icon_apply_check_appearance h appearance k test a :
  Icon (apply_check h (AppearanceSlot appearance k, test)) a = Icon h a.
Proof.
  unfold apply_check. cbn [fst snd slot_clear]. destruct (test _); [| done].
  unfold Icon, get_setting.
  destruct appearance as [profile | owner]; cbn [appearance_clear]; unfold clear_setting;
    by rewrite resolve_alter by (intros p; by destruct p).
Qed.

Lemma appearance_get_apply_check_icon h profile test k appearance :
  appearance_get k (apply_check h (ProfileSlot profile "Icon", test)) appearance
  = appearance_get k h appearance.
Proof.
  unfold apply_check. cbn [fst snd slot_clear]. destruct (test _); [| done].
  unfold clear_setting.
  assert (Hget : ∀ a, get_setting OfAppearance k
                        (alter (with_part OfProfile (delete "Icon")) profile h) a
                      = get_setting OfAppearance k h a).
  { intros a. unfold get_setting. by rewrite resolve_alter by (intros p; by destruct p). }
  destruct appearance as [a | owner]; cbn [appearance_get]; [apply Hget |].
  rewrite lookup_alter. case_decide as Ho; [subst owner |].
  - destruct (h !! profile) as [p|]; simpl; [| done].
    rewrite Hget. by destruct p.
  - by rewrite Hget.
Qed.

Lemma BackgroundImagePath_apply_check_icon h profile test appearance :
  BackgroundImagePath (apply_check h (ProfileSlot profile "Icon", test)) appearance
  = BackgroundImagePath h appearance.
Proof. apply appearance_get_apply_check_icon. Qed.

(** One profile of the media pass, from a store [hc] that the pass has made
    of [h]: as long as a flag is not set, the settings it is about read as in
    [h]. *)
Lemma check_profile_media_flags (h hc : heap) (fb fi : bool) profile :
  same_skeleton h hc →
  (fb = false → ∀ appearance, BackgroundImagePath hc appearance
                              = BackgroundImagePath h appearance) →
  (fi = false → ∀ a, Icon hc a = Icon h a) →
  ∃ hc',
    check_profile_media (hc, fb, fi) profile
    = Returned (hc',
                fb || existsb (invalid_background h) (appearances_of h profile),
                fi || invalid_icon h profile)
    ∧ hc' = run_checks (media_checks h profile) hc
    ∧ (fb || existsb (invalid_background h) (appearances_of h profile) = false →
       ∀ appearance, BackgroundImagePath hc' appearance = BackgroundImagePath h appearance)
    ∧ (fi || invalid_icon h profile = false → ∀ a, Icon hc' a = Icon h a)
    ∧ (fb || existsb (invalid_background h) (appearances_of h profile) = false →
       fi || invalid_icon h profile = false → hc' = hc).
Proof.
  intros Hs Hbg Hicon. unfold check_profile_media, media_checks, appearances_of.
  rewrite check_background_flag. cbn [obind fst snd].
  set (c1 := (AppearanceSlot (DefaultOf profile) "BackgroundImagePath", bad_background)).
  set (h1 := apply_check hc c1).
  assert (Hs1 : same_skeleton h h1).
  { eapply same_skeleton_trans; [exact Hs | apply cleared_apply_check]. }
  rewrite (UnfocusedAppearance_ref_skeleton h h1 profile Hs1).
  rewrite run_checks_app. unfold run_checks at 2. cbn [fmap list_fmap foldl]. fold c1 h1.
  set (b1 := invalid_background hc (DefaultOf profile)).
  assert (Hh1 : b1 = false → h1 = hc).
  { intros Hb. unfold h1. by apply apply_check_passes. }
  assert (Hb1 : fb = false → b1 = invalid_background h (DefaultOf profile)).
  { intros Hf. unfold b1, invalid_background. by rewrite (Hbg Hf). }
  destruct (UnfocusedAppearance_ref h profile) as [u|];
    cbn [option_list fmap list_fmap foldl existsb].
  - rewrite check_background_flag. cbn [obind fst snd].
    set (c2 := (AppearanceSlot u "BackgroundImagePath", bad_background)).
    set (h2 := apply_check h1 c2).
    set (b2 := invalid_background h1 u).
    assert (Hh2 : b2 = false → h2 = h1).
    { intros Hb. unfold h2. by apply apply_check_passes. }
    rewrite check_icon_flag. cbn [obind fst snd run_checks foldl].
    set (c3 := (ProfileSlot profile "Icon", bad_icon)).
    assert (Hi3 : fi = false → invalid_icon h2 profile = invalid_icon h profile).
    { intros Hf. unfold invalid_icon, h2, h1, c1, c2.
      by rewrite !Icon_apply_check_appearance, (Hicon Hf). }
    assert (Hfb : (fb || b1) || b2
                  = fb || (invalid_background h (DefaultOf profile)
                           || (invalid_background h u || false))).
    { destruct fb; [done |]. rewrite (Hb1 eq_refl) in *. cbn [orb].
      destruct (invalid_background h (DefaultOf profile)); [done |]. cbn [orb].
      rewrite orb_false_r. unfold b2, invalid_background.
      rewrite (Hh1 eq_refl). by rewrite (Hbg eq_refl). }
    assert (Hfi : fi || invalid_icon h2 profile = fi || invalid_icon h profile).
    { destruct fi; [done |]. by rewrite (Hi3 eq_refl). }
    exists (apply_check h2 c3). rewrite Hfb, Hfi. split; [done |]. split; [done |]. split; [| split].
    + intros Hf appearance.
      change (existsb (invalid_background h) (option_list (Some u)))
        with (invalid_background h u || false) in Hf.
      rewrite <- Hfb in Hf.
      apply orb_false_elim in Hf as [[Hf0 Hf1]%orb_false_elim Hf2].
      unfold c3. rewrite BackgroundImagePath_apply_check_icon.
      rewrite (Hh2 Hf2), (Hh1 Hf1). by apply Hbg.
    + intros Hf a. apply orb_false_elim in Hf as [Hf0 Hf3].
      assert (Hpass : apply_check h2 c3 = h2).
      { apply apply_check_passes. change (invalid_icon h2 profile = false).
        by rewrite (Hi3 Hf0). }
      rewrite Hpass.
      unfold h2, h1, c1, c2. rewrite !Icon_apply_check_appearance. by apply Hicon.
    + intros Hf Hf'.
      change (existsb (invalid_background h) (option_list (Some u)))
        with (invalid_background h u || false) in Hf.
      rewrite <- Hfb in Hf.
      apply orb_false_elim in Hf as [[Hf0 Hf1]%orb_false_elim Hf2].
      apply orb_false_elim in Hf' as [Hf0' Hf3].
      rewrite <- (Hh1 Hf1), <- (Hh2 Hf2). apply apply_check_passes.
      change (invalid_icon h2 profile = false). by rewrite (Hi3 Hf0').
  - cbn [obind fst snd].
    rewrite check_icon_flag. cbn [obind fst snd run_checks foldl].
    set (c3 := (ProfileSlot profile "Icon", bad_icon)).
    assert (Hi3 : fi = false → invalid_icon h1 profile = invalid_icon h profile).
    { intros Hf. unfold invalid_icon, h1, c1.
      by rewrite !Icon_apply_check_appearance, (Hicon Hf). }
    assert (Hfb : fb || b1 = fb || (invalid_background h (DefaultOf profile) || false)).
    { destruct fb; [done |]. rewrite (Hb1 eq_refl). cbn [orb]. by rewrite orb_false_r. }
    assert (Hfi : fi || invalid_icon h1 profile = fi || invalid_icon h profile).
    { destruct fi; [done |]. by rewrite (Hi3 eq_refl). }
    exists (apply_check h1 c3). rewrite Hfb, Hfi. split; [done |]. split; [done |]. split; [| split].
    + intros Hf appearance.
      change (existsb (invalid_background h) (option_list None)) with false in Hf.
      rewrite <- Hfb in Hf.
      apply orb_false_elim in Hf as [Hf0 Hf1].
      unfold c3. rewrite BackgroundImagePath_apply_check_icon.
      rewrite (Hh1 Hf1). by apply Hbg.
    + intros Hf a. apply orb_false_elim in Hf as [Hf0 Hf3].
      assert (Hpass : apply_check h1 c3 = h1).
      { apply apply_check_passes. change (invalid_icon h1 profile = false).
        by rewrite (Hi3 Hf0). }
      rewrite Hpass.
      unfold h1, c1. rewrite !Icon_apply_check_appearance. by apply Hicon.
    + intros Hf Hf'.
      change (existsb (invalid_background h) (option_list None)) with false in Hf.
      rewrite <- Hfb in Hf.
      apply orb_false_elim in Hf as [Hf0 Hf1].
      apply orb_false_elim in Hf' as [Hf0' Hf3].
      rewrite <- (Hh1 Hf1). apply apply_check_passes.
      change (invalid_icon h1 profile = false). by rewrite (Hi3 Hf0').
Qed.

Lemma media_pass_flags (h : heap) l (hc : heap) (fb fi : bool) :
  same_skeleton h hc →
  (fb = false → ∀ appearance, BackgroundImagePath hc appearance
                              = BackgroundImagePath h appearance) →
  (fi = false → ∀ a, Icon hc a = Icon h a) →
  ∃ hc',
    for_each check_profile_media (hc, fb, fi) l
    = Returned (hc', fb || invalid_backgrounds h l, fi || existsb (invalid_icon h) l)
    ∧ hc' = run_checks (l ≫= media_checks h) hc
    ∧ (fb || invalid_backgrounds h l = false →
       fi || existsb (invalid_icon h) l = false → hc' = hc).
Proof.
  revert hc fb fi. induction l as [|a l IH]; intros hc fb fi Hs Hbg Hicon; cbn [for_each].
  - exists hc. unfold invalid_backgrounds. cbn [existsb]. by rewrite !orb_false_r.
  - destruct (check_profile_media_flags h hc fb fi a Hs Hbg Hicon)
      as (h1 & -> & Hh1 & Hbg1 & Hicon1 & Hsame1).
    cbn [obind].
    assert (Hs1 : same_skeleton h h1).
    { subst h1. eapply same_skeleton_trans; [exact Hs | apply cleared_run_checks]. }
    destruct (IH h1 _ _ Hs1 Hbg1 Hicon1) as (h2 & -> & Hh2 & Hsame2).
    exists h2. unfold invalid_backgrounds in *. cbn [existsb]. rewrite !orb_assoc.
    split; [done |]. split.
    + rewrite bind_cons, run_checks_app. by rewrite <- Hh1.
    + intros Hf Hf'. rewrite (Hsame2 Hf Hf').
      apply orb_false_elim in Hf as [Hf _]. apply orb_false_elim in Hf' as [Hf' _].
      by apply Hsame1.
Qed.
End MediaPass.

Section MediaClaims.
Context `{Env}.

(** When expanding environment variables does not fail, the media pass
    returns.  After it, every explicitly set background image path of an
    appearance of a listed profile and every explicitly set icon of a listed
    profile passes the test of the pass.  [InvalidBackgroundImage] is appended
    once exactly when some appearance of a listed profile had a background
    image path that fails the test, then [InvalidIcon] once exactly when some
    listed profile had an icon that fails it; nothing else of the settings
    object changes.  The store differs by cleared values only, and is the
    same store when nothing failed. *)
Theorem _validateMediaResources_clears_and_warns (h : heap) (s : CascadiaSettings) :
  (∀ x, ∃ y, ExpandEnvironmentStringsW x = Returned y) →
  let invalidBackground := invalid_backgrounds h (_allProfiles s) in
  let invalidIcon := existsb (invalid_icon h) (_allProfiles s) in
  ∃ h',
    _validateMediaResources h s
    = Returned (h', with_warnings
                      (_warnings s
                       ++ (if invalidBackground then [InvalidBackgroundImage] else [])
                       ++ (if invalidIcon then [InvalidIcon] else [])) s)
    ∧ (∀ profile appearance path,
         profile ∈ _allProfiles s →
         appearance ∈ appearances_of h profile →
         slot_own h' (AppearanceSlot appearance "BackgroundImagePath") = Some path →
         bad_background path = false)
    ∧ (∀ profile icon,
         profile ∈ _allProfiles s →
         slot_own h' (ProfileSlot profile "Icon") = Some icon →
         bad_icon icon = false)
    ∧ cleared h h'
    ∧ (invalidBackground = false → invalidIcon = false → h' = h).
Proof.
  intros Hexp invalidBackground invalidIcon.
  destruct (media_pass_flags Hexp h (_allProfiles s) h false false
              (same_skeleton_refl h) (λ _ _, eq_refl) (λ _ _, eq_refl))
    as (h' & Hrun & Hh' & Hsame).
  cbn [orb] in Hrun, Hsame. fold invalidBackground invalidIcon in Hrun, Hsame.
  exists h'. unfold _validateMediaResources. rewrite Hrun. cbn [obind].
  split; [| split; [| split; [| split]]].
  - f_equal. f_equal.
    destruct invalidBackground, invalidIcon; unfold Append; cbn;
      rewrite ?app_nil_r, <- ?app_assoc; try done; by rewrite with_warnings_id.
  - intros profile appearance path Hp Ha Hown.
    assert (Hc : (AppearanceSlot appearance "BackgroundImagePath", bad_background)
                 ∈ _allProfiles s ≫= media_checks h).
    { apply list_elem_of_bind. exists profile. split; [| done].
      unfold media_checks. apply elem_of_app. left.
      apply list_elem_of_fmap. by exists appearance. }
    subst h'. exact (settled_run_checks _ h _ Hc path Hown).
  - intros profile icon Hp Hown.
    assert (Hc : (ProfileSlot profile "Icon", bad_icon)
                 ∈ _allProfiles s ≫= media_checks h).
    { apply list_elem_of_bind. exists profile. split; [| done].
      unfold media_checks. apply elem_of_app. right. apply list_elem_of_singleton. done. }
    subst h'. exact (settled_run_checks _ h _ Hc icon Hown).
  - subst h'. apply cleared_run_checks.
  - exact Hsame.
Qed.
End MediaClaims.


Lemma _validateMediaResources_clears_and_warns_witness :
  let s := two_profile_settings in
  (∀ x, ∃ y, @ExpandEnvironmentStringsW example_env x = Returned y)
  ∧ ∃ h',
      @_validateMediaResources example_env bad_media_heap s
      = Returned
          (h', with_warnings
                 (_warnings s
                  ++ (if @invalid_backgrounds example_env bad_media_heap (_allProfiles s)
                      then [InvalidBackgroundImage] else [])
                  ++ (if existsb (@invalid_icon example_env bad_media_heap) (_allProfiles s)
                      then [InvalidIcon] else [])) s)
      ∧ (∀ profile appearance path,
           profile ∈ _allProfiles s →
           appearance ∈ @appearances_of bad_media_heap profile →
           slot_own h' (AppearanceSlot appearance "BackgroundImagePath") = Some path →
           @bad_background example_env path = false)
      ∧ (∀ profile icon,
           profile ∈ _allProfiles s →
           slot_own h' (ProfileSlot profile "Icon") = Some icon →
           @bad_icon example_env icon = false)
      ∧ cleared bad_media_heap h'
      ∧ (@invalid_backgrounds example_env bad_media_heap (_allProfiles s) = false →
         existsb (@invalid_icon example_env bad_media_heap) (_allProfiles s) = false →
         h' = bad_media_heap).
Proof.
  intros s.
  assert (Hexp : ∀ x, ∃ y, @ExpandEnvironmentStringsW example_env x = Returned y).
  { intros x. exists x. reflexivity. }
  split; [exact Hexp |].
  exact (@_validateMediaResources_clears_and_warns example_env bad_media_heap s Hexp).
Defined.

(** Both warnings, and the two bad values are gone while the symbol stays. *)
Example _validateMediaResources_bad_media :
  let s := two_profile_settings in
  ∃ h' s',
    @_validateMediaResources example_env bad_media_heap s = Returned (h', s')
    ∧ _warnings s' = [InvalidBackgroundImage; InvalidIcon]
    ∧ slot_own h' (ProfileSlot 2%positive "Icon") = None
    ∧ slot_own h' (AppearanceSlot (DefaultOf 2%positive) "BackgroundImagePath") = None
    ∧ slot_own h' (ProfileSlot 3%positive "Icon") = Some "ab".
Proof. eexists _, _. split; [vm_compute; reflexivity |]. repeat split; vm_compute; reflexivity. Qed.


(** ** An icon that cannot be expanded *)

Section IconFailure.
Context `{Env}.
Variables (profile : addr) (icon : string).
Hypothesis icon_long : 2 < String.length icon.
Hypothesis expansion_fails : ∃ e, ExpandEnvironmentStringsW icon = Thrown e.

Lemma keeps_icon_appearance_clear k appearance h :
  keeps_icon profile icon h → keeps_icon profile icon (appearance_clear k appearance h).
Proof.
  unfold keeps_icon. cbn [slot_own]. intros Hk.
  destruct appearance as [a | b]; cbn [appearance_clear]; unfold clear_setting;
    rewrite lookup_alter; case_decide; subst; try done;
    destruct (h !! profile) as [p|]; simpl in *; done.
Qed.

Lemma keeps_icon_run_appearance_checks cs h :
  Forall (λ c, ∃ appearance k, c.1 = AppearanceSlot appearance k) cs →
  keeps_icon profile icon h → keeps_icon profile icon (run_checks cs h).
Proof.
  intros Hcs. revert h. induction Hcs as [|c cs (appearance & k & Hc) _ IH]; intros h Hk;
    [done |].
  cbn [run_checks foldl]. apply IH. unfold apply_check. rewrite Hc.
  destruct (c.2 _); [| done]. cbn [slot_clear]. by apply keeps_icon_appearance_clear.
Qed.

Lemma keeps_icon_check_background h f appearance :
  keeps_icon profile icon h →
  match check_background (h, f) appearance with
  | Returned r => keeps_icon profile icon r.1
  | Thrown _ => True
  end.
Proof.
  intros Hk. unfold check_background.
  destruct (ExpandedBackgroundImagePath _ _) as [path | e]; cbn [obind fst]; [| done].
  destruct (_ && _); cbn [fst]; [| done].
  by apply keeps_icon_appearance_clear.
Qed.

Lemma keeps_icon_check_icon h f q :
  keeps_icon profile icon h →
  match check_icon (h, f) q with
  | Returned r => keeps_icon profile icon r.1 ∧ q ≠ profile
  | Thrown _ => True
  end.
Proof.
  intros Hk. unfold check_icon. cbn [fst].
  destruct (decide (q = profile)) as [-> | Hq].
  - assert (Hi : Icon h profile = icon) by exact (slot_get_own h _ _ Hk).
    rewrite Hi. rewrite bool_decide_eq_true_2 by exact icon_long.
    destruct expansion_fails as [e ->]. done.
  - case_bool_decide; [| done].
    destruct (ExpandEnvironmentStringsW (Icon h q)) as [iconPath | e]; cbn [obind];
      [| done].
    destruct (Uri_parses iconPath); cbn [fst]; [done |].
    split; [| done]. unfold keeps_icon, ClearIcon, clear_setting in *. cbn [slot_own] in *.
    by rewrite lookup_alter_ne.
Qed.

Lemma keeps_icon_check_profile_media h fb fi q :
  keeps_icon profile icon h →
  match check_profile_media (h, fb, fi) q with
  | Returned r => keeps_icon profile icon r.1.1 ∧ q ≠ profile
  | Thrown _ => True
  end.
Proof.
  intros Hk. unfold check_profile_media.
  pose proof (keeps_icon_check_background h fb (DefaultOf q) Hk) as H1.
  destruct (check_background (h, fb) (DefaultOf q)) as [[h1 f1] | e]; cbn [obind fst snd];
    [| done].
  cbn [fst] in H1.
  assert (H2 : match (match UnfocusedAppearance_ref h1 q with
                      | Some unfocused => check_background (h1, f1) unfocused
                      | None => Returned (h1, f1)
                      end) with
               | Returned r => keeps_icon profile icon r.1
               | Thrown _ => True
               end).
  { destruct (UnfocusedAppearance_ref h1 q) as [u|]; [| done].
    by apply keeps_icon_check_background. }
  destruct (match UnfocusedAppearance_ref h1 q with
            | Some unfocused => _
            | None => _
            end) as [[h2 f2] | e]; cbn [obind fst snd]; [| done].
  cbn [fst] in H2.
  pose proof (keeps_icon_check_icon h2 fi q H2) as H3.
  destruct (check_icon (h2, fi) q) as [[h3 f3] | e]; cbn [obind fst snd]; done.
Qed.

Lemma media_pass_keeps_icon l h fb fi :
  keeps_icon profile icon h →
  match for_each check_profile_media (h, fb, fi) l with
  | Returned r => keeps_icon profile icon r.1.1 ∧ profile ∉ l
  | Thrown _ => True
  end.
Proof.
  revert h fb fi. induction l as [|q l IH]; intros h fb fi Hk; cbn [for_each].
  - split; [done | apply not_elem_of_nil].
  - pose proof (keeps_icon_check_profile_media h fb fi q Hk) as H1.
    destruct (check_profile_media (h, fb, fi) q) as [[[h1 fb1] fi1] | e]; cbn [obind];
      [| done].
    cbn [fst] in H1. destruct H1 as [H1 Hq].
    specialize (IH h1 fb1 fi1 H1).
    destruct (for_each _ _ l) as [r | e]; [| done].
    destruct IH as [IH Hl]. split; [done |].
    rewrite not_elem_of_cons. split; [by intros -> | done].
Qed.

Lemma scheme_checks_appearance colorSchemes h l :
  Forall (λ c : Slot * (string → bool), ∃ appearance k, c.1 = AppearanceSlot appearance k)
    (l ≫= scheme_checks colorSchemes h).
Proof.
  apply Forall_forall. intros c Hc.
  apply list_elem_of_bind in Hc as (q & Hc & _).
  unfold scheme_checks in Hc. apply list_elem_of_fmap in Hc as (appearance & -> & _).
  by eexists _, _.
Qed.
End IconFailure.

Section IconFailureClaim.
Context `{Env}.

(** The icon of a profile is expanded outside any handler: when a listed
    profile has an explicitly set icon of more than two characters whose
    expansion fails, the media pass throws, and so does the validation. *)
Theorem _validateSettings_icon_expansion_fails (h : heap) (s : CascadiaSettings)
    (profile : addr) (icon : string) :
  profile ∈ _allProfiles s →
  slot_own h (ProfileSlot profile "Icon") = Some icon →
  2 < String.length icon →
  (∃ e, ExpandEnvironmentStringsW icon = Thrown e) →
  (∃ e, _validateMediaResources h s = Thrown e)
  ∧ (∃ e, _validateSettings h s = Thrown e).
Proof.
  intros Hp Hown Hlen Hfail.
  assert (Hmedia : ∀ h1 s1, keeps_icon profile icon h1 → _allProfiles s1 = _allProfiles s →
                            ∃ e, _validateMediaResources h1 s1 = Thrown e).
  { intros h1 s1 Hk Hl. unfold _validateMediaResources. rewrite Hl.
    pose proof (media_pass_keeps_icon profile icon Hlen Hfail (_allProfiles s) h1
                  false false Hk) as Hpass.
    destruct (for_each _ _ _) as [r | e]; cbn [obind]; [| by eexists].
    by destruct Hpass as [_ []]. }
  split; [by apply Hmedia |].
  unfold _validateSettings. rewrite _validateAllSchemesExist_eq.
  set (h1 := run_checks _ h). set (s1 := if existsb _ _ then _ else _).
  destruct (Hmedia h1 s1) as [e He].
  - apply keeps_icon_run_appearance_checks; [apply scheme_checks_appearance | done].
  - unfold s1. by destruct (existsb _ _).
  - rewrite He. by eexists.
Qed.
End IconFailureClaim.


Lemma _validateSettings_icon_expansion_fails_witness :
  2%positive ∈ _allProfiles one_profile_settings
  ∧ slot_own failing_icon_heap (ProfileSlot 2%positive "Icon") = Some "a.exe -x"
  ∧ 2 < String.length "a.exe -x"
  ∧ (∃ e, @ExpandEnvironmentStringsW failing_env "a.exe -x" = Thrown e)
  ∧ (∃ e, @_validateMediaResources failing_env failing_icon_heap one_profile_settings
          = Thrown e)
  ∧ (∃ e, @_validateSettings failing_env failing_icon_heap one_profile_settings = Thrown e).
Proof.
  assert (Hp : 2%positive ∈ _allProfiles one_profile_settings) by (simpl; constructor).
  assert (Hown : slot_own failing_icon_heap (ProfileSlot 2%positive "Icon")
                 = Some "a.exe -x") by (vm_compute; reflexivity).
  assert (Hlen : 2 < String.length "a.exe -x") by (simpl; lia).
  assert (Hfail : ∃ e, @ExpandEnvironmentStringsW failing_env "a.exe -x" = Thrown e)
    by (eexists; vm_compute; reflexivity).
  split; [exact Hp |]. split; [exact Hown |]. split; [exact Hlen |]. split; [exact Hfail |].
  exact (@_validateSettings_icon_expansion_fails failing_env failing_icon_heap
           one_profile_settings 2%positive "a.exe -x" Hp Hown Hlen Hfail).
Defined.

(** ** Resolution after validation *)

Section IdentityFacts.
Context `{Env}.

Lemma same_identity_refl h : same_identity h h.
Proof. by intros a. Qed.

Lemma same_identity_trans h1 h2 h3 :
  same_identity h1 h2 → same_identity h2 h3 → same_identity h1 h3.
Proof.
  intros H12 H23 a. destruct (H12 a) as (? & ? & ?), (H23 a) as (? & ? & ?).
  repeat split; congruence.
Qed.

(** A change of one object that touches neither its GUID, its name, its
    command line nor its parents. *)
Lemma same_identity_alter (f : Profile → Profile) (h : heap) x :
  (∀ p, _Guid (f p) = _Guid p) → (∀ p, _Name (f p) = _Name p) →
  (∀ p, settings (f p) !! "Commandline" = settings p !! "Commandline") →
  (∀ p, parents (f p) = parents p) →
  same_identity h (alter f x h).
Proof.
  intros Hg Hn Hc Hp a. unfold Guid, Name, Commandline, get_setting.
  rewrite !resolve_alter by done. done.
Qed.

Lemma same_identity_appearance_clear k appearance h :
  same_identity h (appearance_clear k appearance h).
Proof.
  destruct appearance as [a | b]; cbn [appearance_clear]; unfold clear_setting;
    apply same_identity_alter; by intros [].
Qed.

Lemma same_identity_ClearIcon profile h : same_identity h (ClearIcon profile h).
Proof.
  unfold ClearIcon, clear_setting. apply same_identity_alter; try by intros [].
  intros p. destruct p; cbn. by apply lookup_delete_ne.
Qed.

Lemma same_identity_run_appearance_checks cs h :
  Forall (λ c : Slot * (string → bool), ∃ appearance k, c.1 = AppearanceSlot appearance k)
    cs →
  same_identity h (run_checks cs h).
Proof.
  intros Hcs. revert h. induction Hcs as [|c cs (appearance & k & Hc) _ IH]; intros h;
    [apply same_identity_refl |].
  cbn [run_checks foldl]. eapply same_identity_trans; [| apply IH].
  unfold apply_check. rewrite Hc. destruct (c.2 _); [| apply same_identity_refl].
  cbn [slot_clear]. apply same_identity_appearance_clear.
Qed.

Lemma same_identity_check_background h0 h f appearance :
  same_identity h0 h →
  match check_background (h, f) appearance with
  | Returned r => same_identity h0 r.1
  | Thrown _ => True
  end.
Proof.
  intros Hs. unfold check_background.
  destruct (ExpandedBackgroundImagePath _ _) as [path | e]; cbn [obind fst]; [| done].
  destruct (_ && _); cbn [fst]; [| done].
  eapply same_identity_trans; [exact Hs | apply same_identity_appearance_clear].
Qed.

Lemma same_identity_check_icon h0 h f q :
  same_identity h0 h →
  match check_icon (h, f) q with
  | Returned r => same_identity h0 r.1
  | Thrown _ => True
  end.
Proof.
  intros Hs. unfold check_icon. cbn [fst].
  case_bool_decide; [| done].
  destruct (ExpandEnvironmentStringsW (Icon h q)) as [iconPath | e]; cbn [obind]; [| done].
  destruct (Uri_parses iconPath); cbn [fst]; [done |].
  eapply same_identity_trans; [exact Hs | apply same_identity_ClearIcon].
Qed.

Lemma same_identity_check_profile_media h0 h fb fi q :
  same_identity h0 h →
  match check_profile_media (h, fb, fi) q with
  | Returned r => same_identity h0 r.1.1
  | Thrown _ => True
  end.
Proof.
  intros Hs. unfold check_profile_media.
  pose proof (same_identity_check_background h0 h fb (DefaultOf q) Hs) as H1.
  destruct (check_background (h, fb) (DefaultOf q)) as [[h1 f1] | e]; cbn [obind fst snd];
    [| done].
  cbn [fst] in H1.
  assert (H2 : match (match UnfocusedAppearance_ref h1 q with
                      | Some unfocused => check_background (h1, f1) unfocused
                      | None => Returned (h1, f1)
                      end) with
               | Returned r => same_identity h0 r.1
               | Thrown _ => True
               end).
  { destruct (UnfocusedAppearance_ref h1 q) as [u|]; [| done].
    by apply same_identity_check_background. }
  destruct (match UnfocusedAppearance_ref h1 q with
            | Some unfocused => _
            | None => _
            end) as [[h2 f2] | e]; cbn [obind fst snd]; [| done].
  cbn [fst] in H2.
  pose proof (same_identity_check_icon h0 h2 fi q H2) as H3.
  destruct (check_icon (h2, fi) q) as [[h3 f3] | e]; cbn [obind fst snd]; done.
Qed.

Lemma same_identity_media_pass h0 l h fb fi :
  same_identity h0 h →
  match for_each check_profile_media (h, fb, fi) l with
  | Returned r => same_identity h0 r.1.1
  | Thrown _ => True
  end.
Proof.
  revert h fb fi. induction l as [|q l IH]; intros h fb fi Hs; cbn [for_each]; [done |].
  pose proof (same_identity_check_profile_media h0 h fb fi q Hs) as H1.
  destruct (check_profile_media (h, fb, fi) q) as [[[h1 fb1] fi1] | e]; cbn [obind];
    [| done].
  by apply IH.
Qed.

(** The validation changes the warnings of the settings object only, and
    nothing the resolution reads of a profile. *)
Lemma _validateSettings_frame h s h' s' :
  _validateSettings h s = Returned (h', s') →
  same_identity h h' ∧ s' = with_warnings (_warnings s') s.
Proof.
  unfold _validateSettings. rewrite _validateAllSchemesExist_eq.
  set (h1 := run_checks _ h). set (s1 := if existsb _ _ then _ else _).
  assert (Hh1 : same_identity h h1).
  { apply same_identity_run_appearance_checks, scheme_checks_appearance. }
  assert (Hs1 : s1 = with_warnings (_warnings s1) s).
  { unfold s1. destruct (existsb _ _); [done |]. by destruct s. }
  unfold _validateMediaResources.
  pose proof (same_identity_media_pass h (_allProfiles s1) h1 false false Hh1) as Hpass.
  destruct (for_each _ _ _) as [[[h2 fb] fi] | e]; cbn [obind]; [| done].
  cbn [fst] in Hpass. intros [= <- <-]. split; [done |].
  rewrite _validateColorSchemesInCommands_eq, _validateKeybindings_eq.
  rewrite Hs1. by destruct fb, fi.
Qed.

Lemma find_pointwise {A} (f g : A → bool) (l : list A) :
  (∀ x, f x = g x) → List.find f l = List.find g l.
Proof. intros Hfg. induction l as [|x l IH]; simpl; [done |]. by rewrite Hfg, IH. Qed.

Lemma FindProfile_same h h' s w g :
  same_identity h h' →
  FindProfile h' (with_warnings w s) g = FindProfile h s g.
Proof.
  intros Hs. unfold FindProfile. cbn [_allProfiles with_warnings].
  apply find_pointwise. intros a. by rewrite (proj1 (Hs a)).
Qed.

Lemma GetProfileByName_same h h' s w name :
  same_identity h h' →
  GetProfileByName h' (with_warnings w s) name = GetProfileByName h s name.
Proof.
  intros Hs. unfold GetProfileByName. case_bool_decide; [| done].
  destruct (_ && _).
  - destruct (GuidFromString name) as [g | e]; cbn [obind]; [| done].
    rewrite (FindProfile_same h h' s w g Hs).
    destruct (FindProfile h s g); [done |]. f_equal. cbn [_allProfiles with_warnings].
    apply find_pointwise. intros a. by rewrite (proj1 (proj2 (Hs a))).
  - cbn [obind]. f_equal. cbn [_allProfiles with_warnings].
    apply find_pointwise. intros a. by rewrite (proj1 (proj2 (Hs a))).
Qed.

Lemma fill_cache_same h h' l cache :
  same_identity h h' → fill_cache h' l cache = fill_cache h l cache.
Proof.
  intros Hs. revert cache. induction l as [|a l IH]; intros cache; cbn [fill_cache];
    [done |].
  rewrite (proj2 (proj2 (Hs a))). case_bool_decide; [| apply IH].
  destruct (_normalizeCommandLine _); [apply IH | done].
Qed.

Lemma _getProfileForCommandLine_same h h' s w commandLine :
  same_identity h h' →
  _getProfileForCommandLine h' (with_warnings w s) commandLine
  = ((_getProfileForCommandLine h s commandLine).1,
     with_warnings w (_getProfileForCommandLine h s commandLine).2).
Proof.
  intros Hs. unfold _getProfileForCommandLine, build_cache_once.
  cbn [_commandLinesCacheOnce _allProfiles _commandLinesCache with_warnings].
  destruct (_commandLinesCacheOnce s); [done |].
  rewrite (fill_cache_same h h' _ _ Hs).
  destruct (fill_cache h (_allProfiles s) (_commandLinesCache s)) as [cache [e|]]; done.
Qed.

Lemma default_branch_same h h' s w args :
  same_identity h h' →
  default_branch h' (with_warnings w s) args = default_branch h s args.
Proof.
  intros Hs. unfold default_branch. rewrite !(FindProfile_same h h' s w _ Hs). done.
Qed.

Lemma GetProfileByIndex_same s w index :
  GetProfileByIndex (with_warnings w s) index = GetProfileByIndex s index.
Proof. done. Qed.

Lemma GetProfileForArgs_same h h' s w args :
  same_identity h h' →
  GetProfileForArgs h' (with_warnings w s) args
  = ((GetProfileForArgs h s args).1, with_warnings w (GetProfileForArgs h s args).2).
Proof.
  intros Hs. unfold GetProfileForArgs.
  destruct args as [args|]; [| by rewrite (default_branch_same h h' s w None Hs)].
  unfold by_name. rewrite (GetProfileByName_same h h' s w _ Hs).
  destruct (if bool_decide _ then _ else _) as [[profile|] | e]; [done | | done].
  unfold by_index. cbn [_activeProfiles with_warnings].
  change (GetProfileByIndex (with_warnings w s)) with (GetProfileByIndex s).
  destruct (match NewTerminalArgs.ProfileIndex args with
            | Some index => _
            | None => _
            end) as [[profile|] | e]; [done | | done].
  unfold by_commandline. case_bool_decide.
  - rewrite (_getProfileForCommandLine_same h h' s w _ Hs).
    destruct (_getProfileForCommandLine h s _) as [[[profile|] | e] s1]; cbn [fst snd];
      [done | | done].
    by rewrite (default_branch_same h h' s1 w _ Hs).
  - by rewrite (default_branch_same h h' s w _ Hs).
Qed.
End IdentityFacts.

Section ResolutionAfterValidation.
Context `{Env}.

(** Validation does not change what a lookup finds: after a validation that
    returned, a profile is found by GUID, by name and by index as before, and
    every launch request resolves as before, to the same profile or with the
    same exception; the command line cache is built in the same way. *)
Theorem _validateSettings_keeps_resolution (h h' : heap) (s s' : CascadiaSettings) :
  _validateSettings h s = Returned (h', s') →
  (∀ guid, FindProfile h' s' guid = FindProfile h s guid)
  ∧ (∀ name, GetProfileByName h' s' name = GetProfileByName h s name)
  ∧ (∀ index, GetProfileByIndex s' index = GetProfileByIndex s index)
  ∧ (∀ newTerminalArgs,
       GetProfileForArgs h' s' newTerminalArgs
       = ((GetProfileForArgs h s newTerminalArgs).1,
          with_warnings (_warnings s') (GetProfileForArgs h s newTerminalArgs).2)).
Proof.
  intros Hrun. destruct (_validateSettings_frame h s h' s' Hrun) as [Hs ->].
  cbn [_warnings with_warnings]. repeat split.
  - intros guid. by apply FindProfile_same.
  - intros name. by apply GetProfileByName_same.
  - intros newTerminalArgs. by apply GetProfileForArgs_same.
Qed.
End ResolutionAfterValidation.

Lemma _validateSettings_keeps_resolution_witness :
  let h' := validated_bad_media.1 in
  let s' := validated_bad_media.2 in
  @_validateSettings example_env bad_media_heap two_profile_settings = Returned (h', s')
  ∧ (∀ guid, @FindProfile example_env h' s' guid
             = @FindProfile example_env bad_media_heap two_profile_settings guid)
  ∧ (∀ name, @GetProfileByName example_env h' s' name
             = @GetProfileByName example_env bad_media_heap two_profile_settings name)
  ∧ (∀ index, GetProfileByIndex s' index = GetProfileByIndex two_profile_settings index)
  ∧ (∀ newTerminalArgs,
       @GetProfileForArgs example_env h' s' newTerminalArgs
       = ((@GetProfileForArgs example_env bad_media_heap two_profile_settings
             newTerminalArgs).1,
          with_warnings (_warnings s')
            (@GetProfileForArgs example_env bad_media_heap two_profile_settings
               newTerminalArgs).2)).
Proof.
  intros h' s'.
  assert (Hrun : @_validateSettings example_env bad_media_heap two_profile_settings
                 = Returned (h', s')) by (vm_compute; reflexivity).
  split; [exact Hrun |].
  exact (@_validateSettings_keeps_resolution example_env bad_media_heap h'
           two_profile_settings s' Hrun).
Defined.

(** ** Color schemes in commands *)

Lemma Command_nested_ind (P : Command → Prop) :
  (∀ nested actionAndArgs iterateOn,
     Forall (λ nameAndCmd : string * Command, P nameAndCmd.2) nested →
     P (mkCommand nested actionAndArgs iterateOn)) →
  ∀ command, P command.
Proof.
  intros step. fix IH 1. intros [nested actionAndArgs iterateOn]. apply step.
  induction nested as [|nameAndCmd nested IHnested]; constructor;
    [apply IH | exact IHnested].
Qed.

Section CommandFacts.
Context `{Env}.

Lemma _hasInvalidColorScheme_spec colorSchemes command :
  _hasInvalidColorScheme colorSchemes command = true
  ↔ invalid_scheme_command colorSchemes command.
Proof.
  induction command as [nested actionAndArgs iterateOn IH] using Command_nested_ind.
  rewrite Forall_forall in IH. split.
  - destruct nested as [|nameAndCmd nested].
    + cbn [_hasInvalidColorScheme].
      destruct actionAndArgs as [[schemeName|]|]; try done.
      intros [Hit Hkey]%andb_prop. apply bool_decide_eq_true_1 in Hit.
      apply negb_true_iff, bool_decide_eq_false_1 in Hkey. by constructor.
    + intros Hex.
      assert (Hex' : existsb (λ nc, _hasInvalidColorScheme colorSchemes nc.2)
                       (nameAndCmd :: nested) = true) by exact Hex.
      apply existsb_exists in Hex' as (nc & Hin%list_elem_of_In & Hnc).
      destruct nc as [name command].
      eapply invalid_scheme_below; [exact Hin |]. by apply (IH _ Hin).
  - inversion 1 as [schemeName it Hit Hkey | ? ? ? name command Hin Hinv]; subst.
    + cbn [_hasInvalidColorScheme]. apply andb_true_intro. split.
      * by apply bool_decide_eq_true_2.
      * apply negb_true_iff. unfold HasKey. by apply bool_decide_eq_false_2.
    + assert (Hex : existsb (λ nc, _hasInvalidColorScheme colorSchemes nc.2) nested = true).
      { apply existsb_exists. exists (name, command).
        split; [by apply list_elem_of_In | by apply (IH _ Hin)]. }
      destruct nested; [by apply elem_of_nil in Hin | exact Hex].
Qed.

(** The pass over the commands appends [InvalidColorSchemeInCmd] once exactly
    when some command of the name map, at any depth below groups, is no group
    and sets a color scheme that does not exist, outside an iteration over the
    schemes; the action of a group itself is not examined.  Otherwise the
    settings object is unchanged. *)
Theorem _validateColorSchemesInCommands_warns (s : CascadiaSettings) :
  let colorSchemes := ColorSchemes (_globals s) in
  let invalid := ∃ name command,
    (name, command) ∈ NameMap (_globals s)
    ∧ invalid_scheme_command colorSchemes command in
  (∀ command,
     _hasInvalidColorScheme colorSchemes command = true
     ↔ invalid_scheme_command colorSchemes command)
  ∧ (invalid →
     _validateColorSchemesInCommands s
     = with_warnings (_warnings s ++ [InvalidColorSchemeInCmd]) s)
  ∧ (¬ invalid → _validateColorSchemesInCommands s = s).
Proof.
  intros colorSchemes invalid. split; [apply _hasInvalidColorScheme_spec |].
  unfold _validateColorSchemesInCommands. fold colorSchemes.
  destruct (existsb _ _) eqn:Hex.
  - split; [done |]. intros Hno. destruct Hno.
    apply existsb_exists in Hex as ([name command] & Hin%list_elem_of_In & Hc).
    exists name, command. split; [done |]. by apply _hasInvalidColorScheme_spec.
  - split; [| done]. intros (name & command & Hin & Hinv).
    assert (existsb (λ nc, _hasInvalidColorScheme colorSchemes nc.2)
              (NameMap (_globals s)) = true) as Hex'; [| congruence].
    apply existsb_exists. exists (name, command).
    split; [by apply list_elem_of_In | by apply _hasInvalidColorScheme_spec].
Qed.
End CommandFacts.

(** A group is judged by the commands below it, not by its own action. *)
Example _hasInvalidColorScheme_group :
  let colorSchemes : gset string := {["Campbell"]} in
  let unknown := mkCommand [] (Some (SetColorSchemeArgs "Foo")) ExpandCommandType.None in
  let known := mkCommand [] (Some (SetColorSchemeArgs "Campbell")) ExpandCommandType.None in
  let iterated := mkCommand [] (Some (SetColorSchemeArgs "Foo"))
                    ExpandCommandType.ColorSchemes in
  _hasInvalidColorScheme colorSchemes unknown = true
  ∧ _hasInvalidColorScheme colorSchemes iterated = false
  ∧ _hasInvalidColorScheme colorSchemes
      (mkCommand [("a", known)] (Some (SetColorSchemeArgs "Foo")) ExpandCommandType.None)
    = false
  ∧ _hasInvalidColorScheme colorSchemes
      (mkCommand [("a", known); ("b", mkCommand [("c", unknown)] None ExpandCommandType.None)]
         None ExpandCommandType.None)
    = true.
Proof. repeat split; vm_compute; reflexivity. Qed.

(** ** Renaming a color scheme *)

Section Renaming.
Context `{Env}.

Lemma appearance_has_own k h appearance :
  appearance_has k h appearance
  = bool_decide (is_Some (slot_own h (AppearanceSlot appearance k))).
Proof.
  assert (Hnone : bool_decide (is_Some (@None string)) = false).
  { apply bool_decide_eq_false_2. by intros [? ?]. }
  destruct appearance as [a | b]; cbn [appearance_has slot_own]; unfold has_setting.
  - destruct (h !! a) as [p|]; cbn [mbind option_bind]; [done | by rewrite Hnone].
  - destruct (h !! b) as [p|]; cbn [mbind option_bind]; [| by rewrite Hnone].
    destruct (UnfocusedAppearance p) as [u|]; cbn [mbind option_bind];
      [done | by rewrite Hnone].
Qed.

(** The test of [update_reference] is a test of the explicitly set value. *)
Lemma update_reference_test oldName h appearance :
  HasColorSchemeName h appearance && bool_decide (ColorSchemeName h appearance = oldName)
  = bool_decide (slot_own h (AppearanceSlot appearance "ColorSchemeName") = Some oldName).
Proof.
  unfold HasColorSchemeName. rewrite appearance_has_own.
  destruct (slot_own h (AppearanceSlot appearance "ColorSchemeName")) as [v|] eqn:Ev.
  - pose proof (slot_get_own h _ _ Ev) as Hget. cbn [slot_get] in Hget.
    unfold ColorSchemeName. rewrite Hget.
    rewrite bool_decide_eq_true_2 by by eexists. cbn [andb].
    apply bool_decide_ext. split; [by intros -> | by intros [= ->]].
  - rewrite bool_decide_eq_false_2 by by intros [? ?]. cbn [andb].
    symmetry. by apply bool_decide_eq_false_2.
Qed.

Lemma slot_own_appearance_set k v appearance h sl :
  is_Some (slot_own h (AppearanceSlot appearance k)) →
  slot_own (appearance_set k v appearance h) sl
  = if decide (sl = AppearanceSlot appearance k) then Some v else slot_own h sl.
Proof.
  intros [v0 Hv0]. case_decide as Hsl.
  - subst sl. destruct appearance as [a | b]; cbn [appearance_set slot_own] in *;
      unfold set_setting; rewrite lookup_alter_eq;
      destruct (h !! _) as [p|]; simplify_eq/=.
    + apply lookup_insert_eq.
    + destruct (UnfocusedAppearance p) as [u|]; simplify_eq/=. apply lookup_insert_eq.
  - destruct appearance as [a | b], sl as [[a' | b'] k' | a' k'];
      cbn [appearance_set slot_own] in *; unfold set_setting;
      rewrite lookup_alter; case_decide; subst; try done;
      destruct (h !! _) as [p|]; simplify_eq/=; try done.
    + apply lookup_insert_ne. congruence.
    + destruct (UnfocusedAppearance p) as [u|]; simplify_eq/=.
      apply lookup_insert_ne. congruence.
Qed.

Lemma appearance_set_skeleton k v appearance h :
  same_skeleton h (appearance_set k v appearance h).
Proof.
  intros x. destruct appearance as [a | b]; cbn [appearance_set]; unfold set_setting;
    rewrite lookup_alter; case_decide; subst; try done;
    destruct (h !! _) as [p|]; simpl; try done.
  unfold skeleton; simpl. by destruct (UnfocusedAppearance p).
Qed.

Lemma appearance_set_same k v appearance h :
  slot_own h (AppearanceSlot appearance k) = Some v →
  appearance_set k v appearance h = h.
Proof.
  intros Hv. destruct appearance as [a | b]; cbn [appearance_set slot_own] in *;
    unfold set_setting; apply alter_id; intros p Hp; rewrite Hp in Hv; simpl in Hv;
    destruct p as [o g n hd st fi da ua ps]; simpl in *.
  - unfold with_part; simpl. by rewrite insert_id.
  - unfold with_unfocused; simpl. destruct ua as [u|]; simpl in *; [| done].
    by rewrite insert_id.
Qed.

(** What one step does to the explicitly set values. *)
Lemma slot_own_update_reference oldName newName h appearance sl :
  slot_own (update_reference oldName newName h appearance) sl
  = if decide (sl = AppearanceSlot appearance "ColorSchemeName"
               ∧ slot_own h sl = Some oldName)
    then Some newName else slot_own h sl.
Proof.
  unfold update_reference. rewrite update_reference_test.
  case_bool_decide as Hold.
  - unfold SetColorSchemeName. rewrite slot_own_appearance_set by by eexists.
    case_decide as Hsl.
    + subst sl. by rewrite decide_True.
    + by rewrite decide_False by by intros [? _].
  - rewrite decide_False; [done |]. by intros [-> ?].
Qed.

Lemma update_reference_skeleton oldName newName h appearance :
  same_skeleton h (update_reference oldName newName h appearance).
Proof.
  unfold update_reference. destruct (_ && _); [apply appearance_set_skeleton | done].
Qed.

Lemma update_reference_same name h appearance :
  update_reference name name h appearance = h.
Proof.
  unfold update_reference. rewrite update_reference_test.
  case_bool_decide; [by apply appearance_set_same | done].
Qed.

(** The loop visits the appearances as they are listed at the start. *)
Lemma UpdateColorSchemeReferences_loop oldName newName h0 l h :
  same_skeleton h0 h →
  foldl (λ h profile,
           let h := update_reference oldName newName h (DefaultOf profile) in
           match UnfocusedAppearance_ref h profile with
           | Some unfocused => update_reference oldName newName h unfocused
           | None => h
           end) h l
  = foldl (update_reference oldName newName) h (l ≫= appearances_of h0).
Proof.
  revert h. induction l as [|profile l IH]; intros h Hs; [done |].
  cbn [foldl]. rewrite bind_cons, foldl_app. cbn zeta.
  set (h1 := update_reference oldName newName h (DefaultOf profile)).
  assert (Hs1 : same_skeleton h0 h1).
  { eapply same_skeleton_trans; [exact Hs | apply update_reference_skeleton]. }
  rewrite (UnfocusedAppearance_ref_skeleton h0 h1 profile Hs1).
  change (appearances_of h0 profile)
    with (DefaultOf profile :: option_list (UnfocusedAppearance_ref h0 profile)).
  cbn [foldl]. fold h1.
  destruct (UnfocusedAppearance_ref h0 profile) as [u|]; cbn [option_list foldl].
  - apply IH. eapply same_skeleton_trans; [exact Hs1 | apply update_reference_skeleton].
  - by apply IH.
Qed.

Lemma UpdateColorSchemeReferences_eq h s oldName newName :
  UpdateColorSchemeReferences h s oldName newName
  = foldl (update_reference oldName newName) h (referencing_appearances h s).
Proof.
  unfold UpdateColorSchemeReferences, referencing_appearances. cbn [foldl].
  apply UpdateColorSchemeReferences_loop, update_reference_skeleton.
Qed.

Lemma foldl_update_reference_skeleton oldName newName l h :
  same_skeleton h (foldl (update_reference oldName newName) h l).
Proof.
  revert h. induction l as [|a l IH]; intros h; [done |]. cbn [foldl].
  eapply same_skeleton_trans; [apply update_reference_skeleton | apply IH].
Qed.

Lemma foldl_update_reference_same name l h :
  foldl (update_reference name name) h l = h.
Proof.
  induction l as [|a l IH]; [done |]. cbn [foldl]. by rewrite update_reference_same.
Qed.

Lemma slot_own_foldl_update_reference oldName newName l h sl :
  slot_own (foldl (update_reference oldName newName) h l) sl
  = if decide (sl ∈ scheme_slots l ∧ slot_own h sl = Some oldName)
    then Some newName else slot_own h sl.
Proof.
  induction l as [|a l IH] using rev_ind.
  - cbn [foldl]. rewrite decide_False; [done |].
    intros [Hin _]. by apply elem_of_nil in Hin.
  - rewrite foldl_app. cbn [foldl]. rewrite slot_own_update_reference, IH. clear IH.
    unfold scheme_slots. rewrite fmap_app. cbn [fmap list_fmap].
    fold (scheme_slots l).
    destruct (decide (sl ∈ scheme_slots l ∧ slot_own h sl = Some oldName))
      as [[Hin Hold] | Hn].
    + rewrite (decide_True (P := sl ∈ scheme_slots l ++ _ ∧ _))
        by (split; [apply elem_of_app; by left | done]).
      by case_decide.
    + destruct (decide (sl = AppearanceSlot a "ColorSchemeName"
                        ∧ slot_own h sl = Some oldName)) as [[-> Hold] | Hn2].
      * rewrite decide_True
          by (split; [apply elem_of_app; right; by apply list_elem_of_singleton | done]).
        done.
      * rewrite decide_False; [done |]. intros [Hin Hold].
        apply elem_of_app in Hin as [Hin | Hin%list_elem_of_singleton]; [by destruct Hn |].
        by destruct Hn2.
Qed.

Lemma appearance_set_outside k v appearance h :
  same_outside_appearances h (appearance_set k v appearance h).
Proof.
  intros x. destruct appearance as [a | b]; cbn [appearance_set]; unfold set_setting;
    rewrite lookup_alter; case_decide; subst; try done;
    destruct (h !! _) as [p|]; simpl; try done.
  unfold outside_appearances; simpl. by destruct (UnfocusedAppearance p).
Qed.

Lemma foldl_update_reference_outside oldName newName l h :
  same_outside_appearances h (foldl (update_reference oldName newName) h l).
Proof.
  revert h. induction l as [|a l IH]; intros h; [done |]. cbn [foldl].
  intros x. rewrite <- IH. unfold update_reference.
  destruct (_ && _); [apply appearance_set_outside | done].
Qed.

(** Two stores that differ in settings of appearances at most are equal
    when they agree on the explicitly set values of the appearances. *)
Lemma same_outside_appearances_eq h h' :
  same_outside_appearances h h' →
  (∀ appearance k, slot_own h' (AppearanceSlot appearance k)
                   = slot_own h (AppearanceSlot appearance k)) →
  h' = h.
Proof.
  intros Hout Hown. apply map_eq. intros a. specialize (Hout a).
  pose proof (λ k, Hown (DefaultOf a) k) as Hd.
  pose proof (λ k, Hown (UnfocusedOf a) k) as Hu.
  cbn [slot_own] in Hd, Hu.
  destruct (h !! a) as [p|], (h' !! a) as [p'|]; simplify_eq/=; [| done].
  destruct p as [o g n hd st fi da ua ps], p' as [o' g' n' hd' st' fi' da' ua' ps'].
  unfold outside_appearances in Hout. simplify_eq/=.
  assert (da' = da) as -> by (by apply map_eq).
  destruct ua as [u|], ua' as [u'|]; simplify_eq/=; try done.
  assert (u' = u) as -> by (by apply map_eq). done.
Qed.

Lemma same_identity_appearance_set k v appearance h :
  same_identity h (appearance_set k v appearance h).
Proof.
  destruct appearance as [a | b]; cbn [appearance_set]; unfold set_setting;
    apply same_identity_alter; by intros [].
Qed.

Lemma foldl_update_reference_identity oldName newName l h :
  same_identity h (foldl (update_reference oldName newName) h l).
Proof.
  revert h. induction l as [|a l IH]; intros h; [apply same_identity_refl |]. cbn [foldl].
  eapply same_identity_trans; [| apply IH]. unfold update_reference.
  destruct (_ && _); [apply same_identity_appearance_set | apply same_identity_refl].
Qed.

Lemma referencing_appearances_skeleton h h' s :
  same_skeleton h h' → referencing_appearances h' s = referencing_appearances h s.
Proof.
  intros Hs. unfold referencing_appearances. f_equal.
  induction (_allProfiles s) as [|a l IH]; [done |].
  by rewrite !bind_cons, IH, (appearances_of_skeleton h h' a Hs).
Qed.
End Renaming.

Section RenamingClaims.
Context `{Env}.

(** [UpdateColorSchemeReferences] replaces the old name by the new one in
    every appearance it visits (the default appearance of the base layer, and
    the default and the unfocused appearance of every listed profile) that
    sets the old name explicitly, and changes no other explicitly set value:
    inherited names, other settings, and appearances it does not visit stay
    as they are.  When the names differ no visited appearance sets the old
    name afterwards; when they are equal the store is unchanged.  GUIDs, names
    and command lines of profiles read as before. *)
Theorem UpdateColorSchemeReferences_renames (h : heap) (s : CascadiaSettings)
    (oldName newName : string) :
  let h' := UpdateColorSchemeReferences h s oldName newName in
  let visited := scheme_slots (referencing_appearances h s) in
  (∀ sl, sl ∈ visited → slot_own h sl = Some oldName → slot_own h' sl = Some newName)
  ∧ (∀ sl, sl ∉ visited ∨ slot_own h sl ≠ Some oldName → slot_own h' sl = slot_own h sl)
  ∧ (oldName ≠ newName → ∀ sl, sl ∈ visited → slot_own h' sl ≠ Some oldName)
  ∧ (oldName = newName → h' = h)
  ∧ same_skeleton h h'
  ∧ same_identity h h'.
Proof.
  intros h' visited. subst h'. rewrite UpdateColorSchemeReferences_eq.
  fold visited.
  assert (Hown := slot_own_foldl_update_reference oldName newName
                    (referencing_appearances h s) h).
  fold visited in Hown.
  split; [| split; [| split; [| split; [| split]]]].
  - intros sl Hin Hold. rewrite Hown. by rewrite decide_True.
  - intros sl Hsl. rewrite Hown. rewrite decide_False; [done |].
    intros [Hin Hold]. by destruct Hsl.
  - intros Hne sl Hin. rewrite Hown. case_decide as Hd; [congruence |].
    intros Hold. by destruct Hd.
  - intros <-. apply foldl_update_reference_same.
  - apply foldl_update_reference_skeleton.
  - apply foldl_update_reference_identity.
Qed.

(** Renaming back: when no visited appearance sets the new name explicitly,
    renaming the old name to the new one and then the new one to the old one
    gives the store back. *)
Theorem UpdateColorSchemeReferences_round_trip (h : heap) (s : CascadiaSettings)
    (oldName newName : string) :
  (∀ sl, sl ∈ scheme_slots (referencing_appearances h s) →
         slot_own h sl ≠ Some newName) →
  UpdateColorSchemeReferences (UpdateColorSchemeReferences h s oldName newName) s
    newName oldName
  = h.
Proof.
  intros Hfresh. rewrite !UpdateColorSchemeReferences_eq.
  set (l := referencing_appearances h s).
  set (h1 := foldl (update_reference oldName newName) h l).
  assert (Hl : referencing_appearances h1 s = l).
  { apply referencing_appearances_skeleton, foldl_update_reference_skeleton. }
  rewrite Hl. apply same_outside_appearances_eq.
  - intros a. unfold h1.
    rewrite (foldl_update_reference_outside oldName newName l h a).
    apply foldl_update_reference_outside.
  - intros appearance k. rewrite slot_own_foldl_update_reference. unfold h1.
    rewrite slot_own_foldl_update_reference.
    set (sl := AppearanceSlot appearance k).
    destruct (decide (sl ∈ scheme_slots l ∧ slot_own h sl = Some oldName))
      as [[Hin Hold] | Hn].
    + by rewrite decide_True.
    + rewrite decide_False; [done |]. intros [Hin Hnew]. by apply (Hfresh sl Hin).
Qed.
End RenamingClaims.

Lemma UpdateColorSchemeReferences_round_trip_witness :
  (∀ sl, sl ∈ scheme_slots (referencing_appearances unknown_scheme_heap two_profile_settings) →
         slot_own unknown_scheme_heap sl ≠ Some "Baz")
  ∧ @UpdateColorSchemeReferences example_env
      (@UpdateColorSchemeReferences example_env unknown_scheme_heap two_profile_settings
         "Foo" "Baz")
      two_profile_settings "Baz" "Foo"
    = unknown_scheme_heap.
Proof.
  assert (Hfresh : ∀ sl,
            sl ∈ scheme_slots (referencing_appearances unknown_scheme_heap
                                 two_profile_settings) →
            slot_own unknown_scheme_heap sl ≠ Some "Baz").
  { apply Forall_forall. vm_compute. repeat constructor; discriminate. }
  split; [exact Hfresh |].
  exact (@UpdateColorSchemeReferences_round_trip example_env unknown_scheme_heap
           two_profile_settings "Foo" "Baz" Hfresh).
Defined.

(** Renaming "Foo" reaches both profiles and leaves "Bar" alone. *)
Example UpdateColorSchemeReferences_Foo :
  let h' := @UpdateColorSchemeReferences example_env unknown_scheme_heap
              two_profile_settings "Foo" "Baz" in
  slot_own h' (AppearanceSlot (DefaultOf 2%positive) "ColorSchemeName") = Some "Baz"
  ∧ slot_own h' (AppearanceSlot (DefaultOf 3%positive) "ColorSchemeName") = Some "Baz"
  ∧ slot_own h' (AppearanceSlot (UnfocusedOf 3%positive) "ColorSchemeName") = Some "Bar".
Proof. repeat split; vm_compute; reflexivity. Qed.

(** ** The color scheme of a profile after the scheme pass *)

Section SchemeOfProfile.
Context `{Env}.

Lemma scheme_pass_silent colorSchemes h l :
  existsb (λ profile, existsb (invalid_scheme colorSchemes h) (appearances_of h profile)) l
  = false →
  run_checks (l ≫= scheme_checks colorSchemes h) h = h.
Proof.
  induction l as [|a l IH]; [done |]. cbn [existsb].
  intros [Ha Hl]%orb_false_elim.
  by rewrite bind_cons, run_checks_app, (scheme_checks_pass _ _ _ Ha), IH.
Qed.

(** A scheme pass that appends no warning changes nothing, and then every
    listed profile has a color scheme: the one its default appearance
    names. *)
Theorem GetColorSchemeForProfile_after_silent_pass (h : heap) (s : CascadiaSettings)
    (profile : addr) :
  profile ∈ _allProfiles s →
  _warnings (_validateAllSchemesExist h s).2 = _warnings s →
  _validateAllSchemesExist h s = (h, s)
  ∧ GetColorSchemeForProfile h s (Some profile)
    = Some (ColorSchemeName h (DefaultOf profile)).
Proof.
  intros Hp. rewrite _validateAllSchemesExist_eq. cbn [snd].
  set (colorSchemes := ColorSchemes (_globals s)).
  destruct (existsb _ _) eqn:Hflag.
  { unfold Append. cbn [_warnings with_warnings]. intros Hw.
    apply (f_equal length) in Hw. rewrite length_app in Hw. simpl in Hw. lia. }
  intros _. rewrite (scheme_pass_silent _ _ _ Hflag). split; [done |].
  assert (Hvalid : invalid_scheme colorSchemes h (DefaultOf profile) = false).
  { destruct (invalid_scheme colorSchemes h (DefaultOf profile)) eqn:Hinv; [| done].
    assert (existsb (λ profile, existsb (invalid_scheme colorSchemes h)
                                  (appearances_of h profile)) (_allProfiles s) = true)
      as Hex; [| congruence].
    apply existsb_exists. exists profile. split; [by apply list_elem_of_In |].
    unfold appearances_of. cbn [existsb]. by rewrite Hinv. }
  unfold GetColorSchemeForProfile, TryLookup. fold colorSchemes.
  unfold invalid_scheme in Hvalid. apply negb_false_iff in Hvalid. by rewrite Hvalid.
Qed.

(** The pass clears explicitly set names only.  When no listed profile sets
    a scheme name explicitly, a profile whose inherited name (from the base
    layer, say) is unknown draws the warning, yet the pass changes nothing:
    the profile still names the unknown scheme and has no color scheme. *)
Theorem GetColorSchemeForProfile_inherited_unknown (h : heap) (s : CascadiaSettings)
    (profile : addr) :
  profile ∈ _allProfiles s →
  (∀ p appearance,
     p ∈ _allProfiles s → appearance ∈ appearances_of h p →
     slot_own h (AppearanceSlot appearance "ColorSchemeName") = None) →
  ColorSchemeName h (DefaultOf profile) ∉ ColorSchemes (_globals s) →
  let r := _validateAllSchemesExist h s in
  r = (h, with_warnings (_warnings s ++ [UnknownColorScheme]) s)
  ∧ GetColorSchemeForProfile r.1 r.2 (Some profile) = None.
Proof.
  intros Hp Hinherited Hunknown r. subst r. rewrite _validateAllSchemesExist_eq.
  set (colorSchemes := ColorSchemes (_globals s)) in *.
  assert (Hinv : invalid_scheme colorSchemes h (DefaultOf profile) = true).
  { unfold invalid_scheme, HasKey. apply negb_true_iff. by apply bool_decide_eq_false_2. }
  assert (Hflag : existsb (λ profile, existsb (invalid_scheme colorSchemes h)
                                        (appearances_of h profile)) (_allProfiles s)
                  = true).
  { apply existsb_exists. exists profile. split; [by apply list_elem_of_In |].
    unfold appearances_of. cbn [existsb]. by rewrite Hinv. }
  rewrite Hflag.
  assert (Hsame : run_checks (_allProfiles s ≫= scheme_checks colorSchemes h) h = h).
  { apply run_checks_settled, Forall_forall. intros c Hc.
    apply list_elem_of_bind in Hc as (p & Hc & Hin).
    unfold scheme_checks in Hc. apply list_elem_of_fmap in Hc as (appearance & -> & Ha).
    intros v Hv. cbn [fst] in Hv. by rewrite (Hinherited p appearance Hin Ha) in Hv. }
  rewrite Hsame. split; [done |]. cbn [fst snd].
  unfold GetColorSchemeForProfile, TryLookup, Append. cbn [_globals with_warnings].
  fold colorSchemes. unfold invalid_scheme in Hinv. apply negb_true_iff in Hinv.
  by rewrite Hinv.
Qed.
End SchemeOfProfile.

Lemma GetColorSchemeForProfile_after_silent_pass_witness :
  2%positive ∈ _allProfiles example_settings
  ∧ _warnings (@_validateAllSchemesExist example_env example_heap example_settings).2
    = _warnings example_settings
  ∧ @_validateAllSchemesExist example_env example_heap example_settings
    = (example_heap, example_settings)
  ∧ @GetColorSchemeForProfile example_env example_heap example_settings (Some 2%positive)
    = Some (@ColorSchemeName example_env example_heap (DefaultOf 2%positive)).
Proof.
  assert (Hp : 2%positive ∈ _allProfiles example_settings) by (simpl; constructor).
  assert (Hw : _warnings (@_validateAllSchemesExist example_env example_heap
                            example_settings).2
               = _warnings example_settings) by (vm_compute; reflexivity).
  split; [exact Hp |]. split; [exact Hw |].
  exact (@GetColorSchemeForProfile_after_silent_pass example_env example_heap
           example_settings 2%positive Hp Hw).
Defined.

Lemma GetColorSchemeForProfile_inherited_unknown_witness :
  let r := @_validateAllSchemesExist example_env inherited_scheme_heap
             one_profile_settings in
  2%positive ∈ _allProfiles one_profile_settings
  ∧ (∀ p appearance,
       p ∈ _allProfiles one_profile_settings →
       appearance ∈ @appearances_of inherited_scheme_heap p →
       slot_own inherited_scheme_heap (AppearanceSlot appearance "ColorSchemeName") = None)
  ∧ (@ColorSchemeName example_env inherited_scheme_heap (DefaultOf 2%positive)
     ∉ ColorSchemes (_globals one_profile_settings))
  ∧ r = (inherited_scheme_heap,
         with_warnings (_warnings one_profile_settings ++ [UnknownColorScheme])
           one_profile_settings)
  ∧ @GetColorSchemeForProfile example_env r.1 r.2 (Some 2%positive) = None.
Proof.
  intros r.
  assert (Hp : 2%positive ∈ _allProfiles one_profile_settings) by (simpl; constructor).
  assert (Hinherited : ∀ p appearance,
            p ∈ _allProfiles one_profile_settings →
            appearance ∈ @appearances_of inherited_scheme_heap p →
            slot_own inherited_scheme_heap (AppearanceSlot appearance "ColorSchemeName")
            = None).
  { intros p appearance Hin Ha. simpl in Hin. apply list_elem_of_singleton in Hin as ->.
    vm_compute in Ha. apply list_elem_of_singleton in Ha as ->. vm_compute. reflexivity. }
  assert (Hunknown : @ColorSchemeName example_env inherited_scheme_heap
                       (DefaultOf 2%positive)
                     ∉ ColorSchemes (_globals one_profile_settings)).
  { vm_compute. intros Hin. discriminate Hin. }
  split; [exact Hp |]. split; [exact Hinherited |]. split; [exact Hunknown |].
  exact (@GetColorSchemeForProfile_inherited_unknown example_env inherited_scheme_heap
           one_profile_settings 2%positive Hp Hinherited Hunknown).
Defined.

(** ** An index promoted to a GUID *)

Section OpenNewTerminalFacts.
Context `{Env}.

Lemma GetProfileForArgs_shape h s newTerminalArgs r s' :
  GetProfileForArgs h s newTerminalArgs = (r, s') → ∃ once c, s' = with_cache once c s.
Proof.
  assert (Hsame : ∃ once c, s = with_cache once c s) by (destruct s; by eexists _, _).
  unfold GetProfileForArgs. destruct newTerminalArgs as [args|]; [| by intros [= <- <-]].
  destruct (by_name h s args) as [[p|] | e]; [by intros [= <- <-] | | by intros [= <- <-]].
  destruct (by_index s args) as [[p|] | e]; [by intros [= <- <-] | | by intros [= <- <-]].
  destruct (by_commandline h s args) as [[[p|] | e] s1] eqn:Ec; intros [= <- <-];
    by eapply by_commandline_shape.
Qed.

(** With shift down and no alt key, an entry of the menu that carries an
    index is opened in a new window under the GUID of the profile the index
    resolves to.  When that GUID is written as 38 characters in braces, reads
    back as itself, and finds the profile among the listed ones, the
    arguments handed to the new window resolve to the same profile, whatever
    index and command line they carry. *)
Theorem _OpenNewTerminal_promotes_index (GuidToString : guid → string)
    (h : heap) (s s1 : CascadiaSettings) (keys : KeyStates) (DebugFeaturesEnabled : bool)
    (newTerminalArgs : NewTerminalArgs.t) (index : Z) (profile : addr) :
  LeftMenu keys = false → RightMenu keys = false →
  Shift keys || LeftShift keys || RightShift keys = true →
  NewTerminalArgs.ProfileIndex newTerminalArgs = Some index →
  GetProfileForArgs h s (Some newTerminalArgs) = (Returned (Some profile), s1) →
  String.length (GuidToString (Guid h profile)) = 38 →
  String.get 0 (GuidToString (Guid h profile)) = Some "{"%char →
  GuidFromString (GuidToString (Guid h profile)) = Returned (Guid h profile) →
  FindProfile h s (Guid h profile) = Some profile →
  let promoted := set_Profile (GuidToString (Guid h profile)) newTerminalArgs in
  _OpenNewTerminal GuidToString h s keys DebugFeaturesEnabled newTerminalArgs
  = (Returned (_OpenNewWindow promoted), s1)
  ∧ GetProfileForArgs h s1 (Some promoted) = (Returned (Some profile), s1).
Proof.
  intros Hl Hr Hshift Hindex Hres Hlen Hbrace Hread Hfind promoted.
  split.
  - unfold _OpenNewTerminal. rewrite Hl, Hr, Hshift, Hindex, Hres.
    cbn [orb andb negb]. by rewrite andb_false_r.
  - destruct (GetProfileForArgs_shape _ _ _ _ _ Hres) as (once & c & ->).
    unfold GetProfileForArgs, by_name. cbn [NewTerminalArgs.Profile promoted set_Profile].
    assert (Hne : GuidToString (Guid h profile) ≠ "").
    { intros Heq. by rewrite Heq in Hlen. }
    rewrite bool_decide_eq_true_2 by done.
    unfold GetProfileByName. rewrite bool_decide_eq_true_2 by done.
    rewrite Hlen, Hbrace. rewrite !bool_decide_eq_true_2 by done. cbn [andb].
    rewrite Hread. cbn [obind]. rewrite FindProfile_with_cache, Hfind. done.
Qed.
End OpenNewTerminalFacts.

Lemma _OpenNewTerminal_promotes_index_witness :
  let GuidToString := λ _ : guid, example_guid_string in
  let keys := mkKeyStates false false true false false in
  let newTerminalArgs := NewTerminalArgs.mk "" (Some 0%Z) "zzz" in
  let promoted := NewTerminalArgs.mk example_guid_string (Some 0%Z) "zzz" in
  @_OpenNewTerminal example_env GuidToString example_heap example_settings keys false
    newTerminalArgs
  = (Returned (_OpenNewWindow promoted), example_settings)
  ∧ @GetProfileForArgs example_env example_heap example_settings (Some promoted)
    = (Returned (Some 2%positive), example_settings).
Proof.
  intros GuidToString keys newTerminalArgs promoted.
  assert (Hres : @GetProfileForArgs example_env example_heap example_settings
                   (Some newTerminalArgs)
                 = (Returned (Some 2%positive), example_settings))
    by (vm_compute; reflexivity).
  exact (@_OpenNewTerminal_promotes_index example_env GuidToString example_heap
           example_settings example_settings keys false newTerminalArgs 0%Z 2%positive
           eq_refl eq_refl eq_refl eq_refl Hres eq_refl eq_refl eq_refl eq_refl).
Defined.

(** ** Resolution on a copy *)

Section CloneResolution.
Context `{Env}.
Variables (h h' : heap) (visited : gmap positive positive) (rank : addr → nat).
Hypothesis graph_ok : well_formed_graph h rank.
Hypothesis size_ok : size h ≤ size h'.
Hypothesis all_cloned : ∀ x, is_Some (visited !! x) → cloned h (h', visited) x.

Lemma first_defined_snd {A A' B C} (g : A → option (B * C)) (g' : A' → option (B * C))
    (l : list A) (l' : list A') :
  Forall2 (λ x y, snd <$> g' y = snd <$> g x) l l' →
  snd <$> first_defined g' l' = snd <$> first_defined g l.
Proof.
  induction 1 as [|x y l l' Hxy _ IH]; [done |]. simpl.
  destruct (g x) as [[b c]|], (g' y) as [[b' c']|]; by simplify_eq/=.
Qed.

(** A clone inherits what its source inherits. *)
Lemma lookup_inherited_cloned {T} (sel : Profile → option T) fuel fuel' a c :
  (∀ cs p, sel (with_parents cs p) = sel p) →
  visited !! a = Some c → rank a < fuel → rank a < fuel' →
  snd <$> lookup_inherited sel fuel' h' c = snd <$> lookup_inherited sel fuel h a.
Proof.
  intros Hsel. revert fuel' a c.
  induction fuel as [|fuel IH]; intros fuel' a c Hc Hr Hr'; [lia |].
  destruct fuel' as [|fuel']; [lia |].
  destruct (all_cloned a) as (c0 & p & cs & Hc0 & Hp & Hh' & Hps); [by eexists |].
  cbn [fst snd] in *. assert (c0 = c) as -> by congruence.
  cbn [lookup_inherited]. rewrite Hp, Hh', Hsel.
  destruct (sel p) as [v|]; [done |].
  change (parents (with_parents cs p)) with cs.
  apply first_defined_snd.
  assert (Hlow : Forall (λ q, rank q < rank a) (parents p)).
  { apply Forall_forall. intros q Hq. by destruct (graph_parent h rank graph_ok a p q Hp Hq). }
  clear Hp Hh'. induction Hps as [|q cq ps cs Hq _ IHps]; [constructor |].
  apply Forall_cons in Hlow as [Hlq Hlow].
  constructor; [| by apply IHps]. apply IH; [done | lia | lia].
Qed.

Lemma resolve_cloned {T} (sel : Profile → option T) a c :
  (∀ cs p, sel (with_parents cs p) = sel p) →
  visited !! a = Some c →
  snd <$> resolve sel h' c = snd <$> resolve sel h a.
Proof.
  intros Hsel Hc. unfold resolve.
  destruct (all_cloned a) as (c0 & p & cs & _ & Hp & _); [by eexists |].
  pose proof (graph_rank h rank graph_ok a p Hp) as Hr.
  apply lookup_inherited_cloned; [done | done | lia | lia].
Qed.

Lemma Guid_cloned a c : visited !! a = Some c → Guid h' c = Guid h a.
Proof.
  intros Hc. unfold Guid.
  pose proof (resolve_cloned _Guid a c (λ _ _, eq_refl) Hc) as Hr.
  destruct (resolve _Guid h' c) as [[? ?]|], (resolve _Guid h a) as [[? ?]|];
    by simplify_eq/=.
Qed.

Lemma Name_cloned a c : visited !! a = Some c → Name h' c = Name h a.
Proof.
  intros Hc. unfold Name.
  pose proof (resolve_cloned _Name a c (λ _ _, eq_refl) Hc) as Hr.
  destruct (resolve _Name h' c) as [[? ?]|], (resolve _Name h a) as [[? ?]|];
    by simplify_eq/=.
Qed.

Lemma Hidden_cloned a c : visited !! a = Some c → Hidden h' c = Hidden h a.
Proof.
  intros Hc. unfold Hidden.
  pose proof (resolve_cloned _Hidden a c (λ _ _, eq_refl) Hc) as Hr.
  destruct (resolve _Hidden h' c) as [[? ?]|], (resolve _Hidden h a) as [[? ?]|];
    by simplify_eq/=.
Qed.

Lemma get_setting_cloned pt k a c :
  visited !! a = Some c → get_setting pt k h' c = get_setting pt k h a.
Proof.
  intros Hc. unfold get_setting.
  assert (Hsel : ∀ cs p, part_map pt (with_parents cs p) !! k = part_map pt p !! k)
    by (intros cs p; by destruct pt).
  pose proof (resolve_cloned (λ p, part_map pt p !! k) a c Hsel Hc) as Hr.
  destruct (resolve _ h' c) as [[? ?]|], (resolve _ h a) as [[? ?]|]; by simplify_eq/=.
Qed.

(** Lists of clones. *)
Lemma find_cloned (f f' : addr → bool) (l l' : list addr) :
  Forall2 (λ a c, visited !! a = Some c) l l' →
  (∀ a c, visited !! a = Some c → f' c = f a) →
  List.find f' l' = List.find f l ≫= (visited !!.).
Proof.
  intros Hl Hf. induction Hl as [|a c l l' Hac _ IH]; [done |]. simpl.
  rewrite (Hf a c Hac). by destruct (f a).
Qed.

Lemma filter_cloned (f f' : addr → bool) (l l' : list addr) :
  Forall2 (λ a c, visited !! a = Some c) l l' →
  (∀ a c, visited !! a = Some c → f' c = f a) →
  Forall2 (λ a c, visited !! a = Some c) (List.filter f l) (List.filter f' l').
Proof.
  intros Hl Hf. induction Hl as [|a c l l' Hac _ IH]; [constructor |]. simpl.
  rewrite (Hf a c Hac). destruct (f a); [by constructor | done].
Qed.

Lemma lookup_cloned (l l' : list addr) (i : nat) :
  Forall2 (λ a c, visited !! a = Some c) l l' →
  l' !! i = l !! i ≫= (visited !!.).
Proof.
  intros Hl. revert i. induction Hl as [|a c l l' Hac _ IH]; intros i; [done |].
  destruct i as [|i]; [by simpl | apply IH].
Qed.

Lemma fill_cache_cloned l l' cache cache' :
  Forall2 (λ a c, visited !! a = Some c) l l' →
  Forall2 (cloned_entry visited) cache cache' →
  (fill_cache h' l' cache').2 = (fill_cache h l cache).2
  ∧ Forall2 (cloned_entry visited) (fill_cache h l cache).1 (fill_cache h' l' cache').1.
Proof.
  intros Hl. revert cache cache'.
  induction Hl as [|a c l l' Hac _ IH]; intros cache cache' Hcache; [done |].
  cbn [fill_cache]. unfold Commandline. rewrite (get_setting_cloned _ _ a c Hac).
  case_bool_decide; [| by apply IH].
  destruct (_normalizeCommandLine _) as [n | e]; [| done].
  apply IH. apply Forall2_app; [done |]. constructor; [done | constructor].
Qed.

Lemma stable_insert_cloned x x' l l' :
  cloned_entry visited x x' → Forall2 (cloned_entry visited) l l' →
  Forall2 (cloned_entry visited) (stable_insert x l) (stable_insert x' l').
Proof.
  intros Hx Hl. induction Hl as [|y y' l l' Hy Hl IH].
  { cbn [stable_insert]. constructor; [done | constructor]. }
  cbn [stable_insert]. unfold cache_comp. rewrite (proj1 Hx), (proj1 Hy).
  case_bool_decide; constructor; try done. by constructor.
Qed.

Lemma stable_sort_cloned l l' :
  Forall2 (cloned_entry visited) l l' → Forall2 (cloned_entry visited) (stable_sort l) (stable_sort l').
Proof.
  unfold stable_sort. induction 1 as [|x x' l l' Hx _ IH]; [constructor |].
  cbn [foldr]. by apply stable_insert_cloned.
Qed.

Lemma lower_bound_loop_cloned fuel cache cache' needle first count :
  Forall2 (cloned_entry visited) cache cache' →
  lower_bound_loop fuel cache' needle first count
  = lower_bound_loop fuel cache needle first count.
Proof.
  intros Hc. revert first count. induction fuel as [|fuel IH]; intros first count; [done |].
  cbn [lower_bound_loop]. case_bool_decide; [done |]. cbn zeta.
  destruct (cache !! (first + count `div` 2)) as [lhs|] eqn:E.
  - destruct (Forall2_lookup_l _ _ _ _ _ Hc E) as (lhs' & -> & [-> _]).
    by rewrite !IH.
  - assert (cache' !! (first + count `div` 2) = None) as ->; [| done].
    apply lookup_ge_None. apply lookup_ge_None in E.
    by rewrite <- (Forall2_length _ _ _ Hc).
Qed.

Lemma search_cache_cloned cache cache' needle :
  Forall2 (cloned_entry visited) cache cache' →
  search_cache cache' needle = search_cache cache needle ≫= (visited !!.).
Proof.
  intros Hc. unfold search_cache, lower_bound.
  rewrite <- (Forall2_length _ _ _ Hc), (lower_bound_loop_cloned _ _ _ _ _ _ Hc).
  pose proof (Forall2_drop _ _ _ (lower_bound_loop (length cache) cache needle 0
                                    (length cache)) Hc) as Hd.
  induction Hd as [|e e' l l' [He1 He2] _ IH]; [done |]. simpl.
  rewrite He1. by destruct (starts_with needle e.1).
Qed.
End CloneResolution.

Section CopyResolution.
Context `{Env}.
Variables (h h' : heap) (visited : gmap positive positive) (rank : addr → nat).
Variables (s s' : CascadiaSettings).
Hypothesis graph_ok : well_formed_graph h rank.
Hypothesis size_ok : size h ≤ size h'.
Hypothesis all_cloned : ∀ x, is_Some (visited !! x) → cloned h (h', visited) x.
Hypothesis all_profiles :
  Forall2 (λ a c, visited !! a = Some c) (_allProfiles s) (_allProfiles s').
Hypothesis active_profiles :
  Forall2 (λ a c, visited !! a = Some c) (_activeProfiles s) (_activeProfiles s').
Hypothesis base_layer : visited !! _baseLayerProfile s = Some (_baseLayerProfile s').
Hypothesis globals : _globals s' = _globals s.
Hypothesis cache_new : _commandLinesCacheOnce s' = false ∧ _commandLinesCache s' = [].
Hypothesis cache_old : cache_ready h s.

Lemma cloned_result_option (o : option addr) (o' : option addr) :
  o' = o ≫= (visited !!.) → (∀ a, o = Some a → is_Some (visited !! a)) →
  cloned_result visited (Returned o) (Returned o').
Proof.
  intros -> Ho. split; [by destruct o | by intros a [= ->]; apply Ho].
Qed.

Lemma find_has_clone (f : addr → bool) (l l' : list addr) a :
  Forall2 (λ a c, visited !! a = Some c) l l' →
  List.find f l = Some a → is_Some (visited !! a).
Proof.
  intros Hl Hf. apply find_some in Hf as [Hin%list_elem_of_In _].
  destruct (Forall2_elem_of_l _ _ _ _ Hl Hin) as (c & _ & Hc). by eexists.
Qed.

Lemma FindProfile_copy guid :
  FindProfile h' s' guid = FindProfile h s guid ≫= (visited !!.)
  ∧ ∀ a, FindProfile h s guid = Some a → is_Some (visited !! a).
Proof.
  unfold FindProfile. split.
  - apply find_cloned; [done |]. intros a c Hac.
    by rewrite (Guid_cloned h h' visited rank graph_ok size_ok all_cloned a c Hac).
  - intros a. by apply find_has_clone with (l' := _allProfiles s').
Qed.

Lemma GetProfileByName_copy name :
  cloned_result visited (GetProfileByName h s name) (GetProfileByName h' s' name).
Proof.
  assert (Hname : cloned_result visited
            (Returned (List.find (λ profile, bool_decide (Name h profile = name))
                         (_allProfiles s)))
            (Returned (List.find (λ profile, bool_decide (Name h' profile = name))
                         (_allProfiles s')))).
  { apply cloned_result_option.
    - apply find_cloned; [done |]. intros a c Hac.
      by rewrite (Name_cloned h h' visited rank graph_ok size_ok all_cloned a c Hac).
    - intros a. by apply find_has_clone with (l' := _allProfiles s'). }
  unfold GetProfileByName. case_bool_decide; [| by split].
  destruct (_ && _); cbn [obind]; [| done].
  destruct (GuidFromString name) as [guid | e]; cbn [obind]; [| by split].
  destruct (FindProfile_copy guid) as [-> Hsome].
  destruct (FindProfile h s guid) as [a|]; cbn [mbind option_bind]; [| done].
  destruct (Hsome a eq_refl) as [c Hc]. rewrite Hc. split; [by cbn; rewrite Hc |].
  intros ? [= <-]. by eexists.
Qed.

Lemma GetProfileByIndex_copy index :
  GetProfileByIndex s' index = GetProfileByIndex s index ≫= (visited !!.)
  ∧ ∀ a, GetProfileByIndex s index = Some a → is_Some (visited !! a).
Proof.
  unfold GetProfileByIndex, Size.
  rewrite <- (Forall2_length _ _ _ active_profiles). case_bool_decide; [| done].
  split; [by apply lookup_cloned |].
  intros a Ha. apply list_elem_of_lookup_2 in Ha.
  destruct (Forall2_elem_of_l _ _ _ _ active_profiles Ha) as (c & _ & Hc). by eexists.
Qed.

Lemma search_cache_has_clone cache cache' needle a :
  Forall2 (cloned_entry visited) cache cache' →
  search_cache cache needle = Some a → is_Some (visited !! a).
Proof.
  intros Hc. unfold search_cache.
  destruct (List.find _ _) as [e|] eqn:E; [| done]. intros [= <-].
  apply find_some in E as [Hin%list_elem_of_In _].
  eapply elem_of_sublist in Hin; [| apply sublist_drop].
  destruct (Forall2_elem_of_l _ _ _ _ Hc Hin) as (e' & _ & _ & He). by eexists.
Qed.

Lemma _getProfileForCommandLine_copy commandLine :
  cloned_result visited (_getProfileForCommandLine h s commandLine).1
    (_getProfileForCommandLine h' s' commandLine).1.
Proof.
  destruct cache_new as [Honce' Hcache'].
  destruct (fill_cache_cloned h h' visited rank graph_ok size_ok all_cloned
              (_allProfiles s) (_allProfiles s') [] [] all_profiles
              (List.Forall2_nil _)) as [Hexn Hfill].
  assert (Hsearch : ∀ cache cache',
            Forall2 (cloned_entry visited) cache cache' →
            cloned_result visited
              (needle <-! _normalizeCommandLine commandLine;
               Returned (search_cache (stable_sort cache) needle))
              (needle <-! _normalizeCommandLine commandLine;
               Returned (search_cache (stable_sort cache') needle))).
  { intros cache cache' Hc.
    destruct (_normalizeCommandLine commandLine) as [needle | e]; cbn [obind];
      [| by split].
    apply stable_sort_cloned in Hc. apply cloned_result_option.
    - by apply search_cache_cloned.
    - intros a. by apply search_cache_has_clone with (cache' := stable_sort cache'). }
  unfold _getProfileForCommandLine at 2. unfold build_cache_once.
  rewrite Honce', Hcache'.
  destruct (fill_cache h' (_allProfiles s') []) as [cache' exn'].
  cbn [fst snd] in Hexn, Hfill. subst exn'.
  unfold _getProfileForCommandLine, build_cache_once.
  destruct cache_old as [[Honce Hcache] | (Honce & cache & Hbuilt & Hcache)];
    rewrite Honce.
  - rewrite Hcache.
    destruct (fill_cache h (_allProfiles s) []) as [cache [e|]]; cbn [fst snd] in *;
      [by split |].
    by apply Hsearch.
  - rewrite Hbuilt in Hfill |- *. cbn [fst snd] in *. rewrite Hcache. by apply Hsearch.
Qed.

Lemma default_branch_copy newTerminalArgs :
  cloned_result visited (Returned (default_branch h s newTerminalArgs))
    (Returned (default_branch h' s' newTerminalArgs)).
Proof.
  assert (Hfind : cloned_result visited
            (Returned (FindProfile h s (DefaultProfile (_globals s))))
            (Returned (FindProfile h' s' (DefaultProfile (_globals s'))))).
  { rewrite globals. destruct (FindProfile_copy (DefaultProfile (_globals s))).
    by apply cloned_result_option. }
  assert (Hbase : cloned_result visited (Returned (Some (ProfileDefaults s)))
                    (Returned (Some (ProfileDefaults s')))).
  { unfold ProfileDefaults. split; [by cbn; rewrite base_layer |].
    intros a [= <-]. by eexists. }
  unfold default_branch. destruct Feature_ShowProfileDefaultsInSettings; [| done].
  by destruct (match newTerminalArgs with Some _ => _ | None => _ end).
Qed.

Lemma GetProfileForArgs_copy newTerminalArgs :
  cloned_result visited (GetProfileForArgs h s newTerminalArgs).1
    (GetProfileForArgs h' s' newTerminalArgs).1.
Proof.
  unfold GetProfileForArgs.
  destruct newTerminalArgs as [args|]; [| apply default_branch_copy].
  assert (Hname : cloned_result visited (by_name h s args) (by_name h' s' args)).
  { unfold by_name. case_bool_decide; [apply GetProfileByName_copy | by split]. }
  destruct Hname as [-> Hname].
  destruct (by_name h s args) as [[a|] | e]; cbn [clone_of].
  { destruct (Hname a eq_refl) as [c Hc]. rewrite Hc. cbn [fst].
    split; [by cbn; rewrite Hc | intros ? [= <-]; by eexists]. }
  2:{ by split. }
  assert (Hindex : cloned_result visited (by_index s args) (by_index s' args)).
  { unfold by_index. destruct (NewTerminalArgs.ProfileIndex args) as [index|]; [| by split].
    destruct (narrow_uint32 index) as [i | e]; cbn [obind]; [| by split].
    destruct (GetProfileByIndex_copy i). by apply cloned_result_option. }
  destruct Hindex as [-> Hindex].
  destruct (by_index s args) as [[a|] | e]; cbn [clone_of].
  { destruct (Hindex a eq_refl) as [c Hc]. rewrite Hc. cbn [fst].
    split; [by cbn; rewrite Hc | intros ? [= <-]; by eexists]. }
  2:{ by split. }
  assert (Hcmd : cloned_result visited (by_commandline h s args).1
                   (by_commandline h' s' args).1).
  { unfold by_commandline. case_bool_decide; [apply _getProfileForCommandLine_copy |].
    by split. }
  assert (Hdef : ∀ s1 s1', (∃ once c, s1 = with_cache once c s) →
                           (∃ once c, s1' = with_cache once c s') →
            cloned_result visited (Returned (default_branch h s1 (Some args)))
              (Returned (default_branch h' s1' (Some args)))).
  { intros s1 s1' (once & c & ->) (once' & c' & ->).
    rewrite !default_branch_with_cache. apply default_branch_copy. }
  destruct (by_commandline h s args) as [r s1] eqn:E1.
  destruct (by_commandline h' s' args) as [r' s1'] eqn:E1'.
  apply by_commandline_shape in E1, E1'.
  cbn [fst] in Hcmd. destruct Hcmd as [-> Hcmd].
  destruct r as [[a|] | e]; cbn [clone_of].
  - destruct (Hcmd a eq_refl) as [c Hc]. rewrite Hc. cbn [fst].
    split; [by cbn; rewrite Hc | intros ? [= <-]; by eexists].
  - cbn [fst]. by apply Hdef.
  - by split.
Qed.
End CopyResolution.

Section CopyResolutionClaim.
Context `{Env}.

(** What [Copy] returns on a well formed graph, as the statements about its
    result need it. *)
Lemma Copy_with_map_cloned (h : heap) (s : CascadiaSettings) (rank : addr → nat) :
  well_formed_graph h rank →
  is_Some (h !! _baseLayerProfile s) →
  Forall (λ a, is_Some (h !! a)) (_allProfiles s) →
  ∃ h' s' visited,
    Copy_with_map h s = Some (h', s', visited)
    ∧ clone_inv h (h', visited)
    ∧ (∀ x, is_Some (visited !! x) → cloned h (h', visited) x)
    ∧ visited !! _baseLayerProfile s = Some (_baseLayerProfile s')
    ∧ Forall2 (λ a c, visited !! a = Some c) (_allProfiles s) (_allProfiles s')
    ∧ _activeProfiles s'
      = List.filter (λ profile, negb (Hidden h' profile)) (_allProfiles s')
    ∧ _globals s' = _globals s
    ∧ _commandLinesCacheOnce s' = false
    ∧ _commandLinesCache s' = [].
Proof.
  intros Hgraph [pb Hbase] Hall.
  destruct (CopyInheritanceGraph_spec h rank Hgraph (size h) (_baseLayerProfile s))
    with (st := (h, ∅ : gmap positive positive))
    as (cb & st1 & Hf1 & Hinv1 & Hh1 & Hv1 & Hb1 & Hnew1 & Hdone1).
  { by eexists. }
  { by eapply graph_rank. }
  { apply clone_inv_start. }
  { intros y [? Hy]. simpl in Hy. by rewrite lookup_empty in Hy. }
  destruct (clone_each_spec h rank (CopyInheritanceGraph (size h))
              (_allProfiles s) (size h))
    with (st := st1)
    as (cs & st2 & Hf2 & Hinv2 & Hh2 & Hv2 & Hcs & Hnew2); [| done | |].
  { intros x Hx. rewrite Forall_forall in Hall. destruct (Hall x Hx) as [px Hpx].
    split; [by eapply graph_rank |].
    apply CopyInheritanceGraph_spec; [done | by eexists | by eapply graph_rank]. }
  { intros y Hy _. by apply Hnew1. }
  destruct st2 as [h2 v2]. simpl in *.
  assert (Hcloned : ∀ x, is_Some (v2 !! x) → cloned h (h2, v2) x).
  { intros x Hx. destruct (st1.2 !! x) as [cx|] eqn:Ex.
    - eapply cloned_mono; [| exact Hh2 | exact Hv2]. apply Hnew1; [by eexists | done].
    - by apply Hnew2. }
  eexists h2, _, v2. split.
  { unfold Copy_with_map, CopyInheritanceGraphs. rewrite Hf1, Hf2. reflexivity. }
  cbn [_baseLayerProfile _allProfiles _activeProfiles _globals _commandLinesCacheOnce
       _commandLinesCache].
  split; [done |]. split; [done |].
  split; [exact (lookup_weaken _ _ _ _ Hb1 Hv2) |]. done.
Qed.

(** A copy resolves as its original.  On a well formed graph whose active
    profiles are the profiles that are not hidden and whose command line
    cache is unbuilt or current, every clone has the GUID, name, hidden flag
    and command line of its source, and every lookup on the copy (by GUID, by
    name, by index, for a launch request) returns the clone of the profile
    that the lookup on the original returns, or throws the same exception. *)
Theorem Copy_keeps_resolution (h : heap) (s : CascadiaSettings) (rank : addr → nat) :
  well_formed_graph h rank →
  is_Some (h !! _baseLayerProfile s) →
  Forall (λ a, is_Some (h !! a)) (_allProfiles s) →
  active_invariant h s →
  cache_ready h s →
  ∃ h' s' visited,
    Copy_with_map h s = Some (h', s', visited)
    ∧ Copy h s = Some (h', s')
    ∧ (∀ a c, visited !! a = Some c →
         Guid h' c = Guid h a ∧ Name h' c = Name h a ∧ Hidden h' c = Hidden h a
         ∧ Commandline h' c = Commandline h a)
    ∧ (∀ guid, cloned_result visited (Returned (FindProfile h s guid))
                 (Returned (FindProfile h' s' guid)))
    ∧ (∀ name, cloned_result visited (GetProfileByName h s name)
                 (GetProfileByName h' s' name))
    ∧ (∀ index, cloned_result visited (Returned (GetProfileByIndex s index))
                  (Returned (GetProfileByIndex s' index)))
    ∧ (∀ newTerminalArgs,
         cloned_result visited (GetProfileForArgs h s newTerminalArgs).1
           (GetProfileForArgs h' s' newTerminalArgs).1).
Proof.
  intros Hgraph Hbase Hall Hactive Hcache.
  destruct (Copy_with_map_cloned h s rank Hgraph Hbase Hall)
    as (h' & s' & visited & Hcopy & Hinv & Hcloned & Hb & Hprofiles & Hact & Hglobals
        & Honce & Hc).
  assert (Hsize : size h ≤ size h').
  { pose proof (inv_size _ _ Hinv) as Hs. simpl in Hs. lia. }
  assert (Hactives : Forall2 (λ a c, visited !! a = Some c)
                       (_activeProfiles s) (_activeProfiles s')).
  { rewrite Hact, Hactive. apply filter_cloned; [done |]. intros a c Hac.
    by rewrite (Hidden_cloned h h' visited rank Hgraph Hsize Hcloned a c Hac). }
  exists h', s', visited. split; [done |].
  split; [by unfold Copy; rewrite Hcopy |].
  split.
  { intros a c Hac. split; [by eapply Guid_cloned |]. split; [by eapply Name_cloned |].
    split; [by eapply Hidden_cloned |]. unfold Commandline.
    by eapply get_setting_cloned. }
  split.
  { intros guid.
    destruct (FindProfile_copy h h' visited rank s s' Hgraph Hsize Hcloned Hprofiles guid).
    by apply cloned_result_option. }
  split; [intros name; by eapply GetProfileByName_copy |].
  split.
  { intros index. destruct (GetProfileByIndex_copy visited s s' Hactives index).
    by apply cloned_result_option. }
  intros newTerminalArgs. by eapply GetProfileForArgs_copy.
Qed.
End CopyResolutionClaim.

Lemma Copy_keeps_resolution_witness :
  well_formed_graph example_heap example_rank
  ∧ is_Some (example_heap !! _baseLayerProfile example_settings)
  ∧ Forall (λ a, is_Some (example_heap !! a)) (_allProfiles example_settings)
  ∧ @active_invariant example_env example_heap example_settings
  ∧ @cache_ready example_env example_heap example_settings
  ∧ ∃ h' s' visited,
      @Copy example_env example_heap example_settings = Some (h', s')
      ∧ (∀ name, cloned_result visited
                   (@GetProfileByName example_env example_heap example_settings name)
                   (@GetProfileByName example_env h' s' name))
      ∧ (∀ newTerminalArgs,
           cloned_result visited
             (@GetProfileForArgs example_env example_heap example_settings
                newTerminalArgs).1
             (@GetProfileForArgs example_env h' s' newTerminalArgs).1).
Proof.
  assert (Hb : is_Some (example_heap !! _baseLayerProfile example_settings))
    by (by eexists).
  assert (Hactive : @active_invariant example_env example_heap example_settings)
    by (vm_compute; reflexivity).
  assert (Hcache : @cache_ready example_env example_heap example_settings)
    by (left; split; reflexivity).
  split; [exact example_graph |]. split; [exact Hb |].
  split; [exact example_profiles_exist |]. split; [exact Hactive |].
  split; [exact Hcache |].
  destruct (@Copy_keeps_resolution example_env example_heap example_settings example_rank
              example_graph Hb example_profiles_exist Hactive Hcache)
    as (h' & s' & visited & _ & H2 & _ & _ & H5 & _ & H7).
  exists h', s', visited. split; [exact H2 |]. split; [exact H5 | exact H7].
Defined.

(** ** The warnings of a validation *)

Section ValidationWarnings.
Context `{Env}.

(** Clearing one setting of an appearance leaves its other settings as
    they read. *)
Lemma appearance_get_appearance_clear k k' appearance h a :
  k ≠ k' →
  appearance_get k (appearance_clear k' appearance h) a = appearance_get k h a.
Proof.
  intros Hk.
  assert (Hget : ∀ x, get_setting OfAppearance k (appearance_clear k' appearance h) x
                      = get_setting OfAppearance k h x).
  { intros x. unfold get_setting.
    destruct appearance as [a0 | b0]; cbn [appearance_clear]; unfold clear_setting;
      rewrite resolve_alter; try done; try (by intros []).
    intros p. destruct p; cbn. by apply lookup_delete_ne. }
  destruct a as [x | owner]; cbn [appearance_get]; [apply Hget |].
  rewrite Hget.
  destruct appearance as [a0 | b0]; cbn [appearance_clear]; unfold clear_setting;
    rewrite lookup_alter; case_decide as Ho; try done; subst;
    destruct (h !! owner) as [p|]; simpl; try done.
  destruct (UnfocusedAppearance p) as [u|]; simpl; [| done].
  by rewrite lookup_delete_ne.
Qed.

Lemma scheme_pass_keeps_media colorSchemes h0 l h :
  let h1 := run_checks (l ≫= scheme_checks colorSchemes h0) h in
  (∀ appearance, BackgroundImagePath h1 appearance = BackgroundImagePath h appearance)
  ∧ (∀ a, Icon h1 a = Icon h a).
Proof.
  cbn zeta.
  assert (Hcs := scheme_checks_appearance colorSchemes h0 l).
  assert (Hkey : Forall (λ c : Slot * (string → bool),
                           ∃ appearance, c.1 = AppearanceSlot appearance "ColorSchemeName")
                   (l ≫= scheme_checks colorSchemes h0)).
  { apply Forall_forall. intros c Hc. apply list_elem_of_bind in Hc as (q & Hc & _).
    unfold scheme_checks in Hc. apply list_elem_of_fmap in Hc as (appearance & -> & _).
    by eexists. }
  clear Hcs. revert h. induction Hkey as [|c cs [appearance Hc] _ IH]; intros h; [done |].
  cbn [run_checks foldl]. destruct (IH (apply_check h c)) as [IHb IHi].
  destruct c as [sl test]. cbn [fst] in Hc. subst sl. split.
  - intros a. fold (run_checks cs (apply_check h (AppearanceSlot appearance "ColorSchemeName", test))).
    rewrite IHb. unfold apply_check. cbn [fst snd slot_clear].
    destruct (test _); [| done]. by apply appearance_get_appearance_clear.
  - intros a. fold (run_checks cs (apply_check h (AppearanceSlot appearance "ColorSchemeName", test))).
    rewrite IHi. apply Icon_apply_check_appearance.
Qed.

(** The warnings of a validation, in order, are decided by the settings as
    they are before it: when expanding environment variables does not fail,
    [_validateSettings] returns and appends [UnknownColorScheme] if some
    appearance of a listed profile names no existing scheme, then
    [InvalidBackgroundImage] and [InvalidIcon] if some background image path
    or icon fails the test of the media pass, then the keybinding warnings
    under their marker, then [InvalidColorSchemeInCmd]; the passes do not
    influence each other.  The store differs by cleared values only, and not
    at all when none of the three warnings about profiles is appended. *)
Theorem _validateSettings_warnings (h : heap) (s : CascadiaSettings) :
  (∀ x, ∃ y, ExpandEnvironmentStringsW x = Returned y) →
  let unknownScheme :=
    existsb (λ profile, existsb (invalid_scheme (ColorSchemes (_globals s)) h)
                          (appearances_of h profile)) (_allProfiles s) in
  let invalidBackground := invalid_backgrounds h (_allProfiles s) in
  let invalidIcon := existsb (invalid_icon h) (_allProfiles s) in
  ∃ h',
    _validateSettings h s
    = Returned (h', with_warnings
                      (_warnings s
                       ++ profile_block unknownScheme invalidBackground invalidIcon
                       ++ keybinding_block (_globals s) ++ command_block (_globals s)) s)
    ∧ cleared h h'
    ∧ (unknownScheme = false → invalidBackground = false → invalidIcon = false → h' = h).
Proof.
  intros Hexp unknownScheme invalidBackground invalidIcon.
  unfold _validateSettings. rewrite _validateAllSchemesExist_eq. fold unknownScheme.
  set (h1 := run_checks _ h).
  set (s1 := if unknownScheme then Append UnknownColorScheme s else s).
  assert (Hc1 : cleared h h1) by apply cleared_run_checks.
  destruct (scheme_pass_keeps_media (ColorSchemes (_globals s)) h (_allProfiles s) h)
    as [Hbg Hicon]. fold h1 in Hbg, Hicon.
  destruct (media_pass_flags Hexp h (_allProfiles s) h1 false false (proj1 Hc1)
              (λ _, Hbg) (λ _, Hicon)) as (h2 & Hrun & Hh2 & Hsame).
  cbn [orb] in Hrun, Hsame. fold invalidBackground invalidIcon in Hrun, Hsame.
  unfold _validateMediaResources.
  assert (Hl : _allProfiles s1 = _allProfiles s) by (unfold s1; by destruct unknownScheme).
  rewrite Hl, Hrun. cbn [obind]. exists h2. split; [| split].
  - f_equal. f_equal.
    rewrite _validateColorSchemesInCommands_eq, _validateKeybindings_eq.
    unfold s1, profile_block, Append.
    destruct unknownScheme, invalidBackground, invalidIcon; cbn;
      rewrite ?app_nil_r, <- ?app_assoc; try done; by destruct s.
  - subst h2. eapply cleared_trans; [exact Hc1 | apply cleared_run_checks].
  - intros Hs Hb Hi. rewrite (Hsame Hb Hi). unfold h1. by apply scheme_pass_silent.
Qed.
End ValidationWarnings.

Lemma _validateSettings_warnings_witness :
  (∀ x, ∃ y, @ExpandEnvironmentStringsW example_env x = Returned y)
  ∧ ∃ h',
      @_validateSettings example_env bad_media_heap two_profile_settings
      = Returned (h', with_warnings [InvalidBackgroundImage; InvalidIcon]
                        two_profile_settings)
      ∧ cleared bad_media_heap h'.
Proof.
  assert (Hexp : ∀ x, ∃ y, @ExpandEnvironmentStringsW example_env x = Returned y).
  { intros x. exists x. reflexivity. }
  split; [exact Hexp |].
  destruct (@_validateSettings_warnings example_env bad_media_heap two_profile_settings
              Hexp) as (h' & Hrun & Hc & _).
  exists h'. split; [exact Hrun | exact Hc].
Defined.
